(** * Price monitor: a shallow embedding of [opensea.py], [telegram.py], [main.py]

    The three source files are embedded module by module.  The Python
    built-ins that the program relies on ([str.split], [str.strip],
    [float], [int], formatting of a float inside an f-string, exceptions
    and their class hierarchy) are modelled first, in [Module Py].

    Conventions.
    - A Python [str] is a [string]; a character is a code point below 256.
    - A Python [float] is an IEEE-754 binary64 value, represented by
      [spec_float] at precision 53 and maximal exponent 1024.
    - A computation that may raise is a [result]; [except] clauses are
      explicit matches on the class of the exception.
    - The browser, the chat transport and the file system are external:
      what they answer is an input of the function that calls them.
    - Logging is not modelled. *)

From Stdlib Require Import ZArith String Ascii List Bool Lia.
From Stdlib Require Import Floats.SpecFloat.
From Stdlib Require Import Decimal DecimalString DecimalFacts DecimalPos DecimalN.
From stdpp Require Import base option gmap strings.

Import ListNotations.
Local Open Scope string_scope.
Local Open Scope Z_scope.

(* ===================================================================== *)
(** * Python built-ins                                                     *)
(* ===================================================================== *)

Module Py.

(** ** Exceptions *)

(** The exception classes that occur in the program or in the library
    calls it makes.  A value of [exn] stands for an instance of that exact
    class; messages are not kept, they only reach the log. *)
Inductive exn : Type :=
  | Exception            (* a plain [Exception(...)] *)
  | ValueError
  | IndexError
  | KeyError
  | OSError
  | FileNotFoundError    (* subclass of OSError *)
  | PermissionError      (* subclass of OSError *)
  | IsADirectoryError    (* subclass of OSError *)
  | JSONDecodeError      (* subclass of ValueError *)
  | UnicodeDecodeError   (* subclass of ValueError *)
  | PlaywrightError      (* playwright.sync_api.Error *)
  | PlaywrightTimeout    (* playwright.sync_api.TimeoutError, subclass of Error *)
  | TelegramAPIError     (* raised by the chat transport *)
  | UnboundLocalError
  | OverflowError.

#[global] Instance exn_eq_dec : EqDecision exn.
Proof. solve_decision. Defined.

(** [issubclass e c]: an instance of class [e] is caught by [except c]. *)
Definition issubclass (e c : exn) : bool :=
  match c with
  | Exception => true
  | ValueError =>
      match e with
      | ValueError | JSONDecodeError | UnicodeDecodeError => true
      | _ => false
      end
  | OSError =>
      match e with
      | OSError | FileNotFoundError | PermissionError | IsADirectoryError => true
      | _ => false
      end
  | PlaywrightError =>
      match e with
      | PlaywrightError | PlaywrightTimeout => true
      | _ => false
      end
  | _ => bool_decide (e = c)
  end.

(** [except (c1, c2, ...)] *)
Definition caught_by (e : exn) (classes : list exn) : bool :=
  existsb (issubclass e) classes.

(** ** Computations that may raise *)

Inductive result (A : Type) : Type :=
  | Ok (a : A)
  | Raise (e : exn).
Arguments Ok {A} a.
Arguments Raise {A} e.

#[global] Instance result_ret : MRet result := fun A a => Ok a.
#[global] Instance result_bind : MBind result := fun A B k r =>
  match r with
  | Ok a => k a
  | Raise e => Raise e
  end.

(** [try: body except classes: handler] *)
Definition try_except {A} (body : result A) (classes : list exn)
    (handler : exn -> result A) : result A :=
  match body with
  | Ok a => Ok a
  | Raise e => if caught_by e classes then handler e else Raise e
  end.

(** [try: body finally: cleanup], for a cleanup that itself may raise: the
    exception of the cleanup replaces the outcome of the body. *)
Definition try_finally {A} (body : result A) (cleanup : result unit) : result A :=
  match cleanup with
  | Ok _ => body
  | Raise e => Raise e
  end.

Definition raises {A} (r : result A) : Prop := exists e, r = Raise e.

(** ** Strings *)

Definition code (c : ascii) : Z := Z.of_N (N_of_ascii c).

(** [str.isspace] on one character: the Unicode white space below 256. *)
Definition isspace (c : ascii) : bool :=
  let n := code c in
  ((9 <=? n) && (n <=? 13)) || ((28 <=? n) && (n <=? 32))
  || (n =? 133) || (n =? 160).

(** C [isspace] in the C locale ([Py_ISSPACE]), used inside [float], [int]. *)
Definition c_isspace (c : ascii) : bool :=
  let n := code c in
  ((9 <=? n) && (n <=? 13)) || (n =? 32).

Definition isdigit (c : ascii) : bool :=
  let n := code c in (48 <=? n) && (n <=? 57).

Definition digit_value (c : ascii) : Z := code c - 48.

Definition is_empty (s : string) : bool :=
  match s with
  | EmptyString => true
  | String _ _ => false
  end.

(** [s.split()]: the maximal runs of non-space characters.  [cur] is the
    run being read. *)
Fixpoint split_from (s cur : string) : list string :=
  match s with
  | EmptyString => if is_empty cur then [] else [cur]
  | String c s' =>
      if isspace c then
        if is_empty cur then split_from s' EmptyString
        else cur :: split_from s' EmptyString
      else split_from s' (cur ++ String c EmptyString)
  end.

Definition split (s : string) : list string := split_from s EmptyString.

Fixpoint lstrip_with (sp : ascii -> bool) (s : string) : string :=
  match s with
  | EmptyString => EmptyString
  | String c s' => if sp c then lstrip_with sp s' else s
  end.

Fixpoint rstrip_with (sp : ascii -> bool) (s : string) : string :=
  match s with
  | EmptyString => EmptyString
  | String c s' =>
      let r := rstrip_with sp s' in
      if is_empty r && sp c then EmptyString else String c r
  end.

(** [s.strip()] *)
Definition strip (s : string) : string :=
  rstrip_with isspace (lstrip_with isspace s).

(** [sep.join(l)] *)
Fixpoint join (sep : string) (l : list string) : string :=
  match l with
  | [] => EmptyString
  | [x] => x
  | x :: l' => x ++ sep ++ join sep l'
  end.

(** [s.replace(old, new)] for one-character [old] and [new]. *)
Fixpoint replace (old new : ascii) (s : string) : string :=
  match s with
  | EmptyString => EmptyString
  | String c s' =>
      String (if Ascii.eqb c old then new else c) (replace old new s')
  end.

(** [s.upper()].  The capital of sharp s is [SS].  The capitals of the
    micro sign and of y with diaeresis lie beyond code point 255: a string
    with one of these letters has no capital form among the strings of the
    model, and [upper] gives [None] for it. *)
Definition upper_char (c : ascii) : option string :=
  let n := code c in
  if (n =? 181) || (n =? 255) then None
  else if n =? 223 then Some "SS"
  else if ((97 <=? n) && (n <=? 122))
          || ((224 <=? n) && (n <=? 254) && negb (n =? 247))
  then Some (String (ascii_of_N (Z.to_N (n - 32))) EmptyString)
  else Some (String c EmptyString).

Fixpoint upper (s : string) : option string :=
  match s with
  | EmptyString => Some EmptyString
  | String c s' =>
      match upper_char c, upper s' with
      | Some u, Some t => Some (u ++ t)
      | _, _ => None
      end
  end.

(** [l[i]] on a list *)
Definition getitem {A} (l : list A) (i : nat) : result A :=
  match nth_error l i with
  | Some x => Ok x
  | None => Raise IndexError
  end.

(** [d[k]] on a dict *)
Definition subscript (d : gmap string string) (k : string) : result string :=
  match d !! k with
  | Some v => Ok v
  | None => Raise KeyError
  end.

(** ** Floats *)

(** A Python [float] is a binary64 value. *)
Definition float : Type := spec_float.

Definition prec : Z := 53.
Definition emax : Z := 1024.

(** [0.0] *)
Definition zero : float := S754_zero false.

(** [x == y], [x > y] on floats: IEEE comparisons, false on NaN. *)
Definition float_eq (x y : float) : bool := SFeqb x y.
Definition float_gt (x y : float) : bool := SFltb y x.

(** The binary64 value nearest to the rational [n / d] (ties to even),
    infinite beyond the range. *)
Definition binary64_of_ratio (neg : bool) (n d : positive) : float :=
  SFdiv prec emax (S754_finite neg n 0) (S754_finite false d 0).

(** The binary64 value nearest to [mant * 10 ^ e10], for [0 <= mant]. *)
Definition float_of_decimal (neg : bool) (mant e10 : Z) : float :=
  match mant with
  | Zpos m =>
      if 0 <=? e10 then binary64_of_ratio neg (m * Z.to_pos (10 ^ e10)) 1
      else binary64_of_ratio neg m (Z.to_pos (10 ^ (- e10)))
  | _ => S754_zero neg
  end.

(** A run of decimal digits at the head of [s]: the number read so far
    ([acc] extended by the digits), how many digits were read, the rest. *)
Fixpoint read_digits (s : string) (acc n : Z) : Z * Z * string :=
  match s with
  | String c s' =>
      if isdigit c then read_digits s' (10 * acc + digit_value c) (n + 1)
      else (acc, n, s)
  | EmptyString => (acc, n, s)
  end.

Definition read_sign (s : string) : bool * string :=
  match s with
  | String "-" s' => (true, s')
  | String "+" s' => (false, s')
  | _ => (false, s)
  end.

Definition is_e (c : ascii) : bool := Ascii.eqb c "e" || Ascii.eqb c "E".

(** The decimal syntax of the interpreter's [strtod], required to span the
    whole of [s]:  [sign? (digits [.] digits* | . digits+) ([eE] sign? digits+)?] *)
Definition parse_decimal (s : string) : option float :=
  let '(neg, s1) := read_sign s in
  let '(ip, ni, s2) := read_digits s1 0 0 in
  let '(m, nf, s3) :=
    match s2 with
    | String "." s2' => read_digits s2' ip 0
    | _ => (ip, 0, s2)
    end in
  if ni + nf =? 0 then None
  else
    match s3 with
    | EmptyString => Some (float_of_decimal neg m (- nf))
    | String c s4 =>
        if is_e c then
          let '(eneg, s5) := read_sign s4 in
          let '(ev, ne, s6) := read_digits s5 0 0 in
          if (ne =? 0) || negb (is_empty s6) then None
          else Some (float_of_decimal neg m ((if eneg then - ev else ev) - nf))
        else None
    end.

Definition lower_char (c : ascii) : ascii :=
  let n := code c in
  if (65 <=? n) && (n <=? 90) then ascii_of_N (Z.to_N (n + 32)) else c.

Fixpoint lower (s : string) : string :=
  match s with
  | EmptyString => EmptyString
  | String c s' => String (lower_char c) (lower s')
  end.

(** [sign? (inf | infinity | nan)], letters in either case. *)
Definition parse_inf_or_nan (s : string) : option float :=
  let '(neg, s1) := read_sign s in
  let w := lower s1 in
  if String.eqb w "inf" || String.eqb w "infinity" then Some (S754_infinity neg)
  else if String.eqb w "nan" then Some S754_nan
  else None.

(** Underscores are dropped; each has to stand between two digits. *)
Fixpoint remove_underscores (s : string) (prev : ascii) : option string :=
  match s with
  | EmptyString => if Ascii.eqb prev "_" then None else Some EmptyString
  | String c s' =>
      if Ascii.eqb c "_" then
        if isdigit prev then remove_underscores s' c else None
      else if Ascii.eqb prev "_" && negb (isdigit c) then None
      else String c <$> remove_underscores s' c
  end.

(** White space beyond ASCII becomes a blank before the number is read. *)
Definition space_to_ascii (s : string) : string :=
  replace (ascii_of_N 133) " " (replace (ascii_of_N 160) " " s).

(** [float(s)] for a [str]: [ValueError] when [s] is not a number. *)
Definition float_of_str (s : string) : result float :=
  match remove_underscores (space_to_ascii s) "000" with
  | None => Raise ValueError
  | Some t =>
      let u := rstrip_with c_isspace (lstrip_with c_isspace t) in
      match parse_decimal u with
      | Some x => Ok x
      | None =>
          match parse_inf_or_nan u with
          | Some x => Ok x
          | None => Raise ValueError
          end
      end
  end.

(** *** Formatting a float: [repr(x)], which is what [f"{x}"] inserts

    The digits are the shortest decimal that reads back as [x], the one
    nearest to [x] when several of that length do; seventeen significant
    digits are the fall-back. *)

Definition nb_digits10 (p : positive) : Z :=
  Z.of_nat (Decimal.nb_digits (Pos.to_uint p)).

Definition digits_string (z : Z) : string :=
  NilZero.string_of_uint (N.to_uint (Z.to_N z)).

(** The exponent of the leading decimal digit of [n / d]. *)
Definition floor_log10 (n d : positive) : Z :=
  if (d <=? n)%positive then nb_digits10 (Z.to_pos (Zpos n / Zpos d)) - 1
  else
    let k := nb_digits10 (Z.to_pos (Zpos d / Zpos n)) in
    if Zpos d <=? Zpos n * 10 ^ (k - 1) then - (k - 1) else - k.

(** [n / d] divided by [10 ^ k], as a fraction. *)
Definition scale10 (n d : positive) (k : Z) : Z * Z :=
  if 0 <=? k then (Zpos n, Zpos d * 10 ^ k) else (Zpos n * 10 ^ (- k), Zpos d).

(** Of the two multiples of [10 ^ k] around [x = num / den * 10 ^ k], one
    that reads back as [x], the nearer one if both do. *)
Definition pick_digits (x : float) (num den k : Z) : option Z :=
  let lo := num / den in
  let r := num mod den in
  let ok_lo := float_eq (float_of_decimal false lo k) x in
  let ok_hi := float_eq (float_of_decimal false (lo + 1) k) x in
  match ok_lo, ok_hi with
  | true, true =>
      Some match 2 * r ?= den with
           | Lt => lo
           | Gt => lo + 1
           | Eq => if Z.even lo then lo else lo + 1
           end
  | true, false => Some lo
  | false, true => Some (lo + 1)
  | false, false => None
  end.

Definition nearest_digits (num den : Z) : Z :=
  let lo := num / den in
  match 2 * (num mod den) ?= den with
  | Lt => lo
  | Gt => lo + 1
  | Eq => if Z.even lo then lo else lo + 1
  end.

(** Tries [ndig], [ndig + 1], ... significant digits, [fuel] lengths in
    all; [p] is the exponent of the leading digit. *)
Fixpoint shortest_digits (x : float) (n d : positive) (p ndig : Z) (fuel : nat)
    : Z * Z :=
  match fuel with
  | O =>
      let k := p - 16 in
      let '(num, den) := scale10 n d k in (nearest_digits num den, k)
  | S fuel' =>
      let k := p - ndig + 1 in
      let '(num, den) := scale10 n d k in
      match pick_digits x num den k with
      | Some c => (c, k)
      | None => shortest_digits x n d p (ndig + 1) fuel'
      end
  end.

Fixpoint strip_zeros (fuel : nat) (c k : Z) : Z * Z :=
  match fuel with
  | O => (c, k)
  | S fuel' =>
      if (0 <? c) && (c mod 10 =? 0) then strip_zeros fuel' (c / 10) (k + 1)
      else (c, k)
  end.

Fixpoint zeros (n : nat) : string :=
  match n with
  | O => EmptyString
  | S n' => String "0" (zeros n')
  end.

(** The digits [ds] with the decimal point after the first [decpt] of
    them: exponent form when [decpt <= -4] or [decpt > 16]. *)
Definition format_digits (ds : string) (decpt : Z) : string :=
  let nd := Z.of_nat (String.length ds) in
  if (decpt <=? -4) || (16 <? decpt) then
    let e := decpt - 1 in
    let mant :=
      match ds with
      | String c (String _ _ as rest) => String c ("." ++ rest)
      | _ => ds
      end in
    let es := digits_string (Z.abs e) in
    mant ++ "e" ++ (if e <? 0 then "-" else "+")
         ++ (if Z.abs e <? 10 then "0" ++ es else es)
  else if decpt <=? 0 then "0." ++ zeros (Z.to_nat (- decpt)) ++ ds
  else if nd <=? decpt then ds ++ zeros (Z.to_nat (decpt - nd)) ++ ".0"
  else substring 0 (Z.to_nat decpt) ds ++ "."
       ++ substring (Z.to_nat decpt) (Z.to_nat (nd - decpt)) ds.

Definition float_repr (x : float) : string :=
  match x with
  | S754_nan => "nan"
  | S754_infinity s => if s then "-inf" else "inf"
  | S754_zero s => if s then "-0.0" else "0.0"
  | S754_finite s m e =>
      let n := (m * Z.to_pos (2 ^ e))%positive in
      let d := Z.to_pos (2 ^ (- e)) in
      let '(c, k) :=
        shortest_digits (S754_finite false m e) n d (floor_log10 n d) 1 17 in
      let '(c, k) := strip_zeros 20 c k in
      let ds := digits_string c in
      (if s then "-" else "")
        ++ format_digits ds (Z.of_nat (String.length ds) + k)
  end.

(** ** Integers *)

(** The digits of an [int] literal, single underscores allowed between
    them: the number, how many digits, the rest. *)
Fixpoint read_int_digits (s : string) (prev : ascii) (acc n : Z)
    : option (Z * Z * string) :=
  match s with
  | String c s' =>
      if isdigit c then read_int_digits s' c (10 * acc + digit_value c) (n + 1)
      else if Ascii.eqb c "_" then
        if Ascii.eqb prev "_" then None else read_int_digits s' c acc n
      else if Ascii.eqb prev "_" then None else Some (acc, n, s)
  | EmptyString => if Ascii.eqb prev "_" then None else Some (acc, n, s)
  end.

(** [sys.get_int_max_str_digits()], at its default. *)
Definition int_max_str_digits : Z := 4300.

(** [int(s)] for a [str], base ten. *)
Definition int_of_str (s : string) : result Z :=
  let '(neg, t) := read_sign (lstrip_with c_isspace (space_to_ascii s)) in
  match t with
  | String "_" _ => Raise ValueError
  | _ =>
      match read_int_digits t "000" 0 0 with
      | None => Raise ValueError
      | Some (v, n, rest) =>
          if (n =? 0) || (int_max_str_digits <? n)
             || negb (is_empty (lstrip_with c_isspace rest))
          then Raise ValueError
          else Ok (if neg then - v else v)
      end
  end.

(** The largest time that the interpreter holds, in nanoseconds. *)
Definition time_max : Z := 2 ^ 63 - 1.

(** [time.sleep(secs)] for an [int], when the monotonic clock reads [now]
    nanoseconds.  The length is turned into nanoseconds, which has to fit:
    else [OverflowError].  A negative length is refused.  The deadline,
    the clock plus the length, has to stay below [time_max], or the system
    call fails (as Linux does, with [EINVAL]).  A sleep that is accepted
    returns at once in the model. *)
Definition sleep (now secs : Z) : result unit :=
  let ns := secs * 1000000000 in
  if (ns <? - time_max - 1) || (time_max <? ns) then Raise OverflowError
  else if secs <? 0 then Raise ValueError
  else if time_max <=? now + ns then Raise OSError
  else Ok tt.

End Py.

Import Py.

(* ===================================================================== *)
(** * The outside world                                                     *)
(* ===================================================================== *)

(** What the page shows for one selector. *)
Inductive element : Type :=
  | Visible (inner_text : string)   (* [is_visible()] holds *)
  | Hidden                          (* [is_visible()] is false *)
  | Broken (e : exn).               (* the locator calls raise [e] *)

(** One page of the headless browser: for each call made on it, whether
    it returns ([None]) or raises. *)
Record page : Type := Page {
  goto : option exn;
  load_state : option exn;
  floor_wait : option exn;          (* [wait_for_selector] on the floor price *)
  best_wait : option exn;           (* [wait_for_selector] on the best offer *)
  floor_element : element;
  best_element : element
}.

Inductive session : Type :=
  | LaunchFails (e : exn)
  | Opened (p : page).

(** The file [memory.json]. *)
Inductive file_state : Type :=
  | Absent                           (* [open] raises FileNotFoundError *)
  | Unreadable (e : exn)             (* [open] or the read raises [e] *)
  | NotJson                          (* text that [json.load] rejects *)
  | Holds (d : gmap string string).  (* a JSON object of strings *)

(** What happens when the file is written. *)
Inductive write_outcome : Type :=
  | Written
  | OpenFails (e : exn)              (* the file is left as it was *)
  | DumpFails (e : exn).             (* opened, hence truncated, then [e] *)

Inductive event : Type :=
  | EvLaunch                                   (* a browser is launched *)
  | EvGoto (url : string)
  | EvSleep (secs : Z)
  | EvSendMessage (chat_id text : string)      (* [bot.send_message] is called *)
  | EvSendOther (chat_id : string)             (* the same, with a text that has
                                                  a character beyond code point
                                                  255 *)
  | EvWrite (d : gmap string string).          (* [json.dump] into the file *)

(** The world: the environment variables (as they are once [load_dotenv]
    has run), the memory file, the answers the external parties will give
    to the next calls (the [n]-th launched browser, the [n]-th call on the
    bot, the [n]-th write of the file), what has been done so far, the
    latest event first, what the monotonic clock reads, in nanoseconds,
    at the [n]-th sleep from now, and whether [price_monitor.log] can be
    opened for appending. *)
Record world : Type := World {
  environ : gmap string string;
  memory_json : file_state;
  browser : nat -> session;
  chat : nat -> option exn;
  disk : nat -> write_outcome;
  trace : list event;
  monotonic : nat -> Z;
  price_monitor_log : option exn
}.

(** ** Programs: state and exceptions *)

Definition st (S A : Type) : Type := S -> result A * S.

#[global] Instance st_ret {S} : MRet (st S) := fun A a s => (Ok a, s).
#[global] Instance st_bind {S} : MBind (st S) := fun A B k m s =>
  match m s with
  | (Ok a, s') => k a s'
  | (Raise e, s') => (Raise e, s')
  end.

Definition raise {S A} (e : exn) : st S A := fun s => (Raise e, s).

Definition lift {S A} (r : result A) : st S A := fun s => (r, s).

(** [try: body except classes: handler e] *)
Definition st_try_except {S A} (body : st S A) (classes : list exn)
    (handler : exn -> st S A) : st S A := fun s =>
  match body s with
  | (Ok a, s') => (Ok a, s')
  | (Raise e, s') =>
      if caught_by e classes then handler e s' else (Raise e, s')
  end.

(** [try: body finally: cleanup] *)
Definition st_try_finally {S A} (body : st S A) (cleanup : st S unit)
    : st S A := fun s =>
  match body s with
  | (r, s') =>
      match cleanup s' with
      | (Ok _, s'') => (r, s'')
      | (Raise e, s'') => (Raise e, s'')
      end
  end.

(** How one pass through the body of a loop ends: it reaches its end,
    [continue], or [return a]. *)
Inductive flow (A : Type) : Type :=
  | Next
  | Continue
  | Return (a : A).
Arguments Next {A}.
Arguments Continue {A}.
Arguments Return {A} a.

(** A call whose outcome the outside decides. *)
Definition call (o : option exn) : result unit :=
  match o with
  | None => Ok tt
  | Some e => Raise e
  end.

Definition emit (ev : event) : st world unit := fun w =>
  (Ok tt, World (environ w) (memory_json w) (browser w) (chat w) (disk w)
                (ev :: trace w) (monotonic w) (price_monitor_log w)).

(** [bot.send_message(chat_id=chat_id, text=text)], for a text of the model
    or, [None], one with a character beyond it. *)
Definition sent (chat_id : string) (text : option string) : event :=
  match text with
  | Some text => EvSendMessage chat_id text
  | None => EvSendOther chat_id
  end.

(** The machine has been up for at most a hundred years, in nanoseconds. *)
Definition uptime_max : Z := 3155760000 * 1000000000.

(** The reading of the monotonic clock at the next sleep, which counts
    from the start of the machine. *)
Definition next_clock : st world Z := fun w =>
  (Ok (Z.max 0 (Z.min (monotonic w 0%nat) uptime_max)),
   World (environ w) (memory_json w) (browser w) (chat w) (disk w) (trace w)
         (fun n => monotonic w (S n)) (price_monitor_log w)).

(** [time.sleep(secs)] *)
Definition time_sleep (secs : Z) : st world unit :=
  now ← next_clock; _ ← lift (Py.sleep now secs); emit (EvSleep secs).

(** The next browser. *)
Definition next_session : st world session := fun w =>
  (Ok (browser w 0%nat),
   World (environ w) (memory_json w) (fun n => browser w (S n)) (chat w)
         (disk w) (EvLaunch :: trace w) (monotonic w) (price_monitor_log w)).

(** The answer to the next call on the bot. *)
Definition next_chat : st world (option exn) := fun w =>
  (Ok (chat w 0%nat),
   World (environ w) (memory_json w) (browser w) (fun n => chat w (S n))
         (disk w) (trace w) (monotonic w) (price_monitor_log w)).

(** The outcome of the next write. *)
Definition next_write : st world write_outcome := fun w =>
  (Ok (disk w 0%nat),
   World (environ w) (memory_json w) (browser w) (chat w)
         (fun n => disk w (S n)) (trace w) (monotonic w)
         (price_monitor_log w)).

Definition set_memory_json (f : file_state) : st world unit := fun w =>
  (Ok tt, World (environ w) f (browser w) (chat w) (disk w) (trace w)
                (monotonic w) (price_monitor_log w)).

(* ===================================================================== *)
(** * opensea.py                                                            *)
(* ===================================================================== *)

Module opensea.
Module OpenSeaService.

(** [Tuple[float, str]] *)
Definition price : Type := (float * string)%type.

(** [Dict[str, Tuple[float, str]]] with its two keys. *)
Record prices : Type := Prices { floor_price : price; best_offer : price }.

(** [Dict[str, str]] with the two keys, as the scrape returns it. *)
Record raw_data : Type := RawData { floor_text : string; best_text : string }.

(** [self._base_url], [self._config] *)
Definition _base_url : string := "https://opensea.io/collection".
Definition max_retries : nat := 5.
Definition timeout : Z := 10000.
Definition retry_delay : Z := 2.

(** [_parse_price_string] *)
Definition _parse_price_string (price_string : string) : result price :=
  try_except
    (if String.eqb price_string "N/A" then Ok (zero, "UNKNOWN")
     else
       let parts := split price_string in
       if negb (Nat.eqb (List.length parts) 2) then Ok (zero, "UNKNOWN")
       else
         part0 ← getitem parts 0;
         let price_str := replace "," "." part0 in
         price ← float_of_str price_str;
         part1 ← getitem parts 1;
         Ok (price, part1))
    [ValueError; IndexError]
    (fun _ => Ok (zero, "UNKNOWN")).

(** [_get_element_text] *)
Definition _get_element_text (el : element) : string :=
  match el with
  | Visible text => join " " (split text)
  | Hidden => "N/A"
  | Broken _ => "N/A"      (* [except Exception: return "N/A"] *)
  end.

(** [_scrape_price_data_with_timeout] *)
Definition _scrape_price_data_with_timeout (p : page) (collection_slug : string)
    : st world (option raw_data) :=
  st_try_except
    (let url := _base_url ++ "/" ++ collection_slug in
     _ ← emit (EvGoto url);
     _ ← lift (call (goto p));
     _ ← lift (call (load_state p));
     _ ← st_try_except (lift (call (floor_wait p))) [PlaywrightTimeout] raise;
     _ ← st_try_except (lift (call (best_wait p))) [PlaywrightTimeout] raise;
     let floor_price := strip (_get_element_text (floor_element p)) in
     let best_offer := strip (_get_element_text (best_element p)) in
     if String.eqb floor_price "N/A" || String.eqb best_offer "N/A"
     then raise Exception
     else mret (Some (RawData floor_price best_offer)))
    [Exception]
    raise.

(** [_try_get_prices] *)
Definition _try_get_prices (collection_slug : string)
    : st world (option prices) :=
  s ← next_session;
  match s with
  | LaunchFails _ =>
      (* [browser] is not bound when the [finally] clause closes it *)
      raise UnboundLocalError
  | Opened p =>
      st_try_finally
        (raw ← _scrape_price_data_with_timeout p collection_slug;
         match raw with
         | None => mret None
         | Some raw_data =>
             floor ← lift (_parse_price_string (floor_text raw_data));
             best ← lift (_parse_price_string (best_text raw_data));
             mret (Some (Prices floor best))
         end)
        (mret tt)           (* [browser.close()] *)
  end.

(** The body of the loop of [get_collection_prices], for one [attempt]. *)
Definition attempt_body (collection_slug : string) (attempt : nat)
    : st world (flow prices) :=
  st_try_except
    (result ← _try_get_prices collection_slug;
     match result with
     | None => mret Continue
     | Some result =>
         let '(floor_price, floor_currency) := floor_price result in
         let '(best_offer, best_currency) := best_offer result in
         if existsb (String.eqb "UNKNOWN") [floor_currency; best_currency]
         then _ ← time_sleep retry_delay; mret Continue
         else if float_eq floor_price zero || float_eq best_offer zero
         then _ ← time_sleep retry_delay; mret Continue
         else mret (Return result)
     end)
    [Exception]
    (fun _ =>
       if (attempt <? max_retries - 1)%nat
       then _ ← time_sleep retry_delay; mret Continue
       else mret Next).

(** [for attempt in todo: ...], then [return None]. *)
Fixpoint attempts (collection_slug : string) (todo : list nat)
    : st world (option prices) :=
  match todo with
  | [] => mret None
  | attempt :: rest =>
      f ← attempt_body collection_slug attempt;
      match f with
      | Next | Continue => attempts collection_slug rest
      | Return result => mret (Some result)
      end
  end.

(** [get_collection_prices] *)
Definition get_collection_prices (collection_slug : string)
    : st world (option prices) :=
  attempts collection_slug (seq 0 max_retries).

End OpenSeaService.
End opensea.

(* ===================================================================== *)
(** * telegram.py                                                           *)
(* ===================================================================== *)

Module telegram.

(** Truth value of an [Optional[str]]: [None] and [""] are false. *)
Definition truthy_str (o : option string) : bool :=
  match o with
  | Some s => negb (is_empty s)
  | None => false
  end.

(** Truth value of an [Optional[Dict]]: [None] and [{}] are false. *)
Definition truthy_dict (o : option (gmap string string)) : bool :=
  match o with
  | Some d => negb (bool_decide (d = ∅))
  | None => false
  end.

Definition newline : string := String (ascii_of_N 10) EmptyString.

Definition bold (s : string) : string := "<b>" ++ s ++ "</b>".

Module TelegramService.

Record t : Type := Self { bot_token : string; channel_id : string }.

(** [__init__]: the credentials come from the environment; building the
    [Bot] is the first call on the chat library. *)
Definition __init__ : st world t := fun w =>
  let bot_token := environ w !! "TELEGRAM_BOT_TOKEN" in
  let channel_id := environ w !! "TELEGRAM_CHANNEL_ID" in
  if negb (truthy_str bot_token) || negb (truthy_str channel_id)
  then (Raise ValueError, w)
  else
    (a ← next_chat;
     _ ← lift (call a);
     mret (Self (default "" bot_token) (default "" channel_id))) w.

(** [close] *)
Definition close (self : t) : st world unit :=
  st_try_except
    (a ← next_chat; lift (call a))
    [Exception]
    (fun _ => mret tt).

(** [send_message], for a text of the model or, [None], one with a
    character beyond it. *)
Definition send_message (self : t) (text : option string) : st world bool :=
  st_try_finally
    (st_try_except
       (a ← next_chat;
        _ ← emit (sent (channel_id self) text);
        _ ← lift (call a);
        mret true)
       [Exception]
       (fun _ => mret false))
    (close self).

(** [format_change], local to [send_price_update] *)
Definition format_change (new_price old_price : string) : result string :=
  if is_empty old_price || String.eqb new_price old_price
  then Ok (bold new_price)
  else
    new_token ← getitem (split new_price) 0;
    new_val ← float_of_str new_token;
    old_token ← getitem (split old_price) 0;
    old_val ← float_of_str old_token;
    if float_gt new_val old_val
    then Ok (bold new_price ++ " +")
    else Ok (bold new_price ++ " -").

(** One of the two displays:
    [format_change(new, old_prices[key]) if old_prices else f"<b>{new}</b>"] *)
Definition display (new_price : string) (old_prices : option (gmap string string))
    (key : string) : result string :=
  if truthy_dict old_prices then
    old_price ← subscript (default ∅ old_prices) key;
    format_change new_price old_price
  else Ok (bold new_price).

(** [send_price_update] *)
Definition send_price_update (self : t) (collection floor_price best_offer : string)
    (old_prices : option (gmap string string)) : st world bool :=
  floor_display ← lift (display floor_price old_prices "floor_price");
  best_offer_display ← lift (display best_offer old_prices "best_offer");
  let message : option string :=
    capitals ← upper collection;
    Some (bold capitals ++ " Update" ++ newline ++ newline
          ++ "Floor Price: " ++ floor_display ++ newline
          ++ "Best Offer: " ++ best_offer_display) in
  send_message self message.

End TelegramService.

(** [_send_message_async] *)
Definition _send_message_async (text : string) : st world bool :=
  service ← TelegramService.__init__;
  st_try_finally
    (TelegramService.send_message service (Some text))
    (TelegramService.close service).

(** [_send_price_update_async] *)
Definition _send_price_update_async (collection floor_price best_offer : string)
    (old_prices : option (gmap string string)) : st world bool :=
  service ← TelegramService.__init__;
  st_try_finally
    (TelegramService.send_price_update service collection floor_price
       best_offer old_prices)
    (TelegramService.close service).

(** [send_telegram_message]: runs the coroutine to its end. *)
Definition send_telegram_message (text : string) : st world bool :=
  _send_message_async text.

(** [send_price_update]: runs the coroutine to its end. *)
Definition send_price_update (collection floor_price best_offer : string)
    (old_prices : option (gmap string string)) : st world bool :=
  _send_price_update_async collection floor_price best_offer old_prices.

End telegram.

(* ===================================================================== *)
(** * main.py                                                               *)
(* ===================================================================== *)

Module main.
Module PriceMonitor.

(** The attributes of the monitor that the program reads or writes.
    [memory_file] is always ["memory.json"], the file of [memory_json]. *)
Record t : Type := Self {
  collection_slug : string;
  check_interval : Z;
  last_prices : gmap string string
}.

(** A method runs on the monitor and the world. *)
Definition method (A : Type) : Type := st (t * world) A.

(** A program that leaves the monitor alone, run from a method. *)
Definition on_world {A} (m : st world A) : method A := fun '(self, w) =>
  match m w with
  | (r, w') => (r, (self, w'))
  end.

Definition get_self : method t := fun '(self, w) => (Ok self, (self, w)).

(** [self.last_prices = prices] *)
Definition set_last_prices (prices : gmap string string) : method unit :=
  fun '(self, w) =>
    (Ok tt, (Self (collection_slug self) (check_interval self) prices, w)).

(** [_load_config]: the slug and the interval. *)
Definition _load_config : st world (string * Z) := fun w =>
  let collection_slug := default "hypio" (environ w !! "OPENSEA_COLLECTION_SLUG") in
  let check_interval :=
    match environ w !! "CHECK_INTERVAL" with
    | Some s => int_of_str s
    | None => Ok 300
    end in
  (interval ← check_interval; Ok (collection_slug, interval), w).

(** [_load_memory] *)
Definition _load_memory : st world (gmap string string) :=
  st_try_except
    (fun w =>
       match memory_json w with
       | Absent => (Raise FileNotFoundError, w)
       | Unreadable e => (Raise e, w)
       | NotJson => (Raise JSONDecodeError, w)
       | Holds d => (Ok d, w)
       end)
    [FileNotFoundError; JSONDecodeError]
    (fun _ => mret {[ "floor_price" := "0 ETH"; "best_offer" := "0 ETH" ]}).

(** [_save_memory] *)
Definition _save_memory (prices : gmap string string) : st world unit :=
  o ← next_write;
  match o with
  | OpenFails e => raise e
  | DumpFails e =>
      _ ← emit (EvWrite prices); _ ← set_memory_json NotJson; raise e
  | Written => _ ← emit (EvWrite prices); set_memory_json (Holds prices)
  end.

(** [_format_price] *)
Definition _format_price (price_tuple : opensea.OpenSeaService.price) : string :=
  let '(price, currency) := price_tuple in
  float_repr price ++ " " ++ currency.

(** [_setup_logging]: building the [FileHandler] opens
    [price_monitor.log] for appending. *)
Definition _setup_logging : st world unit := fun w =>
  (call (price_monitor_log w), w).

(** [__init__] *)
Definition __init__ : st world t :=
  _ ← _setup_logging;
  '(collection_slug, check_interval) ← _load_config;
  last_prices ← _load_memory;
  mret (Self collection_slug check_interval last_prices).

(** [_prices_changed] *)
Definition _prices_changed (new_prices : gmap string string) : method bool :=
  self ← get_self;
  new_floor ← lift (subscript new_prices "floor_price");
  old_floor ← lift (subscript (last_prices self) "floor_price");
  if negb (String.eqb new_floor old_floor) then mret true
  else
    new_best ← lift (subscript new_prices "best_offer");
    old_best ← lift (subscript (last_prices self) "best_offer");
    mret (negb (String.eqb new_best old_best)).

(** [check_prices] *)
Definition check_prices : method (option (gmap string string)) :=
  st_try_except
    (self ← get_self;
     result ← on_world
       (opensea.OpenSeaService.get_collection_prices (collection_slug self));
     match result with
     | None => mret None
     | Some result =>
         let floor := opensea.OpenSeaService.floor_price result in
         let best := opensea.OpenSeaService.best_offer result in
         mret (Some {[ "floor_price" := float_repr floor.1 ++ " " ++ floor.2;
                       "best_offer" := float_repr best.1 ++ " " ++ best.2 ]})
     end)
    [Exception]
    (fun _ => mret None).

(** The statements under [try:] in the loop of [run]. *)
Definition iteration_body : method (flow unit) :=
  current_prices ← check_prices;
  if negb (telegram.truthy_dict current_prices) then
    self ← get_self;
    _ ← on_world (time_sleep (check_interval self));
    mret Continue
  else
    let current_prices := default ∅ current_prices in
    changed ← _prices_changed current_prices;
    if (changed : bool) then
      self ← get_self;
      floor_price ← lift (subscript current_prices "floor_price");
      best_offer ← lift (subscript current_prices "best_offer");
      sent ← on_world
        (telegram.send_price_update (collection_slug self) floor_price
           best_offer (Some (last_prices self)));
      if (sent : bool) then
        _ ← on_world (_save_memory current_prices);
        _ ← set_last_prices current_prices;
        mret Next
      else mret Next
    else mret Next.

(** One pass of [while True] in [run]: the guarded statements, then the
    wait, which a [continue] skips. *)
Definition iteration : method unit :=
  f ← st_try_except iteration_body [Exception] (fun _ => mret Next);
  match f with
  | Continue => mret tt
  | _ =>
      self ← get_self;
      on_world (time_sleep (check_interval self))
  end.

(** [run]: the loop has no end; [run n] is its first [n] passes. *)
Fixpoint run (n : nat) : method unit :=
  match n with
  | O => mret tt
  | S n' => _ ← iteration; run n'
  end.

End PriceMonitor.

(** [main], for the first [n] passes of the loop: the monitor, if it was
    built, and the world at the end. *)
Definition main (n : nat) (w : world) : result unit * option PriceMonitor.t * world :=
  match PriceMonitor.__init__ w with
  | (Raise e, w') => (Raise e, None, w')
  | (Ok monitor, w') =>
      match PriceMonitor.run n (monitor, w') with
      | (r, (monitor', w'')) => (r, Some monitor', w'')
      end
  end.

End main.

(* ===================================================================== *)
(** * Vocabulary of the properties                                          *)
(* ===================================================================== *)

Module OS := opensea.OpenSeaService.
Module TS := telegram.TelegramService.
Module PM := main.PriceMonitor.

Local Open Scope list_scope.

(** ** What a program leaves unchanged *)

(** [m] only moves the world along [R]. *)
Definition preserves (R : relation world) {A} (m : st world A) : Prop :=
  ∀ w, R w (m w).2.

(** The events of a fetch: launching, navigating, waiting. *)
Definition fetch_event (ev : event) : bool :=
  match ev with
  | EvLaunch | EvGoto _ | EvSleep _ => true
  | EvSendMessage _ _ | EvSendOther _ | EvWrite _ => false
  end.

(** The events of a notification. *)
Definition notify_event (ev : event) : bool :=
  match ev with
  | EvSendMessage _ _ | EvSendOther _ => true
  | _ => false
  end.

(** From [w] to [w'], the events that [only] admits have been added to the
    trace; the environment and the memory file are as they were. *)
Definition extends (only : event → bool) (w w' : world) : Prop :=
  environ w' = environ w ∧ memory_json w' = memory_json w ∧
  ∃ evs, trace w' = evs ++ trace w ∧ forallb only evs = true.

(** A fetch adds fetch events and leaves the chat and the disk alone. *)
Definition fetch_frame (w w' : world) : Prop :=
  extends fetch_event w w' ∧ chat w' = chat w ∧ disk w' = disk w.

(** A notification adds notify events and leaves the browser and the disk
    alone. *)
Definition notify_frame (w w' : world) : Prop :=
  extends notify_event w w' ∧ browser w' = browser w ∧ disk w' = disk w.

(** The browser is as it was. *)
Definition same_browser (w w' : world) : Prop := browser w' = browser w.

(** The outcome of [m] does not depend on the world. *)
Definition oblivious {A} (m : st world A) : Prop := ∀ w w', (m w).1 = (m w').1.

(** ** Attempts and prices *)

(** A world whose browser shows [s]. *)
Definition showing (s : session) : world :=
  World ∅ Absent (λ _, s) (λ _, None) (λ _, Written) [] (λ _, 0) None.

(** What [_try_get_prices] gives when the browser shows [s]. *)
Definition attempt_outcome (slug : string) (s : session)
    : result (option OS.prices) :=
  (OS._try_get_prices slug (showing s)).1.

(** A price is degenerate when its currency is [UNKNOWN] or its magnitude
    equals zero. *)
Definition degenerate (p : OS.price) : Prop :=
  p.2 = "UNKNOWN" ∨ float_eq p.1 zero = true.

(** An attempt fails when it raises, gives nothing, or gives a pair with a
    degenerate price. *)
Definition failed_attempt (r : result (option OS.prices)) : Prop :=
  match r with
  | Raise _ => True
  | Ok None => True
  | Ok (Some ps) => degenerate (OS.floor_price ps) ∨ degenerate (OS.best_offer ps)
  end.

(** A string is malformed when it is the sentinel, when it does not split
    into exactly two tokens, or when its first token, commas turned into
    periods, is not a number. *)
Definition malformed (price_string : string) : Prop :=
  price_string = "N/A"
  ∨ length (split price_string) ≠ 2%nat
  ∨ ∃ n c, split price_string = [n; c]
           ∧ ∃ e, float_of_str (replace "," "." n) = Raise e.

(** ** Display strings *)

(** The magnitude that [format_change] reads from a display string: the
    number in its first token. *)
Definition leading_magnitude (s : string) (x : float) : Prop :=
  ∃ token rest, split s = token :: rest ∧ float_of_str token = Ok x.

(** An old string that [format_change] cannot read: not empty, not the new
    string, and with a first token that is not a number. *)
Definition unreadable_old (new_price old_price : string) : Prop :=
  old_price ≠ "" ∧ old_price ≠ new_price
  ∧ ∃ token rest, split old_price = token :: rest
                  ∧ float_of_str token = Raise ValueError.

(** [{"floor_price": floor, "best_offer": best}] *)
Definition snapshot (floor best : string) : gmap string string :=
  {[ "floor_price" := floor; "best_offer" := best ]}.

(** ** Sleeping *)

(** The longest sleep, in seconds, that is accepted whatever the clock
    reads: with it the deadline stays below [time_max] even after
    [uptime_max]. *)
Definition sleep_safe : Z := 6067612036.


(** [r] is what [time.sleep(secs)] gives at some reading of the clock. *)
Definition sleep_outcome (secs : Z) (r : result unit) : Prop :=
  ∃ now, 0 ≤ now ≤ uptime_max ∧ r = sleep now secs.

(** ** Credentials *)



(** ** Concrete worlds *)

Definition credentials : gmap string string :=
  {[ "TELEGRAM_BOT_TOKEN" := "1:token"; "TELEGRAM_CHANNEL_ID" := "@channel" ]}.

Definition hypio_url : string := "https://opensea.io/collection/hypio".

(** A page on which both prices are visible. *)
Definition page_showing (floor best : string) : page :=
  Page None None None None (Visible floor) (Visible best).

(** A world in which every page shows the two prices, the chat library
    answers [chat] and the disk [disk]. *)
Definition world_showing (env : gmap string string) (file : file_state)
    (floor best : string) (chat : nat → option exn) (disk : nat → write_outcome)
    : world :=
  World env file (λ _, Opened (page_showing floor best)) chat disk []
        (λ _, 0) None.

(** A monitor of ["hypio"], every 300 seconds, that knows [last]. *)
Definition monitor_knowing (last : gmap string string) : PM.t :=
  PM.Self "hypio" 300 last.

(** The chat library answers the [n]-th call with [e] and all others
    normally. *)
Definition chat_failing_at (n : nat) (e : exn) : nat → option exn :=
  λ i, if Nat.eqb i n then Some e else None.

(** A world with nothing but the file [file]. *)
Definition world_with_file (file : file_state) : world :=
  World ∅ file (λ _, LaunchFails PlaywrightError) (λ _, None) (λ _, Written) []
        (λ _, 0) None.

(** Five sessions that all fail: no browser; a zero floor price; a best
    offer that is not a price; an element that never shows up; a hidden
    element. *)
Definition failing_sessions (i : nat) : session :=
  nth i [ LaunchFails PlaywrightError;
          Opened (page_showing "0 ETH" "0.41 WETH");
          Opened (page_showing "0.44 ETH" "--");
          Opened (Page None None (Some PlaywrightTimeout) None Hidden Hidden);
          Opened (Page None None None None (Visible "0.44 ETH") Hidden) ]
        (LaunchFails PlaywrightError).

Definition failing_world : world :=
  World ∅ Absent failing_sessions (λ _, None) (λ _, Written) [] (λ _, 0) None.

(** A memory file whose floor price is not a price. *)
Definition odd_memory : gmap string string := snapshot "n/a" "0.41 WETH".

Definition odd_world : world :=
  world_showing credentials (Holds odd_memory) "0.44 ETH" "0.41 WETH"
    (λ _, None) (λ _, Written).

(** ** Tokens and decimal literals *)

(** Every character of [s] satisfies [P]. *)
Fixpoint all_chars (P : ascii → bool) (s : string) : bool :=
  match s with
  | EmptyString => true
  | String c s' => P c && all_chars P s'
  end.

(** No character of [s] is white space. *)
Fixpoint no_space (s : string) : bool :=
  match s with
  | EmptyString => true
  | String c s' => negb (isspace c) && no_space s'
  end.

(** A token: a non-empty string without white space. *)
Definition token (s : string) : Prop := no_space s = true ∧ s ≠ "".

(** [' '.join(text.split())] *)
Definition normalise (text : string) : string := join " " (split text).

(** A run of decimal digits. *)
Definition digits (s : string) : bool := all_chars isdigit s.

(** Nothing, or a point and digits. *)
Inductive frac_part : string → Prop :=
  | frac_none : frac_part ""
  | frac_some d : digits d = true → frac_part (String "." d).

(** Nothing, or [e], a sign and at least one digit. *)
Inductive exp_part : string → Prop :=
  | exp_none : exp_part ""
  | exp_some (neg : bool) d :
      digits d = true → d ≠ "" →
      exp_part (String "e" (String (if neg then "-" else "+")%char d)).

(** An optional minus sign, digits, an optional fraction, an optional
    exponent. *)
Definition decimal_literal (s : string) : Prop :=
  ∃ (neg : bool) d f t,
    s = ((if neg then "-" else "") ++ d ++ f ++ t)%string
    ∧ digits d = true ∧ d ≠ "" ∧ frac_part f ∧ exp_part t.

(** The characters of a decimal literal. *)
Definition literal_char (c : ascii) : bool :=
  isdigit c || Ascii.eqb c "." || Ascii.eqb c "e" || Ascii.eqb c "+"
  || Ascii.eqb c "-".

(** A digit does not follow. *)
Definition not_digit_head (s : string) : Prop :=
  match s with
  | String c _ => isdigit c = false
  | EmptyString => True
  end.

(** ** Rounding a ratio *)

(** Where [N / D] lies between two integers: on one, or below, at or
    above the middle. *)
Definition location_of (N D : Z) : location :=
  if N mod D =? 0 then loc_Exact else loc_Inexact (2 * (N mod D) ?= D).

(** [N / D] cut to an integer, with the two bits that keep its location. *)
Definition truncation (N D : Z) : shr_record :=
  shr_record_of_loc (N / D) (location_of N D).

(** The end of [binary_round_aux]: the rounded mantissa [m] at exponent
    [e] is brought to a float. *)
Definition finalize (neg : bool) (m e : Z) : float :=
  let '(mrs, e') := shr_fexp prec emax m e loc_Exact in
  match shr_m mrs with
  | Z0 => S754_zero neg
  | Zpos p =>
      if e' <=? emax - prec then S754_finite neg p e' else S754_infinity neg
  | Zneg _ => S754_nan
  end.

(** [e] is the exponent at which binary64 keeps [N / D * 2 ^ e]: the
    quotient has at most 53 bits, and exactly 53 unless [e] is the least
    exponent. *)
Definition canonical_at (N D e : Z) : Prop :=
  N < 2 ^ 53 * D ∧ (e = -1074 ∨ 2 ^ 52 * D ≤ N).

(** The number that a run of digits writes. *)
Definition digits_value (d : string) : Z := (read_digits d 0 0).1.1.

(** The exponent that an exponent part writes. *)
Definition exp_value (t : string) : Z :=
  match t with
  | String _ s =>
      let '(eneg, d) := read_sign s in
      if eneg : bool then - digits_value d else digits_value d
  | EmptyString => 0
  end.

(** The digits of a fractional part. *)
Definition frac_digits (f : string) : string :=
  match f with
  | String _ d => d
  | EmptyString => EmptyString
  end.

(** ** Pages and prices *)

(** Every call on the page returns, and both elements are visible, with
    the texts [floor_text] and [best_text]. *)
Definition page_shows (p : page) (floor_text best_text : string) : Prop :=
  goto p = None ∧ load_state p = None
  ∧ floor_wait p = None ∧ best_wait p = None
  ∧ floor_element p = Visible floor_text
  ∧ best_element p = Visible best_text.

(** The price that [_parse_price_string] returns for [s]. *)
Definition price_of (s : string) : OS.price :=
  match OS._parse_price_string s with
  | Ok p => p
  | Raise _ => (zero, "UNKNOWN")
  end.

(** A price as [get_collection_prices] lets it through, with a currency
    that is one token. *)
Definition sound_price (p : OS.price) : Prop :=
  token p.2 ∧ p.2 ≠ "UNKNOWN" ∧ float_eq p.1 zero = false.

(** ** Counting events *)

Definition is_launch (ev : event) : bool :=
  match ev with EvLaunch => true | _ => false end.

Definition is_send (ev : event) : bool :=
  match ev with EvSendMessage _ _ | EvSendOther _ => true | _ => false end.

Definition is_write (ev : event) : bool :=
  match ev with EvWrite _ => true | _ => false end.

(** How many of [evs] satisfy [P]. *)
Definition count (P : event → bool) (evs : list event) : nat :=
  length (List.filter P evs).

(** How many browsers were launched among [evs]. *)
Definition launches (evs : list event) : nat := count is_launch evs.

(** The events of a call of [get_collection_prices]: launching, navigating
    and waiting for the retry delay. *)
Definition retry_event (ev : event) : bool :=
  match ev with
  | EvLaunch | EvGoto _ => true
  | EvSleep secs => secs =? OS.retry_delay
  | _ => false
  end.

(** The same without launching. *)
Definition quiet_event (ev : event) : bool :=
  match ev with
  | EvGoto _ => true
  | EvSleep secs => secs =? OS.retry_delay
  | _ => false
  end.

(** From [w] to [w'] no browser is launched. *)
Definition quiet_step (w w' : world) : Prop :=
  extends quiet_event w w' ∧ browser w' = browser w.

(** From [w] to [w'] exactly [k] browsers are launched, the next [k] of
    [w], and nothing else happens but navigation and retry delays. *)
Definition launched (k : nat) (w w' : world) : Prop :=
  (∃ evs, trace w' = evs ++ trace w ∧ launches evs = k
          ∧ forallb retry_event evs = true)
  ∧ ∀ n, browser w' n = browser w (k + n)%nat.

(** ** The chat library *)

(** Both credentials are set and not empty. *)
Definition has_credentials (env : gmap string string) : bool :=
  telegram.truthy_str (env !! "TELEGRAM_BOT_TOKEN")
  && telegram.truthy_str (env !! "TELEGRAM_CHANNEL_ID").

(** The channel that the environment names. *)
Definition channel_of (w : world) : string :=
  default "" (environ w !! "TELEGRAM_CHANNEL_ID").

(** The world [w] after [k] calls on the chat library that added the
    events [evs]. *)
Definition after_chat (k : nat) (evs : list event) (w : world) : world :=
  World (environ w) (memory_json w) (browser w) (λ n, chat w (k + n)%nat)
        (disk w) (evs ++ trace w) (monotonic w) (price_monitor_log w).

(** The text of a price update, with the collection in capitals and the
    two displays. *)
Definition update_text (capitals floor_display best_display : string) : string :=
  (telegram.bold capitals ++ " Update" ++ telegram.newline
   ++ telegram.newline ++ "Floor Price: " ++ floor_display ++ telegram.newline
   ++ "Best Offer: " ++ best_display)%string.

(** The same for a collection: a text of the model when the capitals of
    the collection are. *)
Definition update_message (collection floor_display best_display : string)
    : option string :=
  capitals ← upper collection;
  Some (update_text capitals floor_display best_display).

(** The string [s] starts with a token that [float] reads. *)
Definition readable (s : string) : Prop :=
  ∃ number rest x, split s = number :: rest ∧ float_of_str number = Ok x.

(** The string [s] is not empty and does not start with such a token. *)
Definition unreadable (s : string) : Prop := s ≠ "" ∧ ¬ readable s.

(** [format_change] can compare the new string with the old one. *)
Definition comparable (new_price old_price : string) : Prop :=
  old_price = "" ∨ new_price = old_price
  ∨ (readable new_price ∧ readable old_price).

(** The display of [new_price] can be built: there is no previous
    snapshot to compare with, or it has the field [key], with a string
    that [format_change] can compare. *)
Definition displayable (new_price : string)
    (old_prices : option (gmap string string)) (key : string) : Prop :=
  telegram.truthy_dict old_prices = false
  ∨ ∃ old_price, default ∅ old_prices !! key = Some old_price
                 ∧ comparable new_price old_price.

(** ** Passes of the loop *)

(** The monitor [self] once it knows [prices]. *)
Definition remembering (prices : gmap string string) (self : PM.t) : PM.t :=
  PM.Self (PM.collection_slug self) (PM.check_interval self) prices.

(** The end of a pass: the monitor is [self'], the world [w1], and the
    wait of [self] follows. *)
Definition finish (self self' : PM.t) (w1 : world)
    : result unit * (PM.t * world) :=
  ((time_sleep (PM.check_interval self) w1).1,
   (self', (time_sleep (PM.check_interval self) w1).2)).

(** The events between the fetch and the wait of a pass: nothing, a
    message, or a message and then the write of a snapshot.  The trace has
    the latest event first. *)
Inductive pass_events (channel : string)
    : option (gmap string string) → list event → Prop :=
  | pass_silent : pass_events channel None []
  | pass_noticed text : pass_events channel None [sent channel text]
  | pass_written text cur :
      pass_events channel (Some cur) [EvWrite cur; sent channel text].

(** What a pass from [(self, w)] to [(self', w')] may do: it fetches, then
    sends nothing, or a message, or a message and then writes, and waits.
    Without a write the monitor and the memory file are as before; with
    the write of [cur] either the monitor knows [cur] and the file holds
    it, or the write broke off and the file is no longer JSON. *)
Definition pass_effect (self : PM.t) (w : world) (self' : PM.t) (w' : world)
    : Prop :=
  ∃ before mid after written,
    environ w' = environ w
    ∧ trace w' = after ++ mid ++ before ++ trace w
    ∧ forallb fetch_event before = true
    ∧ forallb fetch_event after = true
    ∧ pass_events (channel_of w) written mid
    ∧ (∃ k, ∀ n, disk w' n = disk w (k + n)%nat)
    ∧ match written with
      | None => self' = self ∧ memory_json w' = memory_json w
      | Some cur =>
          (self' = remembering cur self ∧ memory_json w' = Holds cur
           ∧ disk w 0%nat = Written)
          ∨ (self' = self ∧ memory_json w' = NotJson
             ∧ ∃ e, disk w 0%nat = DumpFails e)
      end.

(** What a restart would load is what the monitor knows. *)
Definition in_sync (self : PM.t) (w : world) : Prop :=
  (PM._load_memory w).1 = Ok (PM.last_prices self).

(** No write breaks off after the file has been opened. *)
Definition disk_sound (w : world) : Prop := ∀ n e, disk w n ≠ DumpFails e.

(** The snapshot [d] lacks the field [key], or holds an unreadable string
    there. *)
Definition field_lost (d : gmap string string) (key : string) : Prop :=
  match d !! key with
  | None => True
  | Some old_price => unreadable old_price
  end.

(** ** More concrete worlds *)

(** A browser that fails to start, then shows a zero floor price, and
    from the third launch on shows both prices. *)
Definition recovering_sessions (i : nat) : session :=
  nth i [ LaunchFails PlaywrightError;
          Opened (page_showing "0 ETH" "0.41 WETH") ]
        (Opened (page_showing "0.44 ETH" "0.41 WETH")).

Definition recovering_world : world :=
  World ∅ Absent recovering_sessions (λ _, None) (λ _, Written) []
        (λ _, 0) None.

(** A world without a memory file, with credentials and prices. *)
Definition fresh_world : world :=
  world_showing credentials Absent "0.44 ETH" "0.41 WETH"
    (λ _, None) (λ _, Written).

(** A memory whose floor price is not a price, and a world that shows
    prices at every pass. *)
Definition lost_memory : gmap string string := snapshot "n/a" "0.41 WETH".

Definition lost_world : world :=
  world_showing credentials (Holds lost_memory) "0.44 ETH" "0.41 WETH"
    (λ _, None) (λ _, Written).




(* ===================================================================== *)
(** * Proofs                                                                *)
(* ===================================================================== *)

#[local] Arguments String.eqb : simpl never.
#[local] Arguments float_eq : simpl never.
#[local] Arguments float_gt : simpl never.
#[local] Arguments float_of_str : simpl never.
#[local] Arguments float_repr : simpl never.
#[local] Arguments int_of_str : simpl never.
#[local] Arguments split : simpl never.
#[local] Arguments strip : simpl never.
#[local] Arguments Py.join : simpl never.
#[local] Arguments Py.replace : simpl never.
#[local] Arguments upper : simpl never.
#[local] Arguments Nat.ltb : simpl never.
#[local] Arguments Z.ltb : simpl never.

(** Closes an equation between closed terms by conversion. *)
Ltac by_conversion :=
  lazymatch goal with
  | |- @eq ?A _ ?y => exact_no_check (@eq_refl A y)
  end.

(** ** The built-ins on examples *)

Example split_strip_examples :
  split "  0.44   ETH " = ["0.44"; "ETH"]
  ∧ split "" = []
  ∧ strip "  0.44 ETH  " = "0.44 ETH"
  ∧ join " " (split "0.44  ETH") = "0.44 ETH"
  ∧ replace "," "." "0,44" = "0.44"
  ∧ upper "hypio" = Some "HYPIO"
  ∧ upper (String "223" "stra") = Some "SSSTRA"
  ∧ upper (String "181" "m") = None
  ∧ upper (String "255" "") = None.
Proof. repeat split; reflexivity. Qed.

Example sleep_examples :
  sleep 0 300 = Ok ()
  ∧ sleep 0 (-5) = Raise ValueError
  ∧ sleep 0 (-9223372036) = Raise ValueError
  ∧ sleep 0 (-9223372037) = Raise OverflowError
  ∧ sleep 0 9223372037 = Raise OverflowError
  ∧ sleep 16000000000000 9223372036 = Raise OSError
  ∧ sleep 16000000000000 9223356037 = Raise OSError
  ∧ sleep 16000000000000 9223356036 = Ok ()
  ∧ sleep 16000900000000 9223356036 = Raise OSError.
Proof. repeat split; reflexivity. Qed.

Example float_of_str_examples :
  float_of_str "0.44" = Ok (S754_finite false 7926335344172073 (-54))
  ∧ float_of_str "1" = Ok (S754_finite false 4503599627370496 (-52))
  ∧ float_of_str " 1_000.5 " = Ok (S754_finite false 8800491068719104 (-43))
  ∧ float_of_str "0" = Ok zero
  ∧ float_of_str "-0.0" = Ok (S754_zero true)
  ∧ float_of_str "1e400" = Ok (S754_infinity false)
  ∧ float_of_str "NaN" = Ok S754_nan
  ∧ float_of_str "0,44" = Raise ValueError
  ∧ float_of_str "1__0" = Raise ValueError
  ∧ float_of_str "" = Raise ValueError.
Proof. repeat split; by vm_compute. Qed.

Example float_repr_examples :
  float_repr (S754_finite false 7926335344172073 (-54)) = "0.44"
  ∧ float_repr (S754_finite false 4503599627370496 (-52)) = "1.0"
  ∧ float_repr (S754_finite false 5404319552844596 (-54)) = "0.30000000000000004"
  ∧ float_repr (S754_finite false 4768371582031250 21) = "1e+22"
  ∧ float_repr (S754_finite false 5902958103587057 (-69)) = "1e-05"
  ∧ float_repr zero = "0.0"
  ∧ float_repr (S754_infinity true) = "-inf".
Proof. repeat split; by vm_compute. Qed.

Example int_of_str_examples :
  int_of_str "300" = Ok 300 ∧ int_of_str " -1_0 " = Ok (-10)
  ∧ int_of_str "5.0" = Raise ValueError ∧ int_of_str "" = Raise ValueError.
Proof. repeat split; by vm_compute. Qed.

(** ** The program on examples *)

Example parse_price_string_examples :
  OS._parse_price_string "0.44 ETH"
    = Ok (S754_finite false 7926335344172073 (-54), "ETH")
  ∧ OS._parse_price_string "0,41 WETH"
    = Ok (S754_finite false 7385903388887613 (-54), "WETH")
  ∧ OS._parse_price_string "N/A" = Ok (zero, "UNKNOWN")
  ∧ OS._parse_price_string "0.44" = Ok (zero, "UNKNOWN").
Proof. repeat split; by vm_compute. Qed.

(** A first run: no memory file, the page shows two prices, the message
    is delivered, the file is written. *)
Example first_run :
  let w := world_showing credentials Absent "0.44 ETH" "0,41 WETH"
             (λ _, None) (λ _, Written) in
  (main.main 1 w).1
    = (Ok (), Some (monitor_knowing (snapshot "0.44 ETH" "0.41 WETH")))
  ∧ memory_json (main.main 1 w).2 = Holds (snapshot "0.44 ETH" "0.41 WETH")
  ∧ trace (main.main 1 w).2
    = [ EvSleep 300;
        EvWrite (snapshot "0.44 ETH" "0.41 WETH");
        EvSendMessage "@channel"
          ("<b>HYPIO</b> Update" ++ telegram.newline ++ telegram.newline
           ++ "Floor Price: <b>0.44 ETH</b> +" ++ telegram.newline
           ++ "Best Offer: <b>0.41 WETH</b> +")%string;
        EvGoto hypio_url; EvLaunch ].
Proof. intros w. repeat split; by_conversion. Qed.

(** ** Rules for [preserves] *)

Section Preserves.
Variable R : relation world.
Context `{!PreOrder R}.

Lemma preserves_mret {A} (a : A) : preserves R (mret a).
Proof. intros w. reflexivity. Qed.

Lemma preserves_raise {A} (e : exn) : preserves R (@raise world A e).
Proof. intros w. reflexivity. Qed.

Lemma preserves_lift {A} (r : result A) : preserves R (lift r).
Proof. intros w. reflexivity. Qed.

Lemma preserves_bind {A B} (m : st world A) (k : A → st world B) :
  preserves R m → (∀ a, preserves R (k a)) → preserves R (m ≫= k).
Proof.
  intros Hm Hk w. unfold mbind, st_bind.
  specialize (Hm w). destruct (m w) as [[a|e] w1]; simpl in *.
  - etrans; [exact Hm | apply Hk].
  - exact Hm.
Qed.

Lemma preserves_try_except {A} (body : st world A) classes handler :
  preserves R body → (∀ e, preserves R (handler e)) →
  preserves R (st_try_except body classes handler).
Proof.
  intros Hb Hh w. unfold st_try_except.
  specialize (Hb w). destruct (body w) as [[a|e] w1]; simpl in *; [done|].
  destruct (caught_by e classes); [|done].
  etrans; [exact Hb | apply Hh].
Qed.

Lemma preserves_try_finally {A} (body : st world A) cleanup :
  preserves R body → preserves R cleanup →
  preserves R (st_try_finally body cleanup).
Proof.
  intros Hb Hc w. unfold st_try_finally.
  specialize (Hb w). destruct (body w) as [r w1]; simpl in *.
  specialize (Hc w1). destruct (cleanup w1) as [[[]|e] w2]; simpl in *;
    by etrans.
Qed.
End Preserves.

#[global] Instance extends_preorder only : PreOrder (extends only).
Proof.
  split.
  - intros w. repeat split. by exists [].
  - intros a b c (E1 & M1 & evs1 & T1 & F1) (E2 & M2 & evs2 & T2 & F2).
    repeat split; [congruence..|].
    exists (evs2 ++ evs1). split.
    + by rewrite T2, T1, app_assoc.
    + rewrite forallb_app. by rewrite F2, F1.
Qed.

#[global] Instance fetch_frame_preorder : PreOrder fetch_frame.
Proof.
  split.
  - intros w. by split.
  - intros a b c (X1 & C1 & D1) (X2 & C2 & D2).
    split; [by etrans|]. split; congruence.
Qed.

#[global] Instance notify_frame_preorder : PreOrder notify_frame.
Proof.
  split.
  - intros w. by split.
  - intros a b c (X1 & C1 & D1) (X2 & C2 & D2).
    split; [by etrans|]. split; congruence.
Qed.

Lemma extends_emit only ev w :
  only ev = true → extends only w (emit ev w).2.
Proof.
  intros H. repeat split. exists [ev]. split; [done|]. simpl. by rewrite H.
Qed.

Lemma fetch_emit ev : fetch_event ev = true → preserves fetch_frame (emit ev).
Proof. intros H w. split; [by apply extends_emit|done]. Qed.

Lemma notify_emit ev : notify_event ev = true → preserves notify_frame (emit ev).
Proof. intros H w. split; [by apply extends_emit|done]. Qed.

Lemma fetch_next_clock : preserves fetch_frame next_clock.
Proof. intros w. split; [|done]. repeat split. by exists []. Qed.

Lemma fetch_time_sleep secs : preserves fetch_frame (time_sleep secs).
Proof.
  unfold time_sleep. apply preserves_bind; [apply _|apply fetch_next_clock|].
  intros now. apply preserves_bind; [apply _|apply preserves_lift; apply _|].
  intros _. by apply fetch_emit.
Qed.

Lemma fetch_next_session : preserves fetch_frame next_session.
Proof.
  intros w. split; [|done]. repeat split. by exists [EvLaunch].
Qed.

Lemma notify_next_chat : preserves notify_frame next_chat.
Proof. intros w. split; [|done]. repeat split. by exists []. Qed.

Create HintDb frame discriminated.

#[global] Hint Resolve fetch_time_sleep fetch_next_session notify_next_chat : frame.

Ltac frame :=
  repeat first
    [ solve [auto 1 with frame nocore]
    | apply preserves_mret; apply _
    | apply preserves_raise; apply _
    | apply preserves_lift; apply _
    | apply fetch_emit; reflexivity
    | apply notify_emit; reflexivity
    | apply preserves_bind; [apply _ | | intros ?]
    | apply preserves_try_except; [apply _ | | intros ?]
    | apply preserves_try_finally; [apply _ | | ]
    | progress cbv zeta
    | case_match ].

(** ** Frames of [opensea.py] *)

Lemma fetch_scrape p slug :
  preserves fetch_frame (OS._scrape_price_data_with_timeout p slug).
Proof. unfold OS._scrape_price_data_with_timeout. frame. Qed.
#[global] Hint Resolve fetch_scrape : frame.

Lemma fetch_try_get_prices slug : preserves fetch_frame (OS._try_get_prices slug).
Proof. unfold OS._try_get_prices. frame. Qed.
#[global] Hint Resolve fetch_try_get_prices : frame.

Lemma fetch_attempt_body slug attempt :
  preserves fetch_frame (OS.attempt_body slug attempt).
Proof. unfold OS.attempt_body. frame. Qed.
#[global] Hint Resolve fetch_attempt_body : frame.

Lemma fetch_attempts slug todo : preserves fetch_frame (OS.attempts slug todo).
Proof.
  induction todo as [|attempt rest IH]; simpl.
  - frame.
  - apply preserves_bind; [apply _|apply fetch_attempt_body|].
    intros [| |ps]; [exact IH|exact IH|frame].
Qed.

Lemma fetch_get_collection_prices slug :
  preserves fetch_frame (OS.get_collection_prices slug).
Proof. apply fetch_attempts. Qed.
#[global] Hint Resolve fetch_get_collection_prices : frame.

(** ** Programs whose outcome does not depend on the world *)

Lemma oblivious_mret {A} (a : A) : oblivious (mret a).
Proof. done. Qed.

Lemma oblivious_raise {A} e : oblivious (@raise world A e).
Proof. done. Qed.

Lemma oblivious_lift {A} (r : result A) : oblivious (lift r).
Proof. done. Qed.

Lemma oblivious_emit ev : oblivious (emit ev).
Proof. done. Qed.

Lemma oblivious_bind {A B} (m : st world A) (k : A → st world B) :
  oblivious m → (∀ a, oblivious (k a)) → oblivious (m ≫= k).
Proof.
  intros Hm Hk w w'. unfold mbind, st_bind. specialize (Hm w w').
  destruct (m w) as [[a|e] w1], (m w') as [[a'|e'] w1']; simplify_eq/=;
    [apply Hk|done].
Qed.

Lemma oblivious_try_except {A} (body : st world A) classes handler :
  oblivious body → (∀ e, oblivious (handler e)) →
  oblivious (st_try_except body classes handler).
Proof.
  intros Hb Hh w w'. unfold st_try_except. specialize (Hb w w').
  destruct (body w) as [[a|e] w1], (body w') as [[a'|e'] w1']; simplify_eq/=;
    [done|].
  destruct (caught_by e' classes); [apply Hh|done].
Qed.

Lemma oblivious_try_finally {A} (body : st world A) cleanup :
  oblivious body → oblivious cleanup →
  oblivious (st_try_finally body cleanup).
Proof.
  intros Hb Hc w w'. unfold st_try_finally. specialize (Hb w w').
  destruct (body w) as [r w1], (body w') as [r' w1']; simplify_eq/=.
  specialize (Hc w1 w1').
  by destruct (cleanup w1) as [[[]|e] w2], (cleanup w1') as [[[]|e'] w2'];
    simplify_eq/=.
Qed.

Ltac obliv :=
  repeat first
    [ apply oblivious_mret | apply oblivious_raise | apply oblivious_lift
    | apply oblivious_emit
    | apply oblivious_bind; [ | intros ?]
    | apply oblivious_try_except; [ | intros ?]
    | apply oblivious_try_finally
    | progress cbv zeta
    | case_match ].

Lemma oblivious_scrape p slug :
  oblivious (OS._scrape_price_data_with_timeout p slug).
Proof. unfold OS._scrape_price_data_with_timeout. obliv. Qed.

(** ** One attempt, as a function of what the browser shows *)

Lemma try_get_prices_outcome slug w :
  (OS._try_get_prices slug w).1 = attempt_outcome slug (browser w 0%nat).
Proof.
  unfold attempt_outcome, OS._try_get_prices, mbind, st_bind, next_session.
  simpl. destruct (browser w 0%nat) as [e|p]; [done|].
  apply oblivious_try_finally; [|apply oblivious_mret].
  apply oblivious_bind; [apply oblivious_scrape|]. intros a. obliv.
Qed.

#[global] Instance same_browser_preorder : PreOrder same_browser.
Proof. split; [done|]. intros a b c H1 H2. unfold same_browser in *. congruence. Qed.

Lemma same_browser_emit ev : preserves same_browser (emit ev).
Proof. done. Qed.

Lemma same_browser_time_sleep secs : preserves same_browser (time_sleep secs).
Proof.
  unfold time_sleep. apply preserves_bind; [apply _|by intros w|].
  intros now. apply preserves_bind; [apply _|apply preserves_lift; apply _|].
  intros _. apply same_browser_emit.
Qed.
#[global] Hint Resolve same_browser_emit same_browser_time_sleep : frame.

Lemma same_browser_scrape p slug :
  preserves same_browser (OS._scrape_price_data_with_timeout p slug).
Proof. unfold OS._scrape_price_data_with_timeout. frame. Qed.
#[global] Hint Resolve same_browser_scrape : frame.

Lemma try_get_prices_browser slug w :
  browser (OS._try_get_prices slug w).2 = λ n, browser w (S n).
Proof.
  unfold OS._try_get_prices, mbind, st_bind, next_session. simpl.
  destruct (browser w 0%nat) as [e|p]; [done|].
  match goal with |- browser (?m ?w1).2 = _ =>
    assert (preserves same_browser m) as H by frame; exact (H w1) end.
Qed.

(** A sleep of at most [sleep_safe] seconds is accepted, whatever the
    clock reads. *)
Lemma sleep_accepted now secs :
  0 ≤ now ≤ uptime_max → 0 ≤ secs ≤ sleep_safe → sleep now secs = Ok ().
Proof.
  unfold sleep, time_max, uptime_max, sleep_safe. intros Hnow Hsecs.
  rewrite (proj2 (Z.ltb_ge _ _)) by lia. rewrite (proj2 (Z.ltb_ge _ _)) by lia.
  simpl orb. cbv iota.
  rewrite (proj2 (Z.ltb_ge _ _)) by lia. by rewrite (proj2 (Z.leb_gt _ _)) by lia.
Qed.

Lemma time_sleep_accepted secs w :
  0 ≤ secs ≤ sleep_safe →
  time_sleep secs w
  = (Ok (), World (environ w) (memory_json w) (browser w) (chat w) (disk w)
                  (EvSleep secs :: trace w) (λ n, monotonic w (S n))
                  (price_monitor_log w)).
Proof.
  intros Hsecs. unfold time_sleep, mbind, st_bind, next_clock, lift, emit.
  rewrite sleep_accepted; [done| |done]. unfold uptime_max. lia.
Qed.

Lemma time_sleep_retry_delay w :
  time_sleep OS.retry_delay w
  = (Ok (), World (environ w) (memory_json w) (browser w) (chat w) (disk w)
                  (EvSleep 2 :: trace w) (λ n, monotonic w (S n))
                  (price_monitor_log w)).
Proof. by apply time_sleep_accepted. Qed.

(** Where [try: a = m; k(a) except classes: h] ends, seen from where [m]
    ends. *)
Lemma preserves_after (R : relation world) `{!PreOrder R} {A B}
    (m : st world A) (k : A → st world B) classes h w :
  (∀ a, preserves R (k a)) → (∀ e, preserves R (h e)) →
  R (m w).2 (st_try_except (m ≫= k) classes h w).2.
Proof.
  intros Hk Hh. unfold st_try_except, mbind, st_bind.
  destruct (m w) as [[a|e] w1]; simpl.
  - specialize (Hk a w1). destruct (k a w1) as [[b|e] w2]; simpl in *; [done|].
    destruct (caught_by e classes); [|done].
    etrans; [exact Hk|apply Hh].
  - destruct (caught_by e classes); [apply Hh|reflexivity].
Qed.

Lemma attempt_body_browser slug attempt w :
  browser (OS.attempt_body slug attempt w).2 = λ n, browser w (S n).
Proof.
  rewrite <- try_get_prices_browser with (slug := slug).
  apply (preserves_after same_browser); intros ?; frame.
Qed.

(** ** The body of the retry loop *)

Lemma attempt_body_spec slug attempt w :
  ∃ f, (OS.attempt_body slug attempt w).1 = Ok f ∧
    match f with
    | Return ps =>
        attempt_outcome slug (browser w 0%nat) = Ok (Some ps)
        ∧ ¬ degenerate (OS.floor_price ps) ∧ ¬ degenerate (OS.best_offer ps)
    | _ => failed_attempt (attempt_outcome slug (browser w 0%nat))
    end.
Proof.
  rewrite <- try_get_prices_outcome.
  unfold OS.attempt_body, st_try_except, mbind, st_bind.
  destruct (OS._try_get_prices slug w) as [[[[[fp fc] [bp bc]]|]|e] w1]; simpl.
  - unfold degenerate; simpl.
    destruct (String.eqb_spec "UNKNOWN" fc) as [<-|Hfc]; simpl.
    { rewrite time_sleep_retry_delay. eexists; split; [done|]. simpl. auto. }
    destruct (String.eqb_spec "UNKNOWN" bc) as [<-|Hbc]; simpl.
    { rewrite time_sleep_retry_delay. eexists; split; [done|]. simpl. auto. }
    destruct (float_eq fp zero) eqn:Hfp; simpl.
    { rewrite time_sleep_retry_delay. eexists; split; [done|]. simpl. auto. }
    destruct (float_eq bp zero) eqn:Hbp; simpl.
    { rewrite time_sleep_retry_delay. eexists; split; [done|]. simpl. auto. }
    eexists; split; [done|]. simpl.
    split; [done|]. split; intros [?|?]; simpl in *; congruence.
  - by eexists.
  - destruct (_ <? _)%nat; rewrite ?time_sleep_retry_delay; by eexists.
Qed.

(** No pass of the loop raises. *)
Lemma attempts_spec slug todo w :
  ∃ r, (OS.attempts slug todo w).1 = Ok r ∧
    match r with
    | Some ps => ¬ degenerate (OS.floor_price ps) ∧ ¬ degenerate (OS.best_offer ps)
    | None => True
    end ∧
    ((∀ i, (i < length todo)%nat → failed_attempt (attempt_outcome slug (browser w i)))
     → r = None).
Proof.
  revert w. induction todo as [|attempt rest IH]; intros w; simpl.
  { by exists None. }
  unfold mbind, st_bind.
  destruct (attempt_body_spec slug attempt w) as (f & Hf & Hspec).
  pose proof (attempt_body_browser slug attempt w) as Hb.
  destruct (OS.attempt_body slug attempt w) as [r1 w1]; simpl in *; subst r1.
  assert (Hrest : ∃ r, (OS.attempts slug rest w1).1 = Ok r ∧
    match r with
    | Some ps => ¬ degenerate (OS.floor_price ps) ∧ ¬ degenerate (OS.best_offer ps)
    | None => True
    end ∧
    ((∀ i, (i < S (length rest))%nat →
        failed_attempt (attempt_outcome slug (browser w i))) → r = None)).
  { destruct (IH w1) as (r & Hr & Hnd & Hnone).
    exists r. split; [done|]. split; [done|]. intros Hall. apply Hnone.
    intros i Hi. rewrite Hb. apply Hall. lia. }
  destruct f as [| |ps].
  - exact Hrest.
  - exact Hrest.
  - exists (Some ps). split; [done|]. destruct Hspec as (Hout & Hnd).
    split; [done|]. intros Hall. specialize (Hall 0%nat ltac:(lia)).
    rewrite Hout in Hall. simpl in Hall. tauto.
Qed.

(** ** C2: the retry budget of [get_collection_prices] *)

(** C2.  When each of the five attempts of a call of
    [get_collection_prices] raises, gives nothing, or gives a pair with a
    degenerate price (currency [UNKNOWN] or magnitude zero), the call
    returns [None]; and a pair that the call does return has no degenerate
    price.  The attempts are described by what the browser shows to each. *)
Theorem get_collection_prices_retry_budget slug w :
  ((∀ i, (i < OS.max_retries)%nat →
      failed_attempt (attempt_outcome slug (browser w i))) →
   (OS.get_collection_prices slug w).1 = Ok None)
  ∧ (∀ ps, (OS.get_collection_prices slug w).1 = Ok (Some ps) →
       ¬ degenerate (OS.floor_price ps) ∧ ¬ degenerate (OS.best_offer ps)).
Proof.
  unfold OS.get_collection_prices.
  destruct (attempts_spec slug (seq 0 OS.max_retries) w) as (r & Hr & Hnd & Hnone).
  rewrite Hr. split.
  - intros Hall. f_equal. apply Hnone. by rewrite length_seq.
  - intros ps [= ->]. exact Hnd.
Qed.

Lemma get_collection_prices_retry_budget_witness :
  (∀ i, (i < OS.max_retries)%nat →
     failed_attempt (attempt_outcome "hypio" (browser failing_world i)))
  ∧ (OS.get_collection_prices "hypio" failing_world).1 = Ok None.
Proof.
  assert (H : ∀ i, (i < OS.max_retries)%nat →
     failed_attempt (attempt_outcome "hypio" (browser failing_world i))).
  { intros i Hi. unfold OS.max_retries in Hi.
    destruct i as [|[|[|[|[|i]]]]]; [vm_compute; auto..|lia]. }
  split; [exact H|].
  exact (proj1 (get_collection_prices_retry_budget "hypio" failing_world) H).
Defined.

(** ** C8: [_parse_price_string] is total *)

Lemma float_of_str_raises s e : float_of_str s = Raise e → e = ValueError.
Proof. unfold float_of_str. repeat case_match; congruence. Qed.

(** C8.  For every string the parser returns a price and raises nothing;
    for a malformed string the price is [(0.0, "UNKNOWN")]. *)
Theorem parse_price_string_total price_string :
  ∃ p, OS._parse_price_string price_string = Ok p
       ∧ (malformed price_string → p = (zero, "UNKNOWN")).
Proof.
  unfold OS._parse_price_string, try_except, malformed.
  destruct (String.eqb_spec price_string "N/A") as [->|Hna].
  { by eexists. }
  destruct (split price_string) as [|n [|c [|x rest]]] eqn:Hsplit; simpl;
    try by eexists.
  unfold mbind, result_bind; simpl.
  destruct (float_of_str (replace "," "." n)) as [x|e] eqn:Hfloat; simpl.
  - eexists; split; [done|]. intros [?|[?|(n' & c' & [= <- <-] & e & He)]];
      congruence.
  - rewrite (float_of_str_raises _ _ Hfloat). simpl. by eexists.
Qed.

Lemma parse_price_string_total_witness :
  malformed "1,234.5 ETH"
  ∧ OS._parse_price_string "1,234.5 ETH" = Ok (zero, "UNKNOWN").
Proof.
  assert (H : malformed "1,234.5 ETH").
  { right. right. exists "1,234.5", "ETH". split; [reflexivity|].
    exists ValueError. reflexivity. }
  split; [exact H|].
  destruct (parse_price_string_total "1,234.5 ETH") as (p & Hp & Hm).
  rewrite Hp. f_equal. exact (Hm H).
Defined.

(** A string of two tokens whose first is a number gives that number and
    the second token; formatting the pair puts a blank between them. *)
Lemma parse_price_string_well_formed price_string n c x :
  split price_string = [n; c] →
  float_of_str (replace "," "." n) = Ok x →
  OS._parse_price_string price_string = Ok (x, c)
  ∧ PM._format_price (x, c) = (float_repr x ++ " " ++ c)%string.
Proof.
  intros Hsplit Hfloat. split; [|done].
  unfold OS._parse_price_string, try_except.
  destruct (String.eqb_spec price_string "N/A") as [->|_]; [done|].
  rewrite Hsplit. simpl. unfold mbind, result_bind. by rewrite Hfloat.
Qed.

(** ** C3: the indicator of [format_change] *)

Lemma SFcompare_Eq_sym x y : SFcompare x y = Some Eq → SFcompare y x = Some Eq.
Proof.
  destruct x as [sx|sx| |sx mx ex], y as [sy|sy| |sy my ey]; simpl; try done;
    repeat match goal with b : bool |- _ => destruct b end; try done.
  - destruct (Z.compare_spec ex ey) as [->| |]; try done.
    rewrite Z.compare_refl. intros [= H]. f_equal.
    destruct (Pos.compare_cont Eq mx my) eqn:Hm; try done.
    apply (Pos.compare_eq mx my) in Hm as ->.
    change (CompOpp (my ?= my)%positive = Eq). by rewrite Pos.compare_refl.
  - destruct (Z.compare_spec ex ey) as [->| |]; try done.
    rewrite Z.compare_refl. intros [= H]. f_equal.
    apply (Pos.compare_eq mx my) in H as ->.
    apply Pos.compare_refl.
Qed.

(** Equal magnitudes: neither is greater. *)
Lemma float_eq_not_gt x y : float_eq x y = true → float_gt x y = false.
Proof.
  unfold float_eq, float_gt, SFeqb, SFltb. intros H.
  destruct (SFcompare x y) as [[]|] eqn:Hc; try done.
  by rewrite (SFcompare_Eq_sym _ _ Hc).
Qed.

(** C3.  The display of one field.  Without a previous snapshot, with an
    empty previous string or with the same string as before, it is the new
    string in bold.  Otherwise the magnitudes read from the two strings
    are compared: [" +"] follows the bold string when the new one is
    greater, [" -"] in every other case, equal magnitudes written
    differently included. *)
Theorem format_change_indicator (new_price : string) :
  (∀ old_prices key,
     telegram.truthy_dict old_prices = false →
     TS.display new_price old_prices key = Ok (telegram.bold new_price))
  ∧ (∀ d key old_price,
       d !! key = Some old_price →
       TS.display new_price (Some d) key = TS.format_change new_price old_price)
  ∧ (∀ old_price,
       old_price = "" ∨ old_price = new_price →
       TS.format_change new_price old_price = Ok (telegram.bold new_price))
  ∧ (∀ old_price new_val old_val,
       old_price ≠ "" → old_price ≠ new_price →
       leading_magnitude new_price new_val →
       leading_magnitude old_price old_val →
       TS.format_change new_price old_price
       = Ok (telegram.bold new_price
               ++ if float_gt new_val old_val then " +" else " -")%string
       ∧ (float_eq new_val old_val = true →
          TS.format_change new_price old_price
          = Ok (telegram.bold new_price ++ " -")%string)).
Proof.
  split; [|split; [|split]].
  - intros old_prices key H. unfold TS.display. by rewrite H.
  - intros d key old_price Hold. unfold TS.display, telegram.truthy_dict.
    rewrite bool_decide_eq_false_2; [|intros ->; by rewrite lookup_empty in Hold].
    simpl. unfold subscript. by rewrite Hold.
  - intros old_price [->| ->]; unfold TS.format_change; [done|].
    by rewrite String.eqb_refl, orb_true_r.
  - intros old_price new_val old_val Hne Hdiff (tn & rn & Hsn & Hn)
      (to & ro & Hso & Ho).
    assert (TS.format_change new_price old_price
            = Ok (telegram.bold new_price
                    ++ if float_gt new_val old_val then " +" else " -")%string)
      as Hfmt.
    { unfold TS.format_change.
      destruct old_price as [|c old']; [done|]. simpl is_empty.
      destruct (String.eqb_spec new_price (String c old')) as [Heq|_];
        [congruence|].
      simpl. rewrite Hsn, Hso. simpl. unfold mbind, result_bind.
      rewrite Hn, Ho. by destruct (float_gt new_val old_val). }
    split; [exact Hfmt|]. intros Heq.
    by rewrite Hfmt, (float_eq_not_gt _ _ Heq).
Qed.

Ltac magnitude_of s :=
  lazymatch eval vm_compute in (float_of_str s) with
  | Ok ?x => x
  end.

Lemma format_change_indicator_witness :
  TS.format_change "0.44 ETH" "0.40 ETH" = Ok "<b>0.44 ETH</b> +"
  ∧ TS.format_change "0.30 ETH" "0.40 ETH" = Ok "<b>0.30 ETH</b> -"
  ∧ TS.format_change "0.40 ETH" "0.400 ETH" = Ok "<b>0.40 ETH</b> -"
  ∧ TS.format_change "0.40 ETH" "0.40 ETH" = Ok "<b>0.40 ETH</b>"
  ∧ TS.display "0.44 ETH" None "floor_price" = Ok "<b>0.44 ETH</b>".
Proof.
  assert (L : ∀ s tok x, split s = [tok; "ETH"] → float_of_str tok = Ok x →
                leading_magnitude s x).
  { intros s tok x Hs Hx. by exists tok, ["ETH"]. }
  pose proof (format_change_indicator "0.44 ETH") as (Hnone & _ & _ & Hup).
  pose proof (format_change_indicator "0.30 ETH") as (_ & _ & _ & Hdown).
  pose proof (format_change_indicator "0.40 ETH") as (_ & _ & Hsame & Htie).
  split; [|split; [|split; [|split]]].
  - let a := magnitude_of "0.44" in
    let b := magnitude_of "0.40" in
    exact (proj1 (Hup "0.40 ETH" a b ltac:(done) ltac:(done)
                    (L "0.44 ETH" "0.44" a eq_refl eq_refl)
                    (L "0.40 ETH" "0.40" b eq_refl eq_refl))).
  - let a := magnitude_of "0.30" in
    let b := magnitude_of "0.40" in
    exact (proj1 (Hdown "0.40 ETH" a b ltac:(done) ltac:(done)
                    (L "0.30 ETH" "0.30" a eq_refl eq_refl)
                    (L "0.40 ETH" "0.40" b eq_refl eq_refl))).
  - let a := magnitude_of "0.40" in
    let b := magnitude_of "0.400" in
    exact (proj2 (Htie "0.400 ETH" a b ltac:(done) ltac:(done)
                    (L "0.40 ETH" "0.40" a eq_refl eq_refl)
                    (L "0.400 ETH" "0.400" b eq_refl eq_refl))
                 eq_refl).
  - apply Hsame. by right.
  - by apply Hnone.
Defined.

(** ** Frames of [telegram.py] *)

Lemma notify_emit_sent chat_id text :
  preserves notify_frame (emit (sent chat_id text)).
Proof. apply notify_emit. by destruct text. Qed.
#[global] Hint Resolve notify_emit_sent : frame.

Lemma notify_init : preserves notify_frame TS.__init__.
Proof.
  intros w. unfold TS.__init__. destruct (_ || _); [reflexivity|].
  match goal with |- notify_frame w (?m w).2 =>
    assert (preserves notify_frame m) as Hm by frame; exact (Hm w) end.
Qed.
#[global] Hint Resolve notify_init : frame.

Lemma notify_close self : preserves notify_frame (TS.close self).
Proof. unfold TS.close. frame. Qed.
#[global] Hint Resolve notify_close : frame.

Lemma notify_send_message self text :
  preserves notify_frame (TS.send_message self text).
Proof. unfold TS.send_message. frame. Qed.
#[global] Hint Resolve notify_send_message : frame.

Lemma notify_method_send_price_update self collection floor best old :
  preserves notify_frame (TS.send_price_update self collection floor best old).
Proof. unfold TS.send_price_update. frame. Qed.
#[global] Hint Resolve notify_method_send_price_update : frame.

Lemma notify_send_price_update collection floor best old :
  preserves notify_frame (telegram.send_price_update collection floor best old).
Proof.
  unfold telegram.send_price_update, telegram._send_price_update_async. frame.
Qed.
#[global] Hint Resolve notify_send_price_update : frame.

(** [close] swallows whatever closing the session raises. *)
Lemma close_returns self w : (TS.close self w).1 = Ok ().
Proof.
  unfold TS.close, st_try_except, mbind, st_bind, next_chat, lift. simpl.
  by destruct (chat w 0%nat).
Qed.

(** ** C10: [send_price_update] can raise *)

Lemma format_change_raises new_price old_price :
  unreadable_old new_price old_price →
  ∃ e, TS.format_change new_price old_price = Raise e.
Proof.
  intros (Hne & Hdiff & token & rest & Hsplit & Hfloat).
  unfold TS.format_change.
  destruct old_price as [|c old']; [done|]. simpl is_empty.
  destruct (String.eqb_spec new_price (String c old')) as [Heq|_]; [congruence|].
  simpl. unfold mbind, result_bind.
  destruct (getitem (split new_price) 0) as [new_token|e]; [|by eexists].
  destruct (float_of_str new_token) as [new_val|e]; [|by eexists].
  rewrite Hsplit. simpl. rewrite Hfloat. by eexists.
Qed.

Lemma display_raises new_price d key old_price :
  d !! key = Some old_price → unreadable_old new_price old_price →
  ∃ e, TS.display new_price (Some d) key = Raise e.
Proof.
  intros Hold Hbad. unfold TS.display, telegram.truthy_dict.
  rewrite bool_decide_eq_false_2; [|intros ->; by rewrite lookup_empty in Hold].
  simpl. unfold subscript. rewrite Hold. simpl.
  by apply format_change_raises.
Qed.

(** C10.  When the old string of either field is not empty, differs from
    the new string and starts with a token that is not a number,
    [send_price_update] raises instead of returning a boolean.  Such a
    string comes from the memory file: [_load_memory] returns whatever
    strings a well-formed file holds. *)
Theorem send_price_update_raises collection floor_price best_offer
    (d : gmap string string) (w : world) :
  ((∃ old, d !! "floor_price" = Some old ∧ unreadable_old floor_price old)
   ∨ (∃ old, d !! "best_offer" = Some old ∧ unreadable_old best_offer old) →
   ∃ e, (telegram.send_price_update collection floor_price best_offer (Some d) w).1
        = Raise e)
  ∧ (memory_json w = Holds d → PM._load_memory w = (Ok d, w)).
Proof.
  split.
  - intros Hbad.
    unfold telegram.send_price_update, telegram._send_price_update_async.
    unfold mbind at 1, st_bind.
    destruct (TS.__init__ w) as [[service|e] w1]; [|by eexists].
    unfold st_try_finally.
    assert (∃ e, TS.send_price_update service collection floor_price best_offer
                   (Some d) w1 = (Raise e, w1)) as [e ->].
    { unfold TS.send_price_update, mbind, st_bind, lift.
      destruct Hbad as [(old & Hold & Hbad)|(old & Hold & Hbad)].
      - destruct (display_raises _ _ _ _ Hold Hbad) as [e ->]. by eexists.
      - destruct (TS.display floor_price (Some d) "floor_price"); [|by eexists].
        destruct (display_raises _ _ _ _ Hold Hbad) as [e ->]. by eexists. }
    pose proof (close_returns service w1) as Hclose.
    destruct (TS.close service w1) as [[[]|e'] w2]; [|done]. by eexists.
  - intros Hfile. unfold PM._load_memory, st_try_except. by rewrite Hfile.
Qed.

Lemma send_price_update_raises_witness :
  (∃ old, odd_memory !! "floor_price" = Some old ∧ unreadable_old "0.44 ETH" old)
  ∧ (∃ e, (telegram.send_price_update "hypio" "0.44 ETH" "0.41 WETH"
             (Some odd_memory) odd_world).1 = Raise e)
  ∧ PM._load_memory odd_world = (Ok odd_memory, odd_world).
Proof.
  assert (H : ∃ old, odd_memory !! "floor_price" = Some old
                     ∧ unreadable_old "0.44 ETH" old).
  { exists "n/a". split; [reflexivity|]. split; [done|]. split; [done|].
    exists "n/a", []. split; reflexivity. }
  pose proof (send_price_update_raises "hypio" "0.44 ETH" "0.41 WETH"
                odd_memory odd_world) as [Hraise Hload].
  split; [exact H|]. split; [exact (Hraise (or_introl H))|].
  exact (Hload eq_refl).
Defined.

(** ** One pass of the monitor loop *)

(** [check_prices] never raises, leaves the monitor as it is, and what it
    returns has exactly the two fields. *)
Lemma check_prices_spec self w :
  ∃ x w0, PM.check_prices (self, w) = (Ok x, (self, w0)) ∧ fetch_frame w w0
    ∧ ∀ cur, x = Some cur →
        ∃ f b, cur = {[ "floor_price" := f; "best_offer" := b ]}.
Proof.
  unfold PM.check_prices, st_try_except, mbind, st_bind, mret, st_ret,
    PM.get_self, PM.on_world.
  pose proof (fetch_get_collection_prices (PM.collection_slug self) w) as Hf.
  destruct (OS.get_collection_prices (PM.collection_slug self) w)
    as [[[ps|]|e] w0]; simpl in *.
  - eexists _, w0. split; [reflexivity|]. split; [done|].
    intros cur [= <-]. eexists _, _. reflexivity.
  - exists None, w0. split; [done|]. split; [done|]. by intros cur [=].
  - exists None, w0. split; [done|]. split; [done|]. by intros cur [=].
Qed.

(** [_prices_changed] only reads. *)
Lemma prices_changed_state cur s : (PM._prices_changed cur s).2 = s.
Proof.
  destruct s as [self w].
  unfold PM._prices_changed, mbind, st_bind, mret, st_ret, PM.get_self, lift.
  simpl.
  repeat (case_match; simplify_eq/=; try done).
Qed.

(** The wait at the end of a pass. *)
Lemma final_sleep self w :
  ∃ r w', PM.on_world (time_sleep (PM.check_interval self)) (self, w) = (r, (self, w'))
          ∧ fetch_frame w w'.
Proof.
  unfold PM.on_world.
  pose proof (fetch_time_sleep (PM.check_interval self) w) as Hf.
  destruct (time_sleep (PM.check_interval self) w) as [r w']. by exists r, w'.
Qed.

(** How a pass ends once its guarded statements have run. *)
Lemma iteration_after_body self w (r1 : result (flow unit)) self1 w1 :
  PM.iteration_body (self, w) = (r1, (self1, w1)) →
  ∃ r w', PM.iteration (self, w) = (r, (self1, w')) ∧ fetch_frame w1 w'.
Proof.
  intros Hbody. unfold PM.iteration, st_try_except. unfold mbind at 1, st_bind.
  rewrite Hbody.
  destruct r1 as [[| |[]]|e]; simpl;
    try (unfold mbind, st_bind, PM.get_self; apply final_sleep).
  by exists (Ok ()), w1.
Qed.

Lemma truthy_dict_lookup (d : gmap string string) key v :
  d !! key = Some v → telegram.truthy_dict (Some d) = true.
Proof.
  intros H. unfold telegram.truthy_dict.
  rewrite bool_decide_eq_false_2; [done|]. intros ->. by rewrite lookup_empty in H.
Qed.

(** The guarded statements, up to the test of [_prices_changed]. *)
Lemma iteration_body_fetched self w cur w0 key v :
  PM.check_prices (self, w) = (Ok (Some cur), (self, w0)) →
  cur !! key = Some v →
  PM.iteration_body (self, w)
  = match (PM._prices_changed cur (self, w0)).1 with
    | Ok true =>
        (floor_price ← lift (subscript cur "floor_price");
         best_offer ← lift (subscript cur "best_offer");
         sent ← PM.on_world
           (telegram.send_price_update (PM.collection_slug self) floor_price
              best_offer (Some (PM.last_prices self)));
         if (sent : bool) then
           _ ← PM.on_world (PM._save_memory cur);
           _ ← PM.set_last_prices cur;
           mret Next
         else mret Next) (self, w0)
    | Ok false => (Ok Next, (self, w0))
    | Raise e => (Raise e, (self, w0))
    end.
Proof.
  intros Hcheck Hkey. unfold PM.iteration_body. unfold mbind at 1, st_bind.
  rewrite Hcheck, (truthy_dict_lookup _ _ _ Hkey). simpl.
  unfold mbind at 1, st_bind.
  pose proof (prices_changed_state cur (self, w0)) as Hs.
  destruct (PM._prices_changed cur (self, w0)) as [[[|]|e] s]; simpl in *;
    by subst s.
Qed.

(** ** C6: a pass without a change *)

(** C6.  In a pass of the loop where the two fields of the fetched
    snapshot are the strings of last-known, the monitor is left as it is,
    and the world moves by a fetch only: the memory file is untouched, no
    call is made on the chat library, no write is attempted, and the trace
    grows by browser and sleep events alone. *)
Theorem unchanged_prices_cycle self w cur floor best :
  (PM.check_prices (self, w)).1 = Ok (Some cur) →
  cur !! "floor_price" = Some floor →
  PM.last_prices self !! "floor_price" = Some floor →
  cur !! "best_offer" = Some best →
  PM.last_prices self !! "best_offer" = Some best →
  ∃ r w', PM.iteration (self, w) = (r, (self, w')) ∧ fetch_frame w w'.
Proof.
  intros Hfetch Hcf Hlf Hcb Hlb.
  destruct (check_prices_spec self w) as (x & w0 & Hcheck & Hframe & _).
  rewrite Hcheck in Hfetch. simpl in Hfetch. injection Hfetch as ->.
  pose proof (iteration_body_fetched _ _ _ _ _ _ Hcheck Hcf) as Hbody.
  assert (PM._prices_changed cur (self, w0) = (Ok false, (self, w0))) as Hsame.
  { unfold PM._prices_changed, mbind, st_bind, mret, st_ret, PM.get_self, lift,
      subscript. simpl. rewrite Hcf, Hlf, Hcb, Hlb. simpl.
    by rewrite !String.eqb_refl. }
  rewrite Hsame in Hbody. simpl in Hbody.
  destruct (iteration_after_body _ _ _ _ _ Hbody) as (r & w' & Hit & Hsleep).
  exists r, w'. split; [done|]. by etrans.
Qed.

Lemma unchanged_prices_cycle_witness :
  let self := monitor_knowing (snapshot "0.44 ETH" "0.41 WETH") in
  let w := world_showing credentials (Holds (snapshot "0.44 ETH" "0.41 WETH"))
             "0.44 ETH" "0.41 WETH" (λ _, None) (λ _, Written) in
  (PM.check_prices (self, w)).1 = Ok (Some (snapshot "0.44 ETH" "0.41 WETH"))
  ∧ ∃ r w', PM.iteration (self, w) = (r, (self, w')) ∧ fetch_frame w w'.
Proof.
  intros self w.
  assert (H : (PM.check_prices (self, w)).1
              = Ok (Some (snapshot "0.44 ETH" "0.41 WETH"))) by by_conversion.
  split; [exact H|].
  apply (unchanged_prices_cycle self w _ "0.44 ETH" "0.41 WETH" H);
    by_conversion.
Defined.

(** ** C4: a pass whose notification fails *)

(** C4.  In a pass of the loop where the fetched snapshot differs from
    last-known and [send_price_update] returns [False], the monitor, hence
    its last-known snapshot, and the memory file are left as they were, and
    no write is attempted. *)
Theorem failed_notification_cycle self w cur w0 floor best w1 :
  PM.check_prices (self, w) = (Ok (Some cur), (self, w0)) →
  (PM._prices_changed cur (self, w0)).1 = Ok true →
  cur !! "floor_price" = Some floor →
  cur !! "best_offer" = Some best →
  telegram.send_price_update (PM.collection_slug self) floor best
    (Some (PM.last_prices self)) w0 = (Ok false, w1) →
  ∃ r w', PM.iteration (self, w) = (r, (self, w'))
          ∧ memory_json w' = memory_json w ∧ disk w' = disk w.
Proof.
  intros Hcheck Hchanged Hcf Hcb Hsend.
  pose proof (iteration_body_fetched _ _ _ _ _ _ Hcheck Hcf) as Hbody.
  rewrite Hchanged in Hbody.
  unfold mbind, st_bind, lift, subscript, PM.on_world in Hbody.
  rewrite Hcf, Hcb, Hsend in Hbody. simpl in Hbody.
  destruct (iteration_after_body _ _ _ _ _ Hbody) as (r & w' & Hit & Hsleep).
  exists r, w'. split; [done|].
  destruct (check_prices_spec self w) as (x & w0' & Hcheck' & Hfetch & _).
  rewrite Hcheck in Hcheck'. simplify_eq.
  pose proof (notify_send_price_update (PM.collection_slug self) floor best
                (Some (PM.last_prices self)) w0') as Hnotify.
  rewrite Hsend in Hnotify. simpl in Hnotify.
  destruct Hfetch as ((_ & M0 & _) & _ & D0).
  destruct Hnotify as ((_ & M1 & _) & _ & D1).
  destruct Hsleep as ((_ & M2 & _) & _ & D2).
  split; congruence.
Qed.

Lemma failed_notification_cycle_witness :
  let self := monitor_knowing (snapshot "0.40 ETH" "0.41 WETH") in
  let w := world_showing credentials (Holds (snapshot "0.40 ETH" "0.41 WETH"))
             "0.44 ETH" "0.41 WETH" (chat_failing_at 1 TelegramAPIError)
             (λ _, Written) in
  let w0 := (PM.check_prices (self, w)).2.2 in
  (telegram.send_price_update "hypio" "0.44 ETH" "0.41 WETH"
     (Some (PM.last_prices self)) w0).1 = Ok false
  ∧ ∃ r w', PM.iteration (self, w) = (r, (self, w'))
            ∧ memory_json w' = memory_json w ∧ disk w' = disk w.
Proof.
  intros self w w0. split; [by_conversion|].
  apply (failed_notification_cycle self w (snapshot "0.44 ETH" "0.41 WETH") w0
           "0.44 ETH" "0.41 WETH"
           (telegram.send_price_update "hypio" "0.44 ETH" "0.41 WETH"
              (Some (PM.last_prices self)) w0).2);
    by_conversion.
Defined.

(** ** C5: a pass whose notification succeeds *)

(** C5 as amended.  In a pass of the loop where the fetched snapshot
    differs from last-known, [send_price_update] returns [True] and the
    write of the memory file succeeds, the file afterwards holds the new
    snapshot, which consists of the two fields, and the new snapshot is
    the last-known one of the monitor. *)
Theorem successful_notification_cycle self w cur w0 floor best w1 :
  PM.check_prices (self, w) = (Ok (Some cur), (self, w0)) →
  (PM._prices_changed cur (self, w0)).1 = Ok true →
  cur !! "floor_price" = Some floor →
  cur !! "best_offer" = Some best →
  telegram.send_price_update (PM.collection_slug self) floor best
    (Some (PM.last_prices self)) w0 = (Ok true, w1) →
  disk w1 0%nat = Written →
  ∃ r w',
    PM.iteration (self, w)
    = (r, (PM.Self (PM.collection_slug self) (PM.check_interval self) cur, w'))
    ∧ memory_json w' = Holds cur
    ∧ cur = {[ "floor_price" := floor; "best_offer" := best ]}.
Proof.
  intros Hcheck Hchanged Hcf Hcb Hsend Hdisk.
  pose proof (iteration_body_fetched _ _ _ _ _ _ Hcheck Hcf) as Hbody.
  rewrite Hchanged in Hbody.
  unfold mbind, st_bind, lift, subscript, PM.on_world in Hbody.
  rewrite Hcf, Hcb, Hsend in Hbody. simpl in Hbody.
  unfold PM._save_memory, mbind, st_bind, next_write in Hbody. simpl in Hbody.
  rewrite Hdisk in Hbody. simpl in Hbody.
  destruct (iteration_after_body _ _ _ _ _ Hbody) as (r & w' & Hit & Hsleep).
  exists r, w'. split; [done|].
  destruct Hsleep as ((_ & M2 & _) & _ & _). split; [done|].
  destruct (check_prices_spec self w) as (x & w0' & Hcheck' & _ & Hshape).
  rewrite Hcheck in Hcheck'. simplify_eq.
  destruct (Hshape cur eq_refl) as (f & b & ->).
  rewrite lookup_insert_eq in Hcf.
  rewrite lookup_insert_ne, lookup_singleton_eq in Hcb by done.
  by simplify_eq.
Qed.

Lemma successful_notification_cycle_witness :
  let self := monitor_knowing (snapshot "0 ETH" "0 ETH") in
  let w := world_showing credentials Absent "0.44 ETH" "0.41 WETH"
             (λ _, None) (λ _, Written) in
  ∃ r w',
    PM.iteration (self, w)
    = (r, (monitor_knowing (snapshot "0.44 ETH" "0.41 WETH"), w'))
    ∧ memory_json w' = Holds (snapshot "0.44 ETH" "0.41 WETH")
    ∧ snapshot "0.44 ETH" "0.41 WETH"
      = {[ "floor_price" := "0.44 ETH"; "best_offer" := "0.41 WETH" ]}.
Proof.
  intros self w.
  pose (w0 := (PM.check_prices (self, w)).2.2).
  apply (successful_notification_cycle self w (snapshot "0.44 ETH" "0.41 WETH")
           w0 "0.44 ETH" "0.41 WETH"
           (telegram.send_price_update "hypio" "0.44 ETH" "0.41 WETH"
              (Some (PM.last_prices self)) w0).2);
    by_conversion.
Defined.

(** C5 as stated fails when the write fails: the snapshot differs, the
    notification is delivered, the file cannot be opened for writing; the
    file is still absent and last-known is still the old snapshot. *)
Lemma successful_notification_cycle_counterexample :
  let self := monitor_knowing (snapshot "0 ETH" "0 ETH") in
  let w := world_showing credentials Absent "0.44 ETH" "0.41 WETH"
             (λ _, None) (λ _, OpenFails PermissionError) in
  let w0 := (PM.check_prices (self, w)).2.2 in
  (PM.check_prices (self, w)).1 = Ok (Some (snapshot "0.44 ETH" "0.41 WETH"))
  ∧ (PM._prices_changed (snapshot "0.44 ETH" "0.41 WETH") (self, w0)).1 = Ok true
  ∧ (telegram.send_price_update "hypio" "0.44 ETH" "0.41 WETH"
       (Some (PM.last_prices self)) w0).1 = Ok true
  ∧ memory_json (PM.iteration (self, w)).2.2 = Absent
  ∧ (PM.iteration (self, w)).2.1 = self.
Proof. intros self w w0. repeat split; by_conversion. Qed.

(** ** C7: loading the memory file *)

(** C7 as amended.  [_load_memory] gives the default snapshot when the
    file is missing or is not JSON, and gives the object of a well-formed
    file as it is, whatever its fields; an error of another class, raised
    when the file is opened or read, reaches the caller. *)
Theorem load_memory_cases w :
  PM._load_memory w
  = (match memory_json w with
     | Absent | NotJson => Ok (snapshot "0 ETH" "0 ETH")
     | Holds d => Ok d
     | Unreadable e =>
         if caught_by e [FileNotFoundError; JSONDecodeError]
         then Ok (snapshot "0 ETH" "0 ETH") else Raise e
     end, w).
Proof.
  unfold PM._load_memory, st_try_except.
  destruct (memory_json w) as [|e| |d]; try done. by destruct e.
Qed.

(** C7 as stated fails: a file that cannot be opened, or whose bytes are
    not text, makes [_load_memory], and with it the construction of the
    monitor, raise; and the object of a well-formed file is returned even
    when it lacks the two fields. *)
Lemma load_memory_counterexample :
  (PM._load_memory (world_with_file (Unreadable PermissionError))).1
    = Raise PermissionError
  ∧ (PM._load_memory (world_with_file (Unreadable UnicodeDecodeError))).1
    = Raise UnicodeDecodeError
  ∧ (PM.__init__ (world_with_file (Unreadable PermissionError))).1
    = Raise PermissionError
  ∧ (PM._load_memory (world_with_file (Holds ∅))).1 = Ok ∅.
Proof. repeat split; by_conversion. Qed.

(** ** C1: missing credentials *)




(* ===================================================================== *)
(** * Further properties of the three files                                *)
(* ===================================================================== *)

(** ** Splitting and joining *)

Lemma string_app_cons c (s t : string) :
  (String c s ++ t)%string = String c (s ++ t)%string.
Proof. reflexivity. Qed.

Lemma string_app_nil_l (s : string) : ("" ++ s)%string = s.
Proof. reflexivity. Qed.

Lemma string_app_nil_r (s : string) : (s ++ "")%string = s.
Proof. induction s as [|c s IH]; [done|]. by rewrite string_app_cons, IH. Qed.

Lemma string_app_assoc (s t u : string) :
  ((s ++ t) ++ u)%string = (s ++ (t ++ u))%string.
Proof. induction s as [|c s IH]; [done|]. by rewrite !string_app_cons, IH. Qed.

Lemma no_space_app s t :
  no_space (s ++ t)%string = no_space s && no_space t.
Proof.
  induction s as [|c s IH]; [done|]. rewrite string_app_cons. simpl.
  rewrite IH. by rewrite andb_assoc.
Qed.

(** Reading a run of non-space characters only extends the current run. *)
Lemma split_from_app_no_space t rest cur :
  no_space t = true →
  split_from (t ++ rest)%string cur = split_from rest (cur ++ t)%string.
Proof.
  revert cur. induction t as [|c t IH]; intros cur Ht; simpl in *.
  - by rewrite string_app_nil_l, string_app_nil_r.
  - apply andb_prop in Ht as [Hc Ht]. apply negb_true_iff in Hc.
    rewrite ?string_app_cons. simpl. rewrite Hc.
    rewrite IH by done. by rewrite string_app_assoc.
Qed.

Lemma is_empty_false s : s ≠ "" → is_empty s = false.
Proof. by destruct s. Qed.

(** What [split] returns are tokens. *)
Lemma split_from_tokens s cur :
  no_space cur = true → Forall token (split_from s cur).
Proof.
  revert cur. induction s as [|c s IH]; intros cur Hcur; simpl.
  - destruct cur; simpl; [constructor|]. by repeat constructor.
  - destruct (isspace c) eqn:Hc.
    + destruct cur as [|c' cur']; simpl; [by apply IH|].
      constructor; [by split|by apply IH].
    + apply IH. rewrite no_space_app, Hcur. simpl. by rewrite Hc.
Qed.

Lemma split_tokens s : Forall token (split s).
Proof. by apply split_from_tokens. Qed.

(** Joining tokens with a blank and splitting again gives the tokens. *)
Lemma split_join l : Forall token l → split (join " " l) = l.
Proof.
  unfold split. induction 1 as [|x l [Hx Hne] Hl IH]; [done|].
  destruct l as [|y l'].
  - pose proof (split_from_app_no_space x "" "" Hx) as H.
    rewrite string_app_nil_r, string_app_nil_l in H.
    change (join " " [x]) with x. rewrite H. simpl.
    by rewrite is_empty_false.
  - change (join " " (x :: y :: l')) with (x ++ " " ++ join " " (y :: l'))%string.
    rewrite split_from_app_no_space, string_app_nil_l by done.
    change (" " ++ join " " (y :: l'))%string
      with (String " " (join " " (y :: l'))).
    simpl split_from. rewrite is_empty_false by done. by rewrite IH.
Qed.

Lemma lstrip_no_space_head c s :
  isspace c = false → lstrip_with isspace (String c s) = String c s.
Proof. intros H. simpl. by rewrite H. Qed.

Lemma rstrip_no_space t : no_space t = true → rstrip_with isspace t = t.
Proof.
  induction t as [|c t IH]; simpl; [done|]. intros [Hc Ht]%andb_prop.
  apply negb_true_iff in Hc. rewrite IH, Hc by done. by rewrite andb_false_r.
Qed.

Lemma rstrip_app p s :
  rstrip_with isspace s = s → s ≠ "" →
  rstrip_with isspace (p ++ s)%string = (p ++ s)%string.
Proof.
  intros Hs Hne. induction p as [|c p IH]; [done|].
  rewrite string_app_cons. simpl. rewrite IH.
  destruct (p ++ s)%string eqn:Hps; [|done].
  destruct p; [done|discriminate].
Qed.

Lemma join_tokens_nonempty x l : x ≠ "" → join " " (x :: l) ≠ "".
Proof. intros Hx. destruct l; [done|]. by destruct x. Qed.

Lemma rstrip_join l : Forall token l → rstrip_with isspace (join " " l) = join " " l.
Proof.
  induction 1 as [|x l [Hx Hne] Hl IH]; [done|].
  destruct l as [|y l'].
  - simpl. by apply rstrip_no_space.
  - change (join " " (x :: y :: l')) with (x ++ (" " ++ join " " (y :: l')))%string.
    rewrite <- string_app_assoc. apply rstrip_app; [done|].
    inversion Hl as [|? ? [_ Hy] _]; subst. by apply join_tokens_nonempty.
Qed.

Lemma strip_join l : Forall token l → strip (join " " l) = join " " l.
Proof.
  intros Hl. unfold strip.
  destruct l as [|x l']; [done|].
  inversion Hl as [|? ? [Hx Hne] _]; subst.
  destruct x as [|c x']; [done|]. simpl in Hx.
  apply andb_prop in Hx as [Hc _]. apply negb_true_iff in Hc.
  assert (join " " (String c x' :: l') = String c (x' ++ match l' with [] => "" | _ => " " ++ join " " l' end)%string) as Hj.
  { destruct l'; [by rewrite string_app_nil_r|done]. }
  rewrite Hj at 1. rewrite lstrip_no_space_head by done. rewrite <- Hj.
  by apply rstrip_join.
Qed.

(** ** The text of an element and its price *)

Lemma split_normalised t : split (join " " (split t)) = split t.
Proof. apply split_join, split_tokens. Qed.

Lemma strip_get_element_text el :
  strip (OS._get_element_text el) = OS._get_element_text el.
Proof.
  destruct el as [t| |e]; simpl; [|done..]. apply strip_join, split_tokens.
Qed.

(** X1.  What [_get_element_text] returns is already trimmed and
    single-spaced: [strip], which the scrape applies to it, changes
    nothing, nor would a second normalisation; and for a visible element
    its tokens are those of the element's text. *)
Theorem get_element_text_normalised (el : element) (text : string) :
  strip (OS._get_element_text el) = OS._get_element_text el
  ∧ join " " (split (OS._get_element_text el)) = OS._get_element_text el
  ∧ split (OS._get_element_text (Visible text)) = split text.
Proof.
  split; [apply strip_get_element_text|]. split; [|apply split_normalised].
  destruct el as [t| |e]; simpl; [|done..]. by rewrite split_normalised.
Qed.

(** The parser looks at the tokens of its argument only. *)
Lemma parse_price_string_tokens s s' :
  split s = split s' → OS._parse_price_string s = OS._parse_price_string s'.
Proof.
  intros Heq.
  assert (Hna : ∀ t, t = "N/A" → length (split t) ≠ 2%nat) by (by intros t ->).
  unfold OS._parse_price_string.
  destruct (String.eqb_spec s "N/A") as [Hs|Hs],
           (String.eqb_spec s' "N/A") as [Hs'|Hs']; rewrite <- ?Heq; try done.
  - apply Hna in Hs. destruct (Nat.eqb_spec (length (split s)) 2); done.
  - apply Hna in Hs'. rewrite <- Heq in Hs'.
    destruct (Nat.eqb_spec (length (split s)) 2); done.
Qed.

(** X2.  The price parsed from what the scrape extracts from a visible
    element is the price parsed from the element's own text: runs of white
    space, and white space around the text, do not matter. *)
Theorem parse_scraped_text (text : string) :
  OS._parse_price_string (strip (OS._get_element_text (Visible text)))
  = OS._parse_price_string text.
Proof.
  rewrite strip_get_element_text.
  apply parse_price_string_tokens, split_normalised.
Qed.

(** X3.  A parsed price whose currency is not the sentinel fixes the input:
    the string had exactly two tokens, the currency is the second, and the
    magnitude is the number written by the first once its commas are
    periods. *)
Theorem parse_price_string_inversion price_string x c :
  OS._parse_price_string price_string = Ok (x, c) →
  c ≠ "UNKNOWN" →
  ∃ n, split price_string = [n; c]
       ∧ float_of_str (replace "," "." n) = Ok x.
Proof.
  unfold OS._parse_price_string, try_except. intros Hparse Hc.
  destruct (String.eqb_spec price_string "N/A") as [->|_]; [by simplify_eq|].
  destruct (split price_string) as [|n [|c' [|? ?]]]; simpl in Hparse;
    try by simplify_eq.
  unfold mbind, result_bind in Hparse. simpl in Hparse.
  destruct (float_of_str (replace "," "." n)) as [y|e] eqn:Hfloat;
    simpl in Hparse.
  - simplify_eq. by exists n.
  - rewrite (float_of_str_raises _ _ Hfloat) in Hparse. simpl in Hparse.
    by simplify_eq.
Qed.

Lemma parse_price_string_inversion_witness :
  ∃ n, split " 0,44   ETH " = [n; "ETH"]
       ∧ float_of_str (replace "," "." n)
         = Ok (S754_finite false 7926335344172073 (-54)).
Proof.
  apply (parse_price_string_inversion " 0,44   ETH "
           (S754_finite false 7926335344172073 (-54)) "ETH");
    [by_conversion|done].
Defined.

(** ** What a scrape returns *)

Lemma call_reraised (o : option exn) classes (w : world) :
  st_try_except (lift (call o)) classes raise w = (call o, w).
Proof.
  unfold st_try_except, lift. destruct o as [e|]; simpl; [|done].
  by destruct (caught_by e classes).
Qed.

(** [_scrape_price_data_with_timeout] returns exactly when every call on
    the page returns, both elements are visible and neither text
    normalises to ["N/A"]; what it returns is then the pair of normalised
    texts, never [None]. *)
Lemma scrape_returns_iff p slug w r :
  (OS._scrape_price_data_with_timeout p slug w).1 = Ok r
  ↔ ∃ floor_text best_text,
      page_shows p floor_text best_text
      ∧ normalise floor_text ≠ "N/A" ∧ normalise best_text ≠ "N/A"
      ∧ r = Some (OS.RawData (normalise floor_text) (normalise best_text)).
Proof.
  unfold OS._scrape_price_data_with_timeout, page_shows.
  unfold st_try_except at 1. unfold mbind, st_bind, emit, lift at 1 2. simpl.
  rewrite !strip_get_element_text.
  destruct (goto p) as [e|]; simpl.
  { split; [done|]. by intros (? & ? & (? & _) & _). }
  destruct (load_state p) as [e|]; simpl.
  { split; [done|]. by intros (? & ? & (_ & ? & _) & _). }
  rewrite call_reraised.
  destruct (floor_wait p) as [e|]; simpl.
  { split; [done|]. by intros (? & ? & (_ & _ & ? & _) & _). }
  rewrite call_reraised.
  destruct (best_wait p) as [e|]; simpl.
  { split; [done|]. by intros (? & ? & (_ & _ & _ & ? & _) & _). }
  destruct (floor_element p) as [tf| |ef], (best_element p) as [tb| |eb]; simpl;
    rewrite ?String.eqb_refl, ?orb_true_r; simpl;
    try (split; [done|by intros (? & ? & (_ & _ & _ & _ & ? & ?) & _)]).
  fold (normalise tf) (normalise tb).
  destruct (String.eqb_spec (normalise tf) "N/A") as [Hf|Hf]; simpl.
  { split; [done|]. intros (? & ? & (_ & _ & _ & _ & ? & ?) & ? & _).
    by simplify_eq. }
  destruct (String.eqb_spec (normalise tb) "N/A") as [Hb|Hb]; simpl.
  { split; [done|]. intros (? & ? & (_ & _ & _ & _ & ? & ?) & _ & ? & _).
    by simplify_eq. }
  split.
  - intros [= <-]. by exists tf, tb.
  - intros (? & ? & (_ & _ & _ & _ & ? & ?) & _ & _ & ->). by simplify_eq.
Qed.

Lemma parse_price_string_price_of s :
  OS._parse_price_string s = Ok (price_of s).
Proof.
  unfold price_of.
  destruct (OS._parse_price_string s) as [p|e] eqn:Hparse; [done|].
  exfalso. revert Hparse. unfold OS._parse_price_string, try_except.
  destruct (String.eqb_spec s "N/A") as [_|_]; [done|].
  destruct (split s) as [|n [|c [|? ?]]]; simpl; try done.
  unfold mbind, result_bind. simpl.
  destruct (float_of_str (replace "," "." n)) as [x|e'] eqn:Hfloat; [done|].
  by rewrite (float_of_str_raises _ _ Hfloat).
Qed.

Lemma price_of_normalise text :
  price_of (join " " (split text)) = price_of text.
Proof.
  unfold price_of.
  by rewrite (parse_price_string_tokens _ text (split_normalised text)).
Qed.

(** X4.  [_try_get_prices] returns exactly when the browser opens a page
    on which every call returns, both elements are visible and neither
    text normalises to ["N/A"].  It then returns the two prices parsed
    from the texts of the elements, never [None]; in every other case it
    raises. *)
Theorem try_get_prices_returns_iff slug w r :
  (OS._try_get_prices slug w).1 = Ok r
  ↔ ∃ p floor_text best_text,
      browser w 0%nat = Opened p
      ∧ page_shows p floor_text best_text
      ∧ normalise floor_text ≠ "N/A" ∧ normalise best_text ≠ "N/A"
      ∧ r = Some (OS.Prices (price_of floor_text) (price_of best_text)).
Proof.
  unfold OS._try_get_prices, next_session. unfold mbind at 1, st_bind. simpl.
  destruct (browser w 0%nat) as [e|p]; simpl.
  { split; [done|]. by intros (? & ? & ? & ? & _). }
  unfold st_try_finally, mbind, st_bind, lift. simpl.
  match goal with |- context [OS._scrape_price_data_with_timeout p slug ?w1] =>
    pose proof (scrape_returns_iff p slug w1) as Hscrape;
    destruct (OS._scrape_price_data_with_timeout p slug w1) as [[raw|e] w2]
  end; simpl in *.
  - destruct (proj1 (Hscrape raw) eq_refl) as (tf & tb & Hshows & Hf & Hb & ->).
    unfold normalise. rewrite !parse_price_string_price_of. simpl.
    rewrite !price_of_normalise. split.
    + intros [= <-]. by exists p, tf, tb.
    + intros (p' & tf' & tb' & [= <-] & Hshows' & _ & _ & ->).
      destruct Hshows as (_ & _ & _ & _ & Ef & Eb),
               Hshows' as (_ & _ & _ & _ & Ef' & Eb').
      rewrite Ef in Ef'. rewrite Eb in Eb'. by simplify_eq.
  - split; [done|]. intros (p' & tf & tb & [= <-] & Hshows & Hf & Hb & _).
    assert (Raise e = Ok (Some (OS.RawData (normalise tf) (normalise tb))))
      as Habs; [|done].
    apply Hscrape. by exists tf, tb.
Qed.

Lemma try_get_prices_returns_iff_witness :
  (OS._try_get_prices "hypio" fresh_world).1
  = Ok (Some (OS.Prices (price_of "0.44 ETH") (price_of "0.41 WETH"))).
Proof.
  apply (try_get_prices_returns_iff "hypio" fresh_world).
  exists (page_showing "0.44 ETH" "0.41 WETH"), "0.44 ETH", "0.41 WETH".
  repeat split; done.
Defined.

(** ** The retry loop counts its browsers *)

#[global] Instance quiet_step_preorder : PreOrder quiet_step.
Proof.
  split.
  - intros w. by split.
  - intros a b c [X1 B1] [X2 B2]. split; [by etrans|]. congruence.
Qed.

Lemma quiet_emit_goto url : preserves quiet_step (emit (EvGoto url)).
Proof. intros w. split; [by apply extends_emit|done]. Qed.

Lemma quiet_time_sleep_retry : preserves quiet_step (time_sleep OS.retry_delay).
Proof.
  intros w. rewrite time_sleep_retry_delay. split; [|done].
  repeat split. by exists [EvSleep 2].
Qed.
#[global] Hint Resolve quiet_emit_goto quiet_time_sleep_retry : frame.

Lemma quiet_scrape p slug :
  preserves quiet_step (OS._scrape_price_data_with_timeout p slug).
Proof. unfold OS._scrape_price_data_with_timeout. frame. Qed.
#[global] Hint Resolve quiet_scrape : frame.

Lemma quiet_events_no_launch evs :
  forallb quiet_event evs = true →
  launches evs = 0%nat ∧ forallb retry_event evs = true.
Proof.
  unfold launches, count. induction evs as [|ev evs IH]; [done|]. simpl.
  intros [Hev Hevs]%andb_prop. destruct (IH Hevs) as [IH1 IH2].
  by destruct ev; simpl in *; rewrite ?Hev, ?IH2.
Qed.

Lemma count_app P evs1 evs2 :
  count P (evs1 ++ evs2) = (count P evs1 + count P evs2)%nat.
Proof. unfold count. by rewrite List.filter_app, List.length_app. Qed.

Lemma launches_app evs1 evs2 :
  launches (evs1 ++ evs2) = (launches evs1 + launches evs2)%nat.
Proof. apply count_app. Qed.

Lemma launched_refl w : launched 0 w w.
Proof. split; [by exists []|done]. Qed.

Lemma launched_trans a b w w1 w2 :
  launched a w w1 → launched b w1 w2 → launched (a + b) w w2.
Proof.
  intros [(evs1 & T1 & L1 & F1) B1] [(evs2 & T2 & L2 & F2) B2]. split.
  - exists (evs2 ++ evs1). rewrite T2, T1, app_assoc, launches_app, forallb_app.
    rewrite F1, F2. split; [done|]. split; [lia|done].
  - intros n. rewrite B2, B1. f_equal. lia.
Qed.

(** One attempt launches one browser. *)
Lemma try_get_prices_trace slug w :
  ∃ evs, trace (OS._try_get_prices slug w).2 = evs ++ EvLaunch :: trace w
         ∧ forallb quiet_event evs = true.
Proof.
  unfold OS._try_get_prices, mbind, st_bind, next_session. simpl.
  destruct (browser w 0%nat) as [e|p]; [by exists []|].
  match goal with |- context [(?m ?w1).2] =>
    assert (preserves quiet_step m) as Hm by frame;
    destruct (Hm w1) as [(_ & _ & evs & Ht & Hq) _]
  end.
  by exists evs.
Qed.

Lemma attempt_body_launched slug attempt w :
  launched 1 w (OS.attempt_body slug attempt w).2.
Proof.
  split; [|intros n; by rewrite attempt_body_browser].
  destruct (try_get_prices_trace slug w) as (evs1 & T1 & Q1).
  assert (quiet_step (OS._try_get_prices slug w).2
            (OS.attempt_body slug attempt w).2) as [(_ & _ & evs2 & T2 & Q2) _].
  { apply (preserves_after quiet_step); intros ?; frame. }
  exists (evs2 ++ evs1 ++ [EvLaunch]).
  rewrite T2, T1, <- !app_assoc. split; [done|].
  destruct (quiet_events_no_launch _ Q1) as [L1 F1].
  destruct (quiet_events_no_launch _ Q2) as [L2 F2].
  rewrite !launches_app, !forallb_app, L1, L2, F1, F2. done.
Qed.

Lemma attempts_launched slug todo w :
  ∃ k, launched k w (OS.attempts slug todo w).2
       ∧ (k ≤ length todo)%nat
       ∧ (todo ≠ [] → 1 ≤ k)%nat
       ∧ ((OS.attempts slug todo w).1 = Ok None → k = length todo).
Proof.
  revert w. induction todo as [|attempt rest IH]; intros w; simpl.
  { exists 0%nat. split; [apply launched_refl|]. by repeat split. }
  unfold mbind, st_bind.
  pose proof (attempt_body_launched slug attempt w) as H1.
  destruct (attempt_body_spec slug attempt w) as (f & Hf & _).
  destruct (OS.attempt_body slug attempt w) as [r1 w1]; simpl in *; subst r1.
  assert (Hrest : ∃ k, launched k w (OS.attempts slug rest w1).2
       ∧ (k ≤ S (length rest))%nat
       ∧ (attempt :: rest ≠ [] → 1 ≤ k)%nat
       ∧ ((OS.attempts slug rest w1).1 = Ok None → k = S (length rest))).
  { destruct (IH w1) as (k & Hk & Hle & _ & Hnone).
    exists (1 + k)%nat. split; [by eapply launched_trans|].
    split; [lia|]. split; [lia|]. intros Hn. by rewrite (Hnone Hn). }
  destruct f as [| |ps]; [exact Hrest..|].
  exists 1%nat. split; [done|]. split; [lia|]. by split.
Qed.


(** X5.  [get_collection_prices] never raises.  It launches at least one
    browser and at most [max_retries], each time the next one; when it
    returns [None] it has launched all [max_retries].  Apart from
    launching, it only navigates and sleeps for [retry_delay] seconds: the
    environment, the memory file, the chat library and the disk are as
    before. *)
Theorem get_collection_prices_launches slug w :
  ∃ r k, (OS.get_collection_prices slug w).1 = Ok r
    ∧ launched k w (OS.get_collection_prices slug w).2
    ∧ (1 ≤ k ≤ OS.max_retries)%nat
    ∧ match r with None => k = OS.max_retries | Some _ => True end
    ∧ fetch_frame w (OS.get_collection_prices slug w).2.
Proof.
  unfold OS.get_collection_prices.
  destruct (attempts_spec slug (seq 0 OS.max_retries) w) as (r & Hr & _).
  destruct (attempts_launched slug (seq 0 OS.max_retries) w)
    as (k & Hk & Hle & Hge & Hnone).
  rewrite length_seq in *. exists r, k. split; [done|]. split; [done|].
  split; [split; [by apply Hge|done]|]. split.
  - destruct r; [done|]. by apply Hnone.
  - apply fetch_attempts.
Qed.

Lemma attempts_first_success slug todo w i ps :
  (i < length todo)%nat →
  (∀ j, (j < i)%nat → failed_attempt (attempt_outcome slug (browser w j))) →
  attempt_outcome slug (browser w i) = Ok (Some ps) →
  ¬ degenerate (OS.floor_price ps) → ¬ degenerate (OS.best_offer ps) →
  (OS.attempts slug todo w).1 = Ok (Some ps)
  ∧ launched (S i) w (OS.attempts slug todo w).2.
Proof.
  revert w i. induction todo as [|attempt rest IH]; intros w i Hi Hfail Hok Hf Hb;
    simpl in Hi; [lia|].
  simpl. unfold mbind, st_bind.
  pose proof (attempt_body_launched slug attempt w) as H1.
  pose proof (attempt_body_browser slug attempt w) as Hbr.
  destruct (attempt_body_spec slug attempt w) as (f & Hbody & Hspec).
  destruct (OS.attempt_body slug attempt w) as [r1 w1]; simpl in *; subst r1.
  destruct i as [|i].
  - rewrite Hok in Hspec. destruct f as [| |ps'].
    + destruct Hspec; tauto.
    + destruct Hspec; tauto.
    + destruct Hspec as [[= <-] _]. by split.
  - assert (Hnext : (OS.attempts slug rest w1).1 = Ok (Some ps)
                    ∧ launched (S (S i)) w (OS.attempts slug rest w1).2).
    { destruct (IH w1 i) as [Hr Hl]; [lia| | |done|done|].
      - intros j Hj. rewrite Hbr. apply Hfail. lia.
      - by rewrite Hbr.
      - split; [done|]. by apply (launched_trans 1 (S i) w w1). }
    destruct f as [| |ps']; [done..|].
    destruct Hspec as (Hout & Hf' & Hb'). specialize (Hfail 0%nat ltac:(lia)).
    rewrite Hout in Hfail. simpl in Hfail. tauto.
Qed.

(** X6.  The first attempt that succeeds wins.  When the browsers of the
    first [i] attempts fail, and the browser of attempt [i], one of the
    [max_retries], gives a pair without a degenerate price, the call
    returns that pair after launching exactly [i + 1] browsers. *)
Theorem get_collection_prices_first_success slug w i ps :
  (i < OS.max_retries)%nat →
  (∀ j, (j < i)%nat → failed_attempt (attempt_outcome slug (browser w j))) →
  attempt_outcome slug (browser w i) = Ok (Some ps) →
  ¬ degenerate (OS.floor_price ps) → ¬ degenerate (OS.best_offer ps) →
  (OS.get_collection_prices slug w).1 = Ok (Some ps)
  ∧ launched (S i) w (OS.get_collection_prices slug w).2.
Proof.
  intros Hi. apply attempts_first_success. by rewrite length_seq.
Qed.

Lemma get_collection_prices_first_success_witness :
  (OS.get_collection_prices "hypio" recovering_world).1
    = Ok (Some (OS.Prices (price_of "0.44 ETH") (price_of "0.41 WETH")))
  ∧ launched 3 recovering_world
      (OS.get_collection_prices "hypio" recovering_world).2.
Proof.
  apply (get_collection_prices_first_success "hypio" recovering_world 2).
  - unfold OS.max_retries. lia.
  - intros j Hj. destruct j as [|[|j]]; [vm_compute; auto..|lia].
  - vm_compute. reflexivity.
  - vm_compute. intros [H|H]; discriminate H.
  - vm_compute. intros [H|H]; discriminate H.
Defined.

(** ** The chat service *)

(** X7.  [send_telegram_message] raises only while the service is built:
    [ValueError] without a call on the chat library when a credential is
    missing, or what the construction of the bot raises.  Once the service
    exists the call returns: [True] exactly when the transport took the
    message.  One message, to the channel of the environment, has then
    been handed to the transport, and the session has been closed twice,
    which makes four calls on the chat library; failures of closing are
    swallowed. *)
Theorem send_telegram_message_spec text w :
  telegram.send_telegram_message text w =
    if has_credentials (environ w) then
      match chat w 0%nat with
      | Some e => (Raise e, after_chat 1 [] w)
      | None =>
          (Ok (bool_decide (chat w 1%nat = None)),
           after_chat 4 [EvSendMessage (channel_of w) text] w)
      end
    else (Raise ValueError, w).
Proof.
  unfold telegram.send_telegram_message, telegram._send_message_async,
    has_credentials, channel_of.
  unfold mbind at 1, st_bind, TS.__init__.
  destruct (telegram.truthy_str (environ w !! "TELEGRAM_BOT_TOKEN")); [|done].
  destruct (telegram.truthy_str (environ w !! "TELEGRAM_CHANNEL_ID")); [|done].
  cbn [negb orb andb].
  unfold TS.send_message, TS.close, st_try_finally, st_try_except, mbind,
    st_bind, next_chat, emit, lift, mret, st_ret, after_chat. cbn.
  destruct (chat w 0%nat) as [e0|]; cbn; [done|].
  destruct (chat w 1%nat) as [e1|]; cbn;
    (destruct (chat w 2%nat) as [e2|]; cbn;
     destruct (chat w 3%nat) as [e3|]; cbn; done).
Qed.

Lemma after_chat_0 w : after_chat 0 [] w = w.
Proof. by destruct w. Qed.

(** What [send_price_update] does, by the outcome of its parts. *)
Lemma send_price_update_eq collection floor_price best_offer old_prices w :
  telegram.send_price_update collection floor_price best_offer old_prices w =
    if has_credentials (environ w) then
      match chat w 0%nat with
      | Some e => (Raise e, after_chat 1 [] w)
      | None =>
          match TS.display floor_price old_prices "floor_price",
                TS.display best_offer old_prices "best_offer" with
          | Ok floor_display, Ok best_display =>
              (Ok (bool_decide (chat w 1%nat = None)),
               after_chat 4
                 [sent (channel_of w)
                    (update_message collection floor_display best_display)] w)
          | Raise e, _ | Ok _, Raise e => (Raise e, after_chat 2 [] w)
          end
      end
    else (Raise ValueError, w).
Proof.
  unfold telegram.send_price_update, telegram._send_price_update_async,
    has_credentials, channel_of.
  unfold mbind at 1, st_bind, TS.__init__.
  destruct (telegram.truthy_str (environ w !! "TELEGRAM_BOT_TOKEN")); [|done].
  destruct (telegram.truthy_str (environ w !! "TELEGRAM_CHANNEL_ID")); [|done].
  cbn [negb orb andb].
  unfold TS.send_price_update, TS.send_message, TS.close, st_try_finally,
    st_try_except, next_chat, emit, lift, after_chat, update_message,
    update_text.
  unfold mbind, st_bind, mret, st_ret. cbn.
  destruct (chat w 0%nat) as [e0|]; cbn; [done|].
  destruct (TS.display floor_price old_prices "floor_price") as [fd|e]; cbn.
  2: { destruct (chat w 1%nat); cbn; done. }
  destruct (TS.display best_offer old_prices "best_offer") as [bd|e]; cbn.
  2: { destruct (chat w 1%nat); cbn; done. }
  destruct (chat w 1%nat) as [e1|]; cbn;
    (destruct (chat w 2%nat) as [e2|]; cbn;
     destruct (chat w 3%nat) as [e3|]; cbn; done).
Qed.

(** X8.  [send_price_update] hands at most one message to the transport.
    When it returns, both displays could be built, one message has been
    handed over, to the channel of the environment, and the boolean tells
    whether the transport took it.  The text of the message is the
    collection in capitals and the two displays; when the capitals of the
    collection have a character beyond code point 255, the model records
    the message without its text.  When the call raises, nothing has been
    handed over; at most two calls on the chat library were made. *)
Theorem send_price_update_sends_once collection floor_price best_offer
    old_prices w :
  match (telegram.send_price_update collection floor_price best_offer
           old_prices w).1 with
  | Ok sent =>
      ∃ floor_display best_display,
        TS.display floor_price old_prices "floor_price" = Ok floor_display
        ∧ TS.display best_offer old_prices "best_offer" = Ok best_display
        ∧ (telegram.send_price_update collection floor_price best_offer
             old_prices w).2
          = after_chat 4
              [match upper collection with
               | Some capitals =>
                   EvSendMessage (channel_of w)
                     (update_text capitals floor_display best_display)
               | None => EvSendOther (channel_of w)
               end] w
        ∧ sent = bool_decide (chat w 1%nat = None)
  | Raise e =>
      ∃ k, (k ≤ 2)%nat
        ∧ (telegram.send_price_update collection floor_price best_offer
             old_prices w).2 = after_chat k [] w
  end.
Proof.
  rewrite send_price_update_eq.
  destruct (has_credentials (environ w));
    [|exists 0%nat; split; [lia|by rewrite after_chat_0]].
  destruct (chat w 0%nat) as [e0|]; [exists 1%nat; split; [lia|done]|].
  destruct (TS.display floor_price old_prices "floor_price") as [fd|e];
    [|exists 2%nat; split; [lia|done]].
  destruct (TS.display best_offer old_prices "best_offer") as [bd|e];
    [|exists 2%nat; split; [lia|done]].
  exists fd, bd. unfold update_message, sent, mbind, option_bind.
  by destruct (upper collection).
Qed.

(** ** What [repr] writes, [float] reads *)

Lemma all_chars_app P s t :
  all_chars P (s +:+ t) = all_chars P s && all_chars P t.
Proof.
  induction s as [|c s IH]; [done|].
  rewrite string_app_cons. simpl. by rewrite IH, andb_assoc.
Qed.

Lemma all_chars_impl (P Q : ascii → bool) s :
  (∀ c, P c = true → Q c = true) → all_chars P s = true → all_chars Q s = true.
Proof.
  intros HPQ. induction s as [|c s IH]; [done|]. simpl.
  intros [Hc Hs]%andb_prop. by rewrite (HPQ c Hc), IH.
Qed.

Lemma no_space_all_chars s :
  all_chars (λ c, negb (isspace c)) s = true → no_space s = true.
Proof.
  induction s as [|c s IH]; [done|]. simpl.
  intros [-> Hs]%andb_prop. by apply IH.
Qed.

Ltac by_cases_on c H :=
  destruct c as [[|] [|] [|] [|] [|] [|] [|] [|]];
  vm_compute in H; try discriminate H; vm_compute; reflexivity.

Lemma literal_char_isdigit c : isdigit c = true → literal_char c = true.
Proof. unfold literal_char. by intros ->. Qed.

Lemma literal_char_not_space c : literal_char c = true → negb (isspace c) = true.
Proof. intros H. by_cases_on c H. Qed.

Lemma literal_char_not_c_space c : literal_char c = true → c_isspace c = false.
Proof. intros H. by_cases_on c H. Qed.

Lemma literal_char_plain c :
  literal_char c = true →
  Ascii.eqb c "_" = false ∧ Ascii.eqb c "," = false
  ∧ Ascii.eqb c (ascii_of_N 133) = false ∧ Ascii.eqb c (ascii_of_N 160) = false.
Proof.
  intros H. destruct c as [[|] [|] [|] [|] [|] [|] [|] [|]];
    vm_compute in H; try discriminate H; vm_compute; done.
Qed.

Lemma read_sign_digit c s :
  isdigit c = true → read_sign (String c s) = (false, String c s).
Proof.
  intros H. destruct c as [[|] [|] [|] [|] [|] [|] [|] [|]];
    vm_compute in H; try discriminate H; reflexivity.
Qed.

(** The digits of a number. *)
Lemma string_of_uint_digits d : digits (NilEmpty.string_of_uint d) = true.
Proof. induction d; simpl; done. Qed.

Lemma digits_string_digits z :
  digits (digits_string z) = true ∧ digits_string z ≠ "".
Proof.
  unfold digits_string, NilZero.string_of_uint.
  destruct (N.to_uint (Z.to_N z)) as [|d|d|d|d|d|d|d|d|d|d] eqn:E; [done|..];
    (split; [apply string_of_uint_digits|done]).
Qed.

Lemma digits_zeros n : digits (zeros n) = true.
Proof. induction n; [done|]. simpl. exact IHn. Qed.

Lemma digits_substring n m s : digits s = true → digits (substring n m s) = true.
Proof.
  unfold digits. revert n m. induction s as [|c s IH]; intros n m;
    [by destruct n, m|].
  simpl. intros [Hc Hs]%andb_prop.
  destruct n as [|n]; [destruct m as [|m]; [done|]|by apply IH].
  simpl. by rewrite Hc, IH.
Qed.

Lemma substring_nonempty m c s : substring 0 (S m) (String c s) ≠ "".
Proof. done. Qed.

Lemma read_digits_app d rest acc n :
  digits d = true → not_digit_head rest →
  ∃ acc', read_digits (d +:+ rest) acc n
          = (acc', n + Z.of_nat (String.length d), rest).
Proof.
  revert acc n. induction d as [|c d IH]; intros acc n Hd Hrest.
  - rewrite string_app_nil_l, Z.add_0_r. exists acc.
    destruct rest as [|c rest]; [done|]. simpl in *. by rewrite Hrest.
  - simpl in Hd. apply andb_prop in Hd as [Hc Hd].
    rewrite string_app_cons. simpl read_digits. rewrite Hc.
    destruct (IH (10 * acc + digit_value c) (n + 1) Hd Hrest) as [acc' ->].
    exists acc'. f_equal. f_equal. simpl String.length. lia.
Qed.

Lemma exp_part_head t : exp_part t → not_digit_head t ∧ ∀ s, t ≠ String "." s.
Proof. by intros [|neg d Hd Hne]. Qed.

Lemma parse_exp_part (neg : bool) (m nf : Z) t :
  exp_part t →
  ∃ x, match t with
       | EmptyString => Some (float_of_decimal neg m (- nf))
       | String c s4 =>
           if is_e c then
             let '(eneg, s5) := read_sign s4 in
             let '(ev, ne, s6) := read_digits s5 0 0 in
             if (ne =? 0) || negb (is_empty s6) then None
             else Some (float_of_decimal neg m ((if eneg then - ev else ev) - nf))
           else None
       end = Some x.
Proof.
  intros [|eneg d Hd Hne]; [by eexists|].
  change (is_e "e") with true. cbv iota.
  assert (read_sign (String (if eneg then "-" else "+")%char d) = (eneg, d))
    as -> by by destruct eneg.
  destruct (read_digits_app d "" 0 0 Hd I) as [ev Hev].
  rewrite string_app_nil_r in Hev. rewrite Hev. cbv beta iota zeta.
  destruct d as [|c d]; [done|]. simpl String.length.
  replace (0 + Z.of_nat (S (String.length d)) =? 0) with false
    by (symmetry; apply Z.eqb_neq; lia).
  by eexists.
Qed.

Lemma parse_decimal_literal s : decimal_literal s → ∃ x, parse_decimal s = Some x.
Proof.
  intros (neg & d & f & t & -> & Hd & Hne & Hf & Ht).
  destruct (exp_part_head t Ht) as [Hthead Htdot].
  unfold parse_decimal.
  assert (read_sign ((if neg then "-" else "") +:+ d +:+ f +:+ t)
          = (neg, d +:+ f +:+ t)) as ->.
  { destruct neg; [done|]. rewrite string_app_nil_l.
    destruct d as [|c d]; [done|]. simpl in Hd. apply andb_prop in Hd as [Hc _].
    rewrite string_app_cons. by apply read_sign_digit. }
  cbv beta iota zeta.
  assert (not_digit_head (f +:+ t)) as Hhead.
  { destruct Hf as [|d2 Hd2]; [by rewrite string_app_nil_l|done]. }
  destruct (read_digits_app d (f +:+ t) 0 0 Hd Hhead) as [ip ->].
  cbv beta iota zeta.
  assert (0 < 0 + Z.of_nat (String.length d)) as Hni.
  { destruct d; [done|]. simpl String.length. lia. }
  destruct Hf as [|d2 Hd2].
  - rewrite string_app_nil_l.
    assert (match t with
            | String "." s2' => read_digits s2' ip 0
            | _ => (ip, 0, t)
            end = (ip, 0, t)) as ->.
    { destruct Ht; done. }
    cbv beta iota zeta.
    replace (0 + Z.of_nat (String.length d) + 0 =? 0) with false
      by (symmetry; apply Z.eqb_neq; lia).
    apply parse_exp_part, Ht.
  - rewrite string_app_cons. cbv beta iota zeta.
    change (match String "." (d2 +:+ t) with
            | String "." s2' => read_digits s2' ip 0
            | _ => (ip, 0, String "." (d2 +:+ t))
            end) with (read_digits (d2 +:+ t) ip 0).
    destruct (read_digits_app d2 t ip 0 Hd2 Hthead) as [m ->].
    cbv beta iota zeta.
    replace (0 + Z.of_nat (String.length d) + (0 + Z.of_nat (String.length d2)) =? 0)
      with false by (symmetry; apply Z.eqb_neq; lia).
    apply parse_exp_part, Ht.
Qed.

Lemma decimal_literal_chars s :
  decimal_literal s → all_chars literal_char s = true.
Proof.
  intros (neg & d & f & t & -> & Hd & Hne & Hf & Ht).
  rewrite !all_chars_app.
  rewrite (all_chars_impl _ _ d literal_char_isdigit Hd).
  assert (all_chars literal_char f = true) as ->.
  { destruct Hf as [|d2 Hd2]; [done|]. simpl.
    exact (all_chars_impl _ _ d2 literal_char_isdigit Hd2). }
  assert (all_chars literal_char t = true) as ->.
  { destruct Ht as [|eneg d3 Hd3 _]; [done|]. simpl.
    rewrite (all_chars_impl _ _ d3 literal_char_isdigit Hd3). by destruct eneg. }
  by destruct neg.
Qed.

(** [format_digits] writes a literal without a sign. *)
Lemma format_digits_literal ds decpt :
  digits ds = true → ds ≠ "" →
  ∃ d f t, format_digits ds decpt = d +:+ f +:+ t
           ∧ digits d = true ∧ d ≠ "" ∧ frac_part f ∧ exp_part t.
Proof.
  intros Hds Hne. unfold format_digits.
  destruct ((decpt <=? -4) || (16 <? decpt)).
  { destruct (digits_string_digits (Z.abs (decpt - 1))) as [Hes Hesne].
    set (es := digits_string (Z.abs (decpt - 1))) in *.
    set (tail := "e" +:+ (if decpt - 1 <? 0 then "-" else "+")
                 +:+ (if Z.abs (decpt - 1) <? 10 then "0" +:+ es else es)).
    assert (exp_part tail) as Hexp.
    { unfold tail. assert (∀ neg : bool, (if neg then "-" else "+")
                = String (if neg then "-" else "+")%char "") as ->
        by by intros [].
      apply (exp_some (decpt - 1 <? 0)); by destruct (_ <? 10). }
    destruct ds as [|c [|c' r]]; [done|..].
    - exists (String c ""), "", tail. rewrite string_app_nil_l.
      split; [reflexivity|]. repeat split; [done|done|constructor|exact Hexp].
    - exists (String c ""), (String "." (String c' r)), tail.
      split; [reflexivity|]. simpl in Hds. apply andb_prop in Hds as [Hc Hr].
      repeat split;
        [by unfold digits; simpl; rewrite Hc|done|by constructor|exact Hexp]. }
  destruct (decpt <=? 0) eqn:Hpos.
  { exists "0", (String "." (zeros (Z.to_nat (- decpt)) +:+ ds)), "".
    rewrite string_app_nil_r.
    repeat split; [done|constructor|constructor].
    unfold digits. rewrite all_chars_app. fold (digits ds).
    by rewrite Hds, (digits_zeros _ : all_chars _ _ = _). }
  destruct (Z.of_nat (String.length ds) <=? decpt) eqn:Hlen.
  { exists (ds +:+ zeros (Z.to_nat (decpt - Z.of_nat (String.length ds)))),
      ".0", "".
    rewrite string_app_nil_r, string_app_assoc.
    repeat split; [|by destruct ds|by constructor|constructor].
    unfold digits. rewrite all_chars_app. fold (digits ds).
    by rewrite Hds, (digits_zeros _ : all_chars _ _ = _). }
  destruct (Z.to_nat decpt) as [|k] eqn:Hk.
  { exists "0", (String "." ds), "". exfalso.
    apply Z.leb_gt in Hpos. lia. }
  exists (substring 0 (S k) ds),
    (String "." (substring (S k)
                   (Z.to_nat (Z.of_nat (String.length ds) - decpt)) ds)), "".
  rewrite string_app_nil_r.
  repeat split;
    [by apply digits_substring|by destruct ds
    |constructor; by apply digits_substring|constructor].
Qed.

Lemma replace_id old new s :
  all_chars (λ c, negb (Ascii.eqb c old)) s = true → replace old new s = s.
Proof.
  induction s as [|c s IH]; [done|]. simpl.
  intros [Hc Hs]%andb_prop. apply negb_true_iff in Hc.
  change (replace old new (String c s))
    with (String (if Ascii.eqb c old then new else c) (replace old new s)).
  by rewrite Hc, IH.
Qed.

Lemma remove_underscores_id s prev :
  all_chars (λ c, negb (Ascii.eqb c "_")) s = true →
  Ascii.eqb prev "_" = false → remove_underscores s prev = Some s.
Proof.
  revert prev. induction s as [|c s IH]; intros prev Hs Hprev; simpl.
  { by rewrite Hprev. }
  simpl in Hs. apply andb_prop in Hs as [Hc Hs]. apply negb_true_iff in Hc.
  rewrite Hc, Hprev. simpl. by rewrite (IH c Hs Hc).
Qed.

Lemma lstrip_with_id sp s :
  all_chars (λ c, negb (sp c)) s = true → lstrip_with sp s = s.
Proof.
  destruct s as [|c s]; [done|]. simpl.
  intros [Hc _]%andb_prop. apply negb_true_iff in Hc. by rewrite Hc.
Qed.

Lemma rstrip_with_id sp s :
  all_chars (λ c, negb (sp c)) s = true → rstrip_with sp s = s.
Proof.
  induction s as [|c s IH]; [done|]. simpl.
  intros [Hc Hs]%andb_prop. apply negb_true_iff in Hc.
  by rewrite (IH Hs), Hc, andb_false_r.
Qed.

(** [float] reads every decimal literal. *)
Lemma float_of_str_literal s : decimal_literal s → ∃ x, float_of_str s = Ok x.
Proof.
  intros Hs. pose proof (decimal_literal_chars s Hs) as Hchars.
  destruct (parse_decimal_literal s Hs) as [x Hx].
  assert (∀ P : ascii → bool, (∀ c, literal_char c = true → P c = true) →
            all_chars P s = true) as Hall.
  { intros P HP. by apply (all_chars_impl literal_char). }
  exists x. unfold float_of_str, space_to_ascii.
  rewrite (replace_id (ascii_of_N 160)), (replace_id (ascii_of_N 133)),
    remove_underscores_id, lstrip_with_id, rstrip_with_id, ?Hx; try done;
    apply Hall; intros c Hc;
    try (by rewrite (literal_char_not_c_space c Hc));
    destruct (literal_char_plain c Hc) as (H1 & _ & H3 & H4);
    by rewrite ?H1, ?H3, ?H4.
Qed.

Lemma decimal_literal_token s : decimal_literal s → token s.
Proof.
  intros Hs. split.
  - apply no_space_all_chars.
    eapply all_chars_impl; [|exact (decimal_literal_chars s Hs)].
    apply literal_char_not_space.
  - destruct Hs as (neg & d & f & t & -> & _ & Hne & _).
    destruct neg; [done|]. by destruct d.
Qed.

Lemma decimal_literal_no_comma s : decimal_literal s → replace "," "." s = s.
Proof.
  intros Hs. apply replace_id.
  eapply all_chars_impl; [|exact (decimal_literal_chars s Hs)].
  intros c Hc. by destruct (literal_char_plain c Hc) as (_ & -> & _).
Qed.

(** [repr] of a number is a decimal literal. *)
Lemma float_repr_literal x :
  match x with S754_zero _ | S754_finite _ _ _ => decimal_literal (float_repr x)
  | _ => True end.
Proof.
  destruct x as [s|s| |s m e]; [|done|done|].
  - exists s, "0", ".0", "". split; [by destruct s|].
    repeat split; [done|by constructor|constructor].
  - unfold float_repr.
    destruct (shortest_digits _ _ _ _ _ _) as [c k].
    destruct (strip_zeros 20 c k) as [c' k'].
    destruct (digits_string_digits c') as [Hds Hne].
    destruct (format_digits_literal (digits_string c')
                (Z.of_nat (String.length (digits_string c')) + k') Hds Hne)
      as (d & f & t & -> & Hd & Hdne & Hf & Ht).
    by exists s, d, f, t.
Qed.

Lemma float_repr_readable x : ∃ y, float_of_str (float_repr x) = Ok y.
Proof.
  pose proof (float_repr_literal x) as H.
  destruct x as [s|s| |s m e]; [by apply float_of_str_literal| | |by apply float_of_str_literal].
  - exists (S754_infinity s). by destruct s.
  - by exists S754_nan.
Qed.

Lemma float_repr_token x : token (float_repr x).
Proof.
  pose proof (float_repr_literal x) as H.
  destruct x as [s|s| |s m e]; [by apply decimal_literal_token| | |by apply decimal_literal_token].
  - by destruct s.
  - done.
Qed.

Lemma float_repr_no_comma x : replace "," "." (float_repr x) = float_repr x.
Proof.
  pose proof (float_repr_literal x) as H.
  destruct x as [s|s| |s m e];
    [by apply decimal_literal_no_comma| | |by apply decimal_literal_no_comma].
  - by destruct s.
  - done.
Qed.

(** ** Shifting a truncation *)

Lemma loc_of_shr_record_of_loc m l :
  loc_of_shr_record (shr_record_of_loc m l) = l.
Proof. by destruct l as [|[]]. Qed.

Lemma shr_m_of_loc m l : shr_m (shr_record_of_loc m l) = m.
Proof. by destruct l as [|[]]. Qed.

Lemma shr_m_truncation N D : shr_m (truncation N D) = N / D.
Proof. apply shr_m_of_loc. Qed.

Lemma loc_truncation N D : loc_of_shr_record (truncation N D) = location_of N D.
Proof. apply loc_of_shr_record_of_loc. Qed.

Lemma div_mod_double N D :
  0 ≤ N → 0 < D →
  N / (2 * D) = N / D / 2
  ∧ N mod (2 * D) = (N / D mod 2) * D + N mod D.
Proof.
  intros HN HD.
  pose proof (Z.div_mod N D ltac:(lia)) as H1.
  pose proof (Z.mod_pos_bound N D HD) as H2.
  pose proof (Z.div_mod (N / D) 2 ltac:(lia)) as H3.
  pose proof (Z.mod_pos_bound (N / D) 2 ltac:(lia)) as H4.
  assert (N = (N / D / 2) * (2 * D) + ((N / D mod 2) * D + N mod D)) as H5 by nia.
  assert (0 ≤ (N / D mod 2) * D + N mod D < 2 * D) as H6 by nia.
  split.
  - symmetry. apply (Z.div_unique N (2 * D) _ ((N / D mod 2) * D + N mod D)); lia.
  - symmetry. apply (Z.mod_unique N (2 * D) (N / D / 2)); lia.
Qed.

Lemma shr_1_truncation N D :
  0 ≤ N → 0 < D → shr_1 (truncation N D) = truncation N (2 * D).
Proof.
  intros HN HD. destruct (div_mod_double N D HN HD) as [Hq Hr].
  pose proof (Z.mod_pos_bound N D HD) as Hb.
  pose proof (Z.div_pos N D HN HD) as Hq0.
  unfold truncation, location_of. rewrite Hq, Hr.
  pose proof (Z.div_mod (N / D) 2 ltac:(lia)) as H3.
  pose proof (Z.mod_pos_bound (N / D) 2 ltac:(lia)) as H4.
  set (q := N / D) in *. set (r := N mod D) in *.
  assert (q mod 2 = 0 ∨ q mod 2 = 1) as [Hb0|Hb1] by lia.
  - rewrite Hb0. replace (0 * D + r) with r by lia.
    assert ((2 * r ?= 2 * D) = Lt) as Hlt by (apply Z.compare_lt_iff; lia).
    destruct (Z.eqb_spec r 0) as [Hr0|Hr0].
    + destruct q as [|[p|p|]|]; simpl in *; try lia; try done.
      all: try (f_equal; lia).
    + rewrite Hlt.
      destruct (2 * r ?= D); destruct q as [|[p|p|]|]; simpl in *; try lia; try done.
      all: try (f_equal; lia).
  - rewrite Hb1. replace (1 * D + r) with (D + r) by lia.
    destruct (Z.eqb_spec (D + r) 0) as [?|_]; [lia|].
    destruct (Z.eqb_spec r 0) as [Hr0|Hr0].
    + rewrite Hr0, Z.add_0_r.
      assert ((2 * D ?= 2 * D) = Eq) as -> by apply Z.compare_refl.
      destruct q as [|[p|p|]|]; simpl in *; try lia; try done.
      all: try (f_equal; lia).
    + assert ((2 * (D + r) ?= 2 * D) = Gt) as -> by (apply Z.compare_gt_iff; lia).
      destruct (2 * r ?= D); destruct q as [|[p|p|]|]; simpl in *; try lia; try done.
      all: try (f_equal; lia).
Qed.

Lemma iter_shr_1_truncation p N D :
  0 ≤ N → 0 < D →
  SpecFloat.iter_pos shr_1 p (truncation N D) = truncation N (2 ^ Zpos p * D).
Proof.
  intros HN. revert D. induction p as [p IH|p IH|]; intros D HD; simpl SpecFloat.iter_pos.
  - assert (0 < 2 ^ Z.pos p) as Hp by (apply Z.pow_pos_nonneg; lia).
    rewrite shr_1_truncation, !IH by nia. f_equal.
    assert (2 ^ Z.pos p~1 = 2 * (2 ^ Z.pos p * 2 ^ Z.pos p)) as ->; [|ring].
    rewrite <- Z.pow_add_r, <- Z.pow_succ_r by lia. f_equal. lia.
  - assert (0 < 2 ^ Z.pos p) as Hp by (apply Z.pow_pos_nonneg; lia).
    rewrite !IH by nia. f_equal.
    assert (2 ^ Z.pos p~0 = 2 ^ Z.pos p * 2 ^ Z.pos p) as ->; [|ring].
    rewrite <- Z.pow_add_r by lia. f_equal. lia.
  - by rewrite shr_1_truncation.
Qed.

Lemma shr_truncation N D e j :
  0 ≤ N → 0 < D →
  shr (truncation N D) e j = (truncation N (2 ^ Z.max 0 j * D), e + Z.max 0 j).
Proof.
  intros HN HD. destruct j as [|p|p]; simpl shr.
  - change (Z.max 0 0) with 0. by rewrite Z.pow_0_r, Z.mul_1_l, Z.add_0_r.
  - rewrite iter_shr_1_truncation by done.
    by replace (Z.max 0 (Z.pos p)) with (Z.pos p) by lia.
  - replace (Z.max 0 (Z.neg p)) with 0 by lia.
    by rewrite Z.pow_0_r, Z.mul_1_l, Z.add_0_r.
Qed.

Lemma new_location_spec d r :
  0 < d → 0 ≤ r < d →
  new_location d r = if r =? 0 then loc_Exact else loc_Inexact (2 * r ?= d).
Proof.
  intros Hd Hr. unfold new_location, new_location_even, new_location_odd.
  destruct (Z.even d) eqn:He; [done|].
  destruct (Z.eqb_spec r 0) as [|Hr0]; [done|]. f_equal.
  assert (Z.odd d = true) as Ho by (by rewrite <- Z.negb_even, He).
  apply Z.odd_spec in Ho as [t Ht].
  destruct (Z.compare_spec (2 * r + 1) d), (Z.compare_spec (2 * r) d);
    first [done|lia].
Qed.

Lemma new_location_mod N D :
  0 < D → new_location D (N mod D) = location_of N D.
Proof.
  intros HD. apply new_location_spec; [done|]. by apply Z.mod_pos_bound.
Qed.

(** ** The number of bits *)

Lemma digits2_pos_spec p :
  2 ^ (Zpos (digits2_pos p) - 1) ≤ Zpos p < 2 ^ Zpos (digits2_pos p).
Proof.
  induction p as [p IH|p IH|]; simpl digits2_pos; [| |done].
  all: rewrite Pos2Z.inj_succ; replace (Z.succ (Z.pos (digits2_pos p)) - 1)
         with (Z.succ (Z.pos (digits2_pos p) - 1)) by lia;
       rewrite !Z.pow_succ_r by lia; lia.
Qed.

Lemma Zdigits2_spec m :
  0 < m → 2 ^ (Zdigits2 m - 1) ≤ m < 2 ^ Zdigits2 m.
Proof. destruct m as [|p|p]; [lia| |lia]. intros _. apply digits2_pos_spec. Qed.

Lemma Zdigits2_nonneg m : 0 ≤ Zdigits2 m.
Proof. by destruct m. Qed.

Lemma Zdigits2_unique m g :
  0 < m → 2 ^ (g - 1) ≤ m < 2 ^ g → Zdigits2 m = g.
Proof.
  intros Hm [H1 H2]. destruct (Zdigits2_spec m Hm) as [H3 H4].
  assert (0 < g).
  { destruct (Z.le_gt_cases g 0) as [Hg|]; [|done].
    destruct (Z.eq_dec g 0) as [->|]; [simpl in H2; lia|].
    rewrite Z.pow_neg_r in H2 by lia. lia. }
  assert (0 < Zdigits2 m) by (destruct m; simpl; lia).
  destruct (Z.lt_trichotomy (Zdigits2 m) g) as [Hlt|[Heq|Hgt]]; [|done|].
  - assert (2 ^ Zdigits2 m ≤ 2 ^ (g - 1)) by (apply Z.pow_le_mono_r; lia). lia.
  - assert (2 ^ g ≤ 2 ^ (Zdigits2 m - 1)) by (apply Z.pow_le_mono_r; lia). lia.
Qed.

(** ** The division of [SFdiv], as a truncation *)

Lemma fexp_eq x : fexp prec emax x = Z.max (x - 53) (-1074).
Proof. reflexivity. Qed.

Lemma binary_round_aux_finalize neg m e l :
  binary_round_aux prec emax neg m e l
  = finalize neg
      (round_nearest_even (shr_m (shr_fexp prec emax m e l).1)
         (loc_of_shr_record (shr_fexp prec emax m e l).1))
      (shr_fexp prec emax m e l).2.
Proof.
  unfold binary_round_aux, finalize.
  by destruct (shr_fexp prec emax m e l) as [mrs e1].
Qed.

Lemma div_eucl_div_mod a b : Z.div_eucl a b = (a / b, a mod b).
Proof. unfold Z.div, Z.modulo. by destruct (Z.div_eucl a b). Qed.

Lemma SFdiv_core_binary_truncation n d :
  let e' := Z.min (fexp prec emax (Zdigits2 (Zpos n) - Zdigits2 (Zpos d))) 0 in
  SFdiv_core_binary prec emax (Zpos n) 0 (Zpos d) 0
  = (Zpos n * 2 ^ (- e') / Zpos d, e',
     location_of (Zpos n * 2 ^ (- e')) (Zpos d)).
Proof.
  intros e'. unfold SFdiv_core_binary.
  rewrite !Z.add_0_r. change (0 - 0) with 0. fold e'.
  assert (e' ≤ 0) as He by (unfold e'; lia).
  replace (0 - e') with (- e') by lia.
  assert (match - e' with
          | 0 => Z.pos n
          | Z.pos _ => Z.shiftl (Z.pos n) (- e')
          | Z.neg _ => 0
          end = Zpos n * 2 ^ (- e')) as ->.
  { destruct (- e') as [|p|p] eqn:E; [simpl; lia| |lia].
    by rewrite Z.shiftl_mul_pow2. }
  rewrite div_eucl_div_mod. by rewrite new_location_mod.
Qed.

Lemma pow2_pos k : 0 ≤ k → 0 < 2 ^ k.
Proof. intros. apply Z.pow_pos_nonneg; lia. Qed.

Lemma div_lt_pow N D g : 0 < D → N / D < g → N < g * D.
Proof.
  intros HD H. pose proof (Z.div_mod N D ltac:(lia)).
  pose proof (Z.mod_pos_bound N D HD). nia.
Qed.

Lemma div_ge_pow N D g : 0 < D → g ≤ N / D → g * D ≤ N.
Proof.
  intros HD H. pose proof (Z.div_mod N D ltac:(lia)).
  pose proof (Z.mod_pos_bound N D HD). nia.
Qed.

(** [binary64_of_ratio] rounds the truncation of the ratio at its
    canonical exponent. *)
Lemma binary64_of_ratio_truncation neg n d :
  ∃ s k, 0 ≤ s ∧ 0 ≤ k ∧ -1074 ≤ k - s
    ∧ canonical_at (Zpos n * 2 ^ s) (Zpos d * 2 ^ k) (k - s)
    ∧ binary64_of_ratio neg n d
      = finalize neg
          (round_nearest_even (Zpos n * 2 ^ s / (Zpos d * 2 ^ k))
             (location_of (Zpos n * 2 ^ s) (Zpos d * 2 ^ k)))
          (k - s).
Proof.
  unfold binary64_of_ratio, SFdiv. rewrite SFdiv_core_binary_truncation.
  cbv zeta. rewrite xorb_false_r.
  set (g0 := Zdigits2 (Z.pos n) - Zdigits2 (Z.pos d)).
  set (e' := Z.min (fexp prec emax g0) 0).
  assert (-1074 ≤ e' ≤ 0) as He by (unfold e'; rewrite fexp_eq; lia).
  set (N := Z.pos n * 2 ^ (- e')).
  assert (0 < 2 ^ (- e')) as Hp by (apply pow2_pos; lia).
  assert (0 < N) as HN by (unfold N; nia).
  set (q0 := N / Z.pos d).
  assert (0 ≤ q0) as Hq0 by (apply Z.div_pos; lia).
  set (j := Z.max 0 (Zdigits2 q0 - 53)).
  pose proof (Zdigits2_nonneg q0) as Hdg.
  exists (- e'), j. fold N.
  assert (0 < 2 ^ j) as Hpj by (apply pow2_pos; lia).
  rewrite binary_round_aux_finalize.
  assert (shr_fexp prec emax q0 e' (location_of N (Z.pos d))
          = (truncation N (2 ^ j * Z.pos d), e' + j)) as ->.
  { unfold shr_fexp.
    change (shr_record_of_loc q0 (location_of N (Z.pos d)))
      with (truncation N (Z.pos d)).
    rewrite shr_truncation by lia. rewrite fexp_eq.
    replace (Z.max 0 (Z.max (Zdigits2 q0 + e' - 53) (-1074) - e')) with j
      by (unfold j; lia). done. }
  cbn [fst snd]. rewrite shr_m_truncation, loc_truncation.
  replace (2 ^ j * Z.pos d) with (Z.pos d * 2 ^ j) by ring.
  replace (e' + j) with (j - - e') by lia.
  split; [lia|]. split; [lia|]. split; [lia|]. split; [|done].
  replace (j - - e') with (j + e') by lia.
  (* unless the exponent is the least one, the quotient has 53 bits *)
  assert (-1074 < e' → 2 ^ 52 ≤ q0) as Hbig.
  { intros Hlow.
    destruct (digits2_pos_spec n) as [Hn1 _].
    destruct (digits2_pos_spec d) as [_ Hd2].
    unfold g0 in *. simpl Zdigits2 in *.
    set (dn := Z.pos (digits2_pos n)) in *.
    set (dd := Z.pos (digits2_pos d)) in *.
    assert (0 < dn ∧ 0 < dd) as [? ?] by (unfold dn, dd; lia).
    assert (52 + dd ≤ dn - 1 - e') as Hexp
      by (unfold e' in *; rewrite fexp_eq in *; lia).
    assert (2 ^ (52 + dd) ≤ 2 ^ (dn - 1 - e')) as H1
      by (apply Z.pow_le_mono_r; lia).
    assert (2 ^ (dn - 1 - e') = 2 ^ (dn - 1) * 2 ^ (- e')) as H2
      by (rewrite <- Z.pow_add_r by lia; f_equal; lia).
    assert (2 ^ (52 + dd) = 2 ^ 52 * 2 ^ dd) as H3
      by (rewrite <- Z.pow_add_r by lia; done).
    apply Z.div_le_lower_bound; [lia|]. unfold N. nia. }
  unfold canonical_at.
  destruct (Z.eq_dec q0 0) as [Hz|Hnz].
  - assert (j = 0) as -> by (unfold j; rewrite Hz; simpl; lia).
    rewrite Z.pow_0_r, Z.mul_1_r.
    assert (N < 1 * Z.pos d) as Hlt by (apply div_lt_pow; [lia|fold q0; lia]).
    split; [lia|]. left. lia.
  - destruct (Zdigits2_spec q0 ltac:(lia)) as [Hg1 Hg2].
    assert (N < 2 ^ Zdigits2 q0 * Z.pos d) as HN1 by (by apply div_lt_pow).
    assert (2 ^ (Zdigits2 q0 - 1) * Z.pos d ≤ N) as HN2 by (by apply div_ge_pow).
    assert (0 < Zdigits2 q0) as Hdpos by (destruct q0; simpl; lia).
    destruct (Z.le_gt_cases 53 (Zdigits2 q0)) as [Hge|Hlt].
    + assert (j = Zdigits2 q0 - 53) as Hj by (unfold j; lia).
      assert (2 ^ Zdigits2 q0 = 2 ^ 53 * 2 ^ j) as E1
        by (rewrite <- Z.pow_add_r by lia; f_equal; lia).
      assert (2 ^ (Zdigits2 q0 - 1) = 2 ^ 52 * 2 ^ j) as E2
        by (rewrite <- Z.pow_add_r by lia; f_equal; lia).
      split; [|right]; nia.
    + assert (j = 0) as -> by (unfold j; lia).
      rewrite Z.pow_0_r, Z.mul_1_r.
      assert (2 ^ Zdigits2 q0 ≤ 2 ^ 52) as Hle by (apply Z.pow_le_mono_r; lia).
      split; [nia|]. left.
      destruct (Z.eq_dec e' (-1074)) as [|Hne]; [lia|].
      specialize (Hbig ltac:(lia)). lia.
Qed.

(** ** The truncation and the exponent depend on the ratio only *)

Lemma truncation_ratio N D N' D' :
  0 ≤ N → 0 < D → 0 < D' → N * D' = N' * D →
  N / D = N' / D' ∧ location_of N D = location_of N' D'.
Proof.
  intros HN HD HD' Heq.
  pose proof (Z.div_mod N D ltac:(lia)) as E1.
  pose proof (Z.mod_pos_bound N D HD) as B1.
  pose proof (Z.div_mod N' D' ltac:(lia)) as E2.
  pose proof (Z.mod_pos_bound N' D' HD') as B2.
  unfold location_of.
  set (q := N / D) in *. set (r := N mod D) in *.
  set (q' := N' / D') in *. set (r' := N' mod D') in *.
  assert ((q' - q) * (D * D') = r * D' - r' * D) as Hd by nia.
  assert (- (D * D') < r * D' - r' * D < D * D') as Hb by nia.
  assert (q' = q) as -> by nia.
  assert (r * D' = r' * D) as Hr by nia.
  split; [done|].
  destruct (Z.eqb_spec r 0) as [Hr0|Hr0], (Z.eqb_spec r' 0) as [Hr0'|Hr0'];
    [done|nia|nia|]. f_equal.
  destruct (Z.compare_spec (2 * r) D), (Z.compare_spec (2 * r') D');
    first [done|nia].
Qed.

Lemma canonical_at_le n d n' d' s k s' k' :
  0 < n → 0 < d → 0 < n' → 0 < d' → 0 ≤ s → 0 ≤ k → 0 ≤ s' → 0 ≤ k' →
  n * d' = n' * d →
  -1074 ≤ k - s →
  canonical_at (n * 2 ^ s) (d * 2 ^ k) (k - s) →
  canonical_at (n' * 2 ^ s') (d' * 2 ^ k') (k' - s') →
  k' - s' ≤ k - s.
Proof.
  intros Hn Hd Hn' Hd' Hs Hk Hs' Hk' Heq Hmin [Hup _] [_ Hlow].
  destruct (Z.le_gt_cases (k' - s') (k - s)) as [|Hlt]; [done|exfalso].
  destruct Hlow as [?|Hlow]; [lia|].
  assert (2 * 2 ^ (k + s') ≤ 2 ^ (k' + s)) as Hpow.
  { rewrite <- Z.pow_succ_r by lia. apply Z.pow_le_mono_r; lia. }
  rewrite !Z.pow_add_r in Hpow by lia.
  pose proof (pow2_pos s Hs) as PS. pose proof (pow2_pos k Hk) as PK.
  pose proof (pow2_pos s' Hs') as PS'. pose proof (pow2_pos k' Hk') as PK'.
  set (S := 2 ^ s) in *. set (K := 2 ^ k) in *.
  set (S' := 2 ^ s') in *. set (K' := 2 ^ k') in *.
  assert (2 ^ 52 * (d' * K') * (d * S) ≤ n' * S' * (d * S)) as H1
    by (apply Z.mul_le_mono_nonneg_r; nia).
  assert (n * S * (d' * S') < 2 ^ 53 * (d * K) * (d' * S')) as H2
    by (apply Z.mul_lt_mono_pos_r; nia).
  assert (n' * S' * (d * S) = n * S * (d' * S')) as H3 by nia.
  assert (2 ^ 52 * (d * d') * (K' * S) < 2 ^ 53 * (d * d') * (K * S')) as H4 by nia.
  assert (0 < d * d') as Hdd by nia.
  change (2 ^ 53) with (2 ^ 52 * 2) in H4.
  assert (2 ^ 52 * (d * d') * (2 * (K * S')) ≤ 2 ^ 52 * (d * d') * (K' * S)) as H5.
  { apply Z.mul_le_mono_nonneg_l; [nia|lia]. }
  nia.
Qed.

Lemma canonical_at_unique n d n' d' s k s' k' :
  0 < n → 0 < d → 0 < n' → 0 < d' → 0 ≤ s → 0 ≤ k → 0 ≤ s' → 0 ≤ k' →
  n * d' = n' * d →
  -1074 ≤ k - s → -1074 ≤ k' - s' →
  canonical_at (n * 2 ^ s) (d * 2 ^ k) (k - s) →
  canonical_at (n' * 2 ^ s') (d' * 2 ^ k') (k' - s') →
  k - s = k' - s'.
Proof.
  intros. apply Z.le_antisymm.
  - by apply (canonical_at_le n' d' n d s' k' s k).
  - by apply (canonical_at_le n d n' d' s k s' k').
Qed.

(** Two truncations of one ratio at one exponent. *)
Lemma truncation_shift n d n' d' s k s' k' :
  0 < n → 0 < d → 0 < n' → 0 < d' → 0 ≤ s → 0 ≤ k → 0 ≤ s' → 0 ≤ k' →
  n * d' = n' * d → k - s = k' - s' →
  n * 2 ^ s / (d * 2 ^ k) = n' * 2 ^ s' / (d' * 2 ^ k')
  ∧ location_of (n * 2 ^ s) (d * 2 ^ k) = location_of (n' * 2 ^ s') (d' * 2 ^ k').
Proof.
  intros Hn Hd Hn' Hd' Hs Hk Hs' Hk' Heq HE.
  pose proof (pow2_pos s Hs) as PS. pose proof (pow2_pos k Hk) as PK.
  pose proof (pow2_pos s' Hs') as PS'. pose proof (pow2_pos k' Hk') as PK'.
  apply truncation_ratio; [nia..|].
  assert (2 ^ s * 2 ^ k' = 2 ^ s' * 2 ^ k) as Hp
    by (rewrite <- !Z.pow_add_r by lia; f_equal; lia).
  set (S := 2 ^ s) in *. set (K := 2 ^ k) in *.
  set (S' := 2 ^ s') in *. set (K' := 2 ^ k') in *.
  transitivity (n * d' * (S * K')); [ring|]. rewrite Heq, Hp. ring.
Qed.

(** [binary64_of_ratio] depends on the ratio only. *)
Lemma binary64_of_ratio_ext neg n d n' d' :
  Zpos n * Zpos d' = Zpos n' * Zpos d →
  binary64_of_ratio neg n d = binary64_of_ratio neg n' d'.
Proof.
  intros Heq.
  destruct (binary64_of_ratio_truncation neg n d)
    as (s & k & Hs & Hk & Hmin & Hcan & ->).
  destruct (binary64_of_ratio_truncation neg n' d')
    as (s' & k' & Hs' & Hk' & Hmin' & Hcan' & ->).
  assert (k - s = k' - s') as HE
    by (by apply (canonical_at_unique (Zpos n) (Zpos d) (Zpos n') (Zpos d'))).
  destruct (truncation_shift (Zpos n) (Zpos d) (Zpos n') (Zpos d') s k s' k')
    as [-> ->]; try done. by rewrite HE.
Qed.

(** ** Rounding to the nearest *)

Lemma round_nearest_even_near N D M :
  0 ≤ N → 0 < D → Z.abs (2 * N - 2 * M * D) < D →
  round_nearest_even (N / D) (location_of N D) = M.
Proof.
  intros HN HD Hnear.
  pose proof (Z.div_mod N D ltac:(lia)) as E1.
  pose proof (Z.mod_pos_bound N D HD) as B1.
  unfold location_of.
  set (q := N / D) in *. set (r := N mod D) in *.
  destruct (Z.le_gt_cases (M * D) N) as [Hge|Hlt].
  - assert (q = M) as Hq by nia.
    destruct (Z.eqb_spec r 0) as [|Hr0]; [done|].
    assert ((2 * r ?= D) = Lt) as -> by (apply Z.compare_lt_iff; nia). done.
  - assert (q = M - 1) as Hq by nia.
    destruct (Z.eqb_spec r 0) as [|Hr0]; [nia|].
    assert ((2 * r ?= D) = Gt) as -> by (apply Z.compare_gt_iff; nia).
    simpl. lia.
Qed.

Lemma round_nearest_even_bounds N D :
  0 ≤ N → 0 < D →
  N / D ≤ round_nearest_even (N / D) (location_of N D) ≤ N / D + 1.
Proof.
  intros HN HD. unfold location_of, round_nearest_even.
  destruct (N mod D =? 0); [lia|].
  destruct (2 * (N mod D) ?= D); [destruct (Z.even (N / D))|..]; lia.
Qed.

(** ** From the rounded mantissa to the float *)

Lemma finalize_canonical neg m e :
  bounded prec emax m e = true → finalize neg (Zpos m) e = S754_finite neg m e.
Proof.
  unfold bounded, canonical_mantissa. intros [Hc He]%andb_prop.
  apply Z.eqb_eq in Hc. unfold finalize, shr_fexp.
  simpl Zdigits2. rewrite Hc, Z.sub_diag. simpl. by rewrite He.
Qed.

Lemma shr_fexp_carry e :
  -1074 ≤ e →
  shr_fexp prec emax (2 ^ 53) e loc_Exact
  = (Build_shr_record (2 ^ 52) false false, e + 1).
Proof.
  intros Hlow. unfold shr_fexp.
  change (Zdigits2 (2 ^ 53)) with 54. rewrite fexp_eq.
  by replace (Z.max (54 + e - 53) (-1074) - e) with 1 by lia.
Qed.

Lemma finalize_carry neg e :
  -1074 ≤ e → e + 1 ≤ 971 →
  finalize neg (2 ^ 53) e = S754_finite neg (2 ^ 52) (e + 1).
Proof.
  intros Hlow Hup. unfold finalize. rewrite shr_fexp_carry by done.
  change (shr_m _) with (Z.pos (2 ^ 52)). cbv iota beta.
  change (emax - prec) with 971.
  by replace (e + 1 <=? 971) with true by (symmetry; apply Z.leb_le; lia).
Qed.

Lemma finalize_zero neg e : -1074 ≤ e → finalize neg 0 e = S754_zero neg.
Proof.
  intros Hlow. unfold finalize, shr_fexp. simpl Zdigits2. rewrite fexp_eq.
  destruct (Z.max (0 + e - 53) (-1074) - e) eqn:E; try done. lia.
Qed.

(** What [finalize] gives is a binary64 value. *)
Lemma finalize_valid neg m e :
  0 ≤ m ≤ 2 ^ 53 → -1074 ≤ e → (e = -1074 ∨ 2 ^ 52 ≤ m) →
  valid_binary prec emax (finalize neg m e) = true.
Proof.
  intros [Hm0 Hm1] Hlow Hcan.
  destruct (Z.eq_dec m 0) as [->|Hnz]; [by rewrite finalize_zero|].
  destruct (Z.eq_dec m (2 ^ 53)) as [->|Hne].
  - unfold finalize. rewrite shr_fexp_carry by done.
    change (shr_m _) with (Z.pos (2 ^ 52)). cbv iota beta.
    change (emax - prec) with 971.
    destruct (Z.leb_spec (e + 1) 971) as [Hle|]; [|done].
    unfold valid_binary, bounded, canonical_mantissa.
    change (Z.pos (digits2_pos (2 ^ 52))) with 53.
    rewrite fexp_eq. apply andb_true_intro.
    split; [apply Z.eqb_eq|apply Z.leb_le]; change (emax - prec) with 971; lia.
  - destruct m as [|p|p]; [done| |lia].
    destruct (digits2_pos_spec p) as [Hd1 Hd2].
    assert (Z.pos (digits2_pos p) ≤ 53) as Hdg.
    { destruct (Z.le_gt_cases (Z.pos (digits2_pos p)) 53) as [|Hgt]; [done|].
      assert (2 ^ 53 ≤ 2 ^ (Z.pos (digits2_pos p) - 1))
        by (apply Z.pow_le_mono_r; lia). lia. }
    assert (bounded prec emax p e = (e <=? 971)) as Hb.
    { unfold bounded, canonical_mantissa. rewrite fexp_eq.
      assert (Z.max (Z.pos (digits2_pos p) + e - 53) (-1074) = e) as ->; [|by rewrite Z.eqb_refl].
      destruct Hcan as [->|Hbig]; [lia|].
      assert (Z.pos (digits2_pos p) = 53); [|lia].
      destruct (Z.eq_dec (Z.pos (digits2_pos p)) 53) as [|Hne']; [done|].
      assert (2 ^ Z.pos (digits2_pos p) ≤ 2 ^ 52) by (apply Z.pow_le_mono_r; lia). lia. }
    destruct (e <=? 971) eqn:He.
    + by rewrite (finalize_canonical neg p e Hb).
    + unfold finalize, shr_fexp. simpl Zdigits2. rewrite fexp_eq.
      assert (Z.max (Z.pos (digits2_pos p) + e - 53) (-1074) - e ≤ 0) as Hsh by lia.
      destruct (Z.max (Z.pos (digits2_pos p) + e - 53) (-1074) - e) eqn:E;
        [|lia|]; simpl; change (emax - prec) with 971; by rewrite He.
Qed.

Lemma canonical_at_rounded N D e :
  0 ≤ N → 0 < D → canonical_at N D e →
  0 ≤ round_nearest_even (N / D) (location_of N D) ≤ 2 ^ 53
  ∧ (e = -1074 ∨ 2 ^ 52 ≤ round_nearest_even (N / D) (location_of N D)).
Proof.
  intros HN HD [Hup Hlow].
  pose proof (round_nearest_even_bounds N D HN HD) as [Hb1 Hb2].
  pose proof (Z.div_pos N D HN HD) as Hq.
  assert (N / D < 2 ^ 53) as Hq2 by (apply Z.div_lt_upper_bound; lia).
  split; [lia|]. destruct Hlow as [|Hlow]; [by left|right].
  assert (2 ^ 52 ≤ N / D) by (apply Z.div_le_lower_bound; lia). lia.
Qed.

Lemma binary64_of_ratio_valid neg n d :
  valid_binary prec emax (binary64_of_ratio neg n d) = true.
Proof.
  destruct (binary64_of_ratio_truncation neg n d)
    as (s & k & Hs & Hk & Hmin & Hcan & ->).
  pose proof (pow2_pos s Hs) as PS. pose proof (pow2_pos k Hk) as PK.
  destruct (canonical_at_rounded (Z.pos n * 2 ^ s) (Z.pos d * 2 ^ k) (k - s))
    as [Hb Hc]; [nia|nia|done|].
  by apply finalize_valid.
Qed.

(** The sign goes through. *)
Lemma finalize_opp m e : finalize true m e = SFopp (finalize false m e).
Proof.
  unfold finalize. destruct (shr_fexp prec emax m e loc_Exact) as [mrs e'].
  destruct (shr_m mrs); [done| |done]. by destruct (e' <=? emax - prec).
Qed.

Lemma binary64_of_ratio_opp n d :
  binary64_of_ratio true n d = SFopp (binary64_of_ratio false n d).
Proof.
  unfold binary64_of_ratio, SFdiv.
  destruct (SFdiv_core_binary prec emax (Z.pos n) 0 (Z.pos d) 0) as [[mz ez] lz].
  rewrite !binary_round_aux_finalize. apply finalize_opp.
Qed.

(** ** A ratio near a binary64 value rounds to it *)

Lemma bounded_spec m e :
  bounded prec emax m e = true →
  Zpos m < 2 ^ 53 ∧ -1074 ≤ e ≤ 971 ∧ (e = -1074 ∨ 2 ^ 52 ≤ Zpos m).
Proof.
  unfold bounded, canonical_mantissa. intros [Hc He]%andb_prop.
  apply Z.eqb_eq in Hc. apply Z.leb_le in He. change (emax - prec) with 971 in He.
  rewrite fexp_eq in Hc. destruct (digits2_pos_spec m) as [Hd1 Hd2].
  set (dg := Z.pos (digits2_pos m)) in *.
  assert (0 < dg) by (unfold dg; lia).
  split; [|split; [lia|]].
  - assert (2 ^ dg ≤ 2 ^ 53) by (apply Z.pow_le_mono_r; lia). lia.
  - destruct (Z.eq_dec e (-1074)) as [|Hne]; [by left|right].
    assert (dg = 53) as Hdg by lia. rewrite Hdg in Hd1. exact Hd1.
Qed.

(** The value [m * 2 ^ e] is [m * 2 ^ a / 2 ^ b], the ratio is [n / d]:
    a ratio within one part in [2 * 10 ^ 16] of the value rounds to it. *)
Lemma binary64_of_ratio_near neg n d m e a b :
  bounded prec emax m e = true →
  0 ≤ a → 0 ≤ b → a - b = e →
  Z.abs (Zpos n * 2 ^ b - Zpos m * (Zpos d * 2 ^ a)) * (2 * 10 ^ 16)
    ≤ Zpos m * (Zpos d * 2 ^ a) →
  binary64_of_ratio neg n d = S754_finite neg m e.
Proof.
  intros Hbounded Ha Hb He Hclose.
  destruct (bounded_spec m e Hbounded) as (Hm & [Hlow Hup] & Hnorm).
  destruct (binary64_of_ratio_truncation neg n d)
    as (s & k & Hs & Hk & Hmin & Hcan & ->).
  pose proof (pow2_pos a Ha) as PA. pose proof (pow2_pos b Hb) as PB.
  pose proof (pow2_pos s Hs) as PS. pose proof (pow2_pos k Hk) as PK.
  set (N0 := Z.pos n * 2 ^ b) in *. set (D0 := Z.pos d * 2 ^ a) in *.
  assert (0 < N0) as HN0 by (unfold N0; nia).
  assert (0 < D0) as HD0 by (unfold D0; nia).
  set (P := Z.pos m * D0) in *.
  assert (P ≤ (2 ^ 53 - 1) * D0) as HP1 by (unfold P; nia).
  assert (D0 ≤ P) as HP0 by (unfold P; nia).
  change (2 ^ 53) with 9007199254740992 in *.
  change (2 ^ 52) with 4503599627370496 in *.
  change (10 ^ 16) with 10000000000000000 in *.
  assert (e = -1074 ∨ 4503599627370496 * D0 ≤ N0 →
          finalize neg
            (round_nearest_even (Z.pos n * 2 ^ s / (Z.pos d * 2 ^ k))
               (location_of (Z.pos n * 2 ^ s) (Z.pos d * 2 ^ k))) (k - s)
          = S754_finite neg m e) as Hsame.
  { intros Hin.
    assert (canonical_at (Z.pos n * 2 ^ b) (Z.pos d * 2 ^ a) (a - b)) as Hcan0.
    { split; fold N0 D0; change (2 ^ 53) with 9007199254740992;
        change (2 ^ 52) with 4503599627370496; lia. }
    assert (k - s = a - b) as HE.
    { apply (canonical_at_unique (Zpos n) (Zpos d) (Zpos n) (Zpos d));
        first [done|lia]. }
    destruct (truncation_shift (Zpos n) (Zpos d) (Zpos n) (Zpos d) s k b a)
      as [-> ->]; try done. fold N0 D0.
    rewrite (round_nearest_even_near N0 D0 (Z.pos m)); [|lia|lia|fold P; lia].
    rewrite HE, He. by apply finalize_canonical. }
  destruct (Z.le_gt_cases (4503599627370496 * D0) N0) as [Hin|Hout];
    [by apply Hsame; right|].
  destruct (Z.eq_dec e (-1074)) as [Hemin|Hemin]; [by apply Hsame; left|].
  clear Hsame.
  (* the ratio lies below the binade of the value *)
  assert (Z.pos m = 4503599627370496) as Hm52.
  { destruct Hnorm as [|Hnorm]; [done|].
    destruct (Z.eq_dec (Z.pos m) 4503599627370496) as [|Hne]; [done|exfalso].
    assert (4503599627370497 * D0 ≤ P) by (unfold P; nia). lia. }
  assert (P = 4503599627370496 * D0) as HP by (unfold P; lia).
  assert (canonical_at (Z.pos n * 2 ^ (b + 1)) (Z.pos d * 2 ^ a) (a - (b + 1)))
    as Hcan1.
  { rewrite Z.pow_add_r, Z.pow_1_r, Z.mul_assoc by lia. fold N0 D0.
    split; change (2 ^ 53) with 9007199254740992;
      change (2 ^ 52) with 4503599627370496; lia. }
  assert (k - s = a - (b + 1)) as HE
    by (apply (canonical_at_unique (Zpos n) (Zpos d) (Zpos n) (Zpos d));
        first [done|lia]).
  destruct (truncation_shift (Zpos n) (Zpos d) (Zpos n) (Zpos d) s k (b + 1) a)
    as [-> ->]; try done; try lia.
  rewrite Z.pow_add_r, Z.pow_1_r, Z.mul_assoc by lia. fold N0 D0.
  rewrite (round_nearest_even_near (N0 * 2) D0 9007199254740992); [|lia..].
  rewrite HE. replace (a - (b + 1)) with (e - 1) by lia.
  change 9007199254740992 with (2 ^ 53).
  rewrite finalize_carry by lia. f_equal; [|lia].
  apply Pos2Z.inj. by rewrite Hm52.
Qed.

(** ** Decimals *)

Lemma pow10_pos k : 0 ≤ k → 0 < 10 ^ k.
Proof. intros. apply Z.pow_pos_nonneg; lia. Qed.

(** [float_of_decimal] rounds the ratio [c * 10 ^ k]. *)
Lemma float_of_decimal_ratio neg c k :
  0 < c →
  float_of_decimal neg c k
  = binary64_of_ratio neg (Z.to_pos (c * 10 ^ Z.max 0 k))
      (Z.to_pos (10 ^ Z.max 0 (- k))).
Proof.
  intros Hc. unfold float_of_decimal. destruct c as [|m|m]; [lia| |lia].
  destruct (Z.leb_spec 0 k) as [Hk|Hk].
  - replace (Z.max 0 k) with k by lia. replace (Z.max 0 (- k)) with 0 by lia.
    f_equal. pose proof (pow10_pos k Hk).
    apply Pos2Z.inj. rewrite Pos2Z.inj_mul, !Z2Pos.id by nia. done.
  - replace (Z.max 0 k) with 0 by lia. replace (Z.max 0 (- k)) with (- k) by lia.
    f_equal. by rewrite Z.pow_0_r, Z.mul_1_r.
Qed.

Lemma float_of_decimal_ext neg c k c' k' :
  0 < c → 0 < c' →
  c * 10 ^ Z.max 0 k * 10 ^ Z.max 0 (- k')
  = c' * 10 ^ Z.max 0 k' * 10 ^ Z.max 0 (- k) →
  float_of_decimal neg c k = float_of_decimal neg c' k'.
Proof.
  intros Hc Hc' Heq. rewrite !float_of_decimal_ratio by done.
  pose proof (pow10_pos (Z.max 0 k) ltac:(lia)).
  pose proof (pow10_pos (Z.max 0 (- k)) ltac:(lia)).
  pose proof (pow10_pos (Z.max 0 k') ltac:(lia)).
  pose proof (pow10_pos (Z.max 0 (- k')) ltac:(lia)).
  apply binary64_of_ratio_ext. rewrite !Z2Pos.id by nia. exact Heq.
Qed.

(** Zeros at the end of the digits are the same as a larger exponent. *)
Lemma float_of_decimal_scale neg c j k :
  0 < c → 0 ≤ j →
  float_of_decimal neg (c * 10 ^ j) (k - j) = float_of_decimal neg c k.
Proof.
  intros Hc Hj. pose proof (pow10_pos j Hj).
  apply float_of_decimal_ext; [nia|done|].
  rewrite <- !Z.mul_assoc. f_equal. rewrite <- !Z.pow_add_r by lia.
  f_equal. lia.
Qed.

Lemma float_of_decimal_opp c k :
  float_of_decimal true c k = SFopp (float_of_decimal false c k).
Proof.
  unfold float_of_decimal. destruct c as [|m|m]; [done| |done].
  destruct (0 <=? k); apply binary64_of_ratio_opp.
Qed.

Lemma float_of_decimal_valid neg c k :
  valid_binary prec emax (float_of_decimal neg c k) = true.
Proof.
  unfold float_of_decimal. destruct c as [|m|m]; [done| |done].
  destruct (0 <=? k); apply binary64_of_ratio_valid.
Qed.

(** A decimal within one part in [2 * 10 ^ 16] of a binary64 value reads
    as that value. *)
Lemma float_of_decimal_near c k m e :
  bounded prec emax m e = true → 0 < c →
  Z.abs (c * 10 ^ Z.max 0 k * 2 ^ Z.max 0 (- e)
         - Zpos m * 2 ^ Z.max 0 e * 10 ^ Z.max 0 (- k)) * (2 * 10 ^ 16)
    ≤ Zpos m * 2 ^ Z.max 0 e * 10 ^ Z.max 0 (- k) →
  float_of_decimal false c k = S754_finite false m e.
Proof.
  intros Hb Hc Hclose. rewrite float_of_decimal_ratio by done.
  pose proof (pow10_pos (Z.max 0 k) ltac:(lia)).
  pose proof (pow10_pos (Z.max 0 (- k)) ltac:(lia)).
  apply (binary64_of_ratio_near false _ _ m e (Z.max 0 e) (Z.max 0 (- e)));
    [done|lia|lia|lia|].
  rewrite !Z2Pos.id by nia.
  replace (Z.pos m * (10 ^ Z.max 0 (- k) * 2 ^ Z.max 0 e))
    with (Z.pos m * 2 ^ Z.max 0 e * 10 ^ Z.max 0 (- k)) by ring.
  exact Hclose.
Qed.

(** ** The number of decimal digits *)

Lemma of_uint_acc_bounds d acc :
  Zpos acc * 10 ^ Z.of_nat (nb_digits d)
  ≤ Zpos (Pos.of_uint_acc d acc)
  < (Zpos acc + 1) * 10 ^ Z.of_nat (nb_digits d).
Proof.
  revert acc. induction d as [|d IH|d IH|d IH|d IH|d IH|d IH|d IH|d IH|d IH|d IH];
    intros acc; [simpl; lia|..];
    simpl Pos.of_uint_acc; simpl nb_digits; rewrite Nat2Z.inj_succ, Z.pow_succ_r by lia;
    match goal with |- context [Pos.of_uint_acc d ?a] => specialize (IH a) end;
    pose proof (pow10_pos (Z.of_nat (nb_digits d)) ltac:(lia)); nia.
Qed.

Lemma nb_digits10_spec p :
  10 ^ (nb_digits10 p - 1) ≤ Zpos p < 10 ^ nb_digits10 p.
Proof.
  unfold nb_digits10.
  pose proof (DecimalPos.Unsigned.of_to p) as Hof.
  pose proof (DecimalPos.Unsigned.to_of (Pos.to_uint p)) as Hto.
  rewrite Hof in Hto. simpl N.to_uint in Hto.
  pose proof (DecimalPos.Unsigned.to_uint_nonzero p) as Hnz.
  destruct (Pos.to_uint p) as [|d|d|d|d|d|d|d|d|d|d] eqn:E; [done|..].
  { exfalso. unfold unorm in Hto. rewrite DecimalFacts.nzhead_D0 in Hto.
    destruct (nzhead d) eqn:En; try done.
    injection Hto as Hto. subst. by eapply DecimalFacts.nzhead_nonzero. }
  all: simpl in Hof; injection Hof as <-; simpl nb_digits;
    rewrite Nat2Z.inj_succ; replace (Z.succ (Z.of_nat (nb_digits d)) - 1)
      with (Z.of_nat (nb_digits d)) by lia;
    rewrite Z.pow_succ_r by lia;
    match goal with |- context [Pos.of_uint_acc ?u ?a] =>
      pose proof (of_uint_acc_bounds u a) end; lia.
Qed.

Lemma nb_digits10_pos p : 0 < nb_digits10 p.
Proof.
  destruct (nb_digits10_spec p) as [_ H].
  destruct (Z.le_gt_cases (nb_digits10 p) 0) as [Hle|]; [|done].
  assert (10 ^ nb_digits10 p ≤ 10 ^ 0) by (apply Z.pow_le_mono_r; lia).
  simpl in *. lia.
Qed.

(** [floor_log10] does not exceed the logarithm. *)
Lemma floor_log10_le n d :
  Zpos d * 10 ^ Z.max 0 (floor_log10 n d)
  ≤ Zpos n * 10 ^ Z.max 0 (- floor_log10 n d).
Proof.
  unfold floor_log10. destruct (Pos.leb_spec d n) as [Hle|Hlt].
  - assert (0 < Zpos n / Zpos d) as Hq by (apply Z.div_str_pos; lia).
    destruct (nb_digits10_spec (Z.to_pos (Zpos n / Zpos d))) as [H1 _].
    pose proof (nb_digits10_pos (Z.to_pos (Zpos n / Zpos d))) as Hp.
    rewrite Z2Pos.id in H1 by done.
    set (t := nb_digits10 (Z.to_pos (Z.pos n / Z.pos d))) in *.
    replace (Z.max 0 (t - 1)) with (t - 1) by lia.
    replace (Z.max 0 (- (t - 1))) with 0 by lia.
    rewrite Z.pow_0_r, Z.mul_1_r.
    pose proof (Z.mul_div_le (Zpos n) (Zpos d) ltac:(lia)). nia.
  - assert (0 < Zpos d / Zpos n) as Hq by (apply Z.div_str_pos; lia).
    destruct (nb_digits10_spec (Z.to_pos (Zpos d / Zpos n))) as [_ H2].
    pose proof (nb_digits10_pos (Z.to_pos (Zpos d / Zpos n))) as Hp.
    rewrite Z2Pos.id in H2 by done.
    set (t := nb_digits10 (Z.to_pos (Z.pos d / Z.pos n))) in *.
    destruct (Z.leb_spec (Z.pos d) (Z.pos n * 10 ^ (t - 1))) as [Hin|Hout].
    + replace (Z.max 0 (- (t - 1))) with 0 by lia.
      replace (Z.max 0 (- - (t - 1))) with (t - 1) by lia.
      by rewrite Z.pow_0_r, Z.mul_1_r.
    + replace (Z.max 0 (- t)) with 0 by lia.
      replace (Z.max 0 (- - t)) with t by lia.
      rewrite Z.pow_0_r, Z.mul_1_r.
      assert (Zpos d < 10 ^ t * Zpos n); [|lia].
      apply div_lt_pow; [lia|done].
Qed.

Lemma scale10_eq n d k :
  scale10 n d k
  = (Zpos n * 10 ^ Z.max 0 (- k), Zpos d * 10 ^ Z.max 0 k).
Proof.
  unfold scale10. destruct (Z.leb_spec 0 k).
  - replace (Z.max 0 (- k)) with 0 by lia. replace (Z.max 0 k) with k by lia.
    by rewrite Z.pow_0_r, Z.mul_1_r.
  - replace (Z.max 0 (- k)) with (- k) by lia. replace (Z.max 0 k) with 0 by lia.
    by rewrite Z.pow_0_r, Z.mul_1_r.
Qed.

Lemma nearest_digits_near num den :
  0 ≤ num → 0 < den →
  Z.abs (nearest_digits num den * den - num) * 2 ≤ den
  ∧ num / den ≤ nearest_digits num den.
Proof.
  intros Hn Hd. unfold nearest_digits.
  pose proof (Z.div_mod num den ltac:(lia)) as E.
  pose proof (Z.mod_pos_bound num den Hd) as B.
  set (lo := num / den) in *. set (r := num mod den) in *.
  destruct (Z.compare_spec (2 * r) den);
    [destruct (Z.even lo)|..]; split; nia.
Qed.

(** Seventeen digits are enough: the nearest decimal with the leading
    digit at [floor_log10] and sixteen more reads back as the value. *)
Lemma seventeen_digits m e :
  bounded prec emax m e = true →
  let n := (m * Z.to_pos (2 ^ e))%positive in
  let d := Z.to_pos (2 ^ (- e)) in
  let k := floor_log10 n d - 16 in
  float_of_decimal false
    (nearest_digits (scale10 n d k).1 (scale10 n d k).2) k
  = S754_finite false m e.
Proof.
  intros Hb n d k. rewrite scale10_eq. cbn [fst snd].
  assert (Zpos n = Zpos m * 2 ^ Z.max 0 e ∧ Zpos d = 2 ^ Z.max 0 (- e)) as [Hn Hd].
  { unfold n, d. rewrite Pos2Z.inj_mul. destruct (Z.le_gt_cases 0 e) as [He|He].
    - replace (Z.max 0 e) with e by lia. replace (Z.max 0 (- e)) with 0 by lia.
      rewrite Z2Pos.id by (by apply pow2_pos).
      destruct (Z.eq_dec e 0) as [->|]; [done|].
      by rewrite (Z.pow_neg_r 2 (- e)) by lia.
    - replace (Z.max 0 e) with 0 by lia. replace (Z.max 0 (- e)) with (- e) by lia.
      rewrite (Z.pow_neg_r 2 e) by lia. change (Z.to_pos 0) with 1%positive.
      rewrite Z2Pos.id by (apply pow2_pos; lia). split; [lia|done]. }
  pose proof (floor_log10_le n d) as Hlog.
  set (p := floor_log10 n d) in *.
  pose proof (pow10_pos (Z.max 0 k) ltac:(lia)) as P1.
  pose proof (pow10_pos (Z.max 0 (- k)) ltac:(lia)) as P2.
  set (num := Z.pos n * 10 ^ Z.max 0 (- k)).
  set (den := Z.pos d * 10 ^ Z.max 0 k).
  assert (0 < num) as Hnum by (unfold num; nia).
  assert (0 < den) as Hden by (unfold den; nia).
  assert (10 ^ 16 * den ≤ num) as Hbig.
  { unfold num, den, k in *.
    destruct (Z.le_gt_cases 16 p) as [Hp|Hp]; [|destruct (Z.le_gt_cases 0 p) as [Hp'|Hp']].
    - replace (Z.max 0 (- (p - 16))) with 0 in * by lia.
      replace (Z.max 0 (p - 16)) with (p - 16) in * by lia.
      replace (Z.max 0 p) with (16 + (p - 16)) in Hlog by lia.
      replace (Z.max 0 (- p)) with 0 in Hlog by lia.
      rewrite Z.pow_add_r in Hlog by lia. rewrite Z.pow_0_r, Z.mul_1_r in *. nia.
    - replace (Z.max 0 (- (p - 16))) with (16 - p) in * by lia.
      replace (Z.max 0 (p - 16)) with 0 in * by lia.
      replace (Z.max 0 p) with p in Hlog by lia.
      replace (Z.max 0 (- p)) with 0 in Hlog by lia.
      rewrite Z.pow_0_r, Z.mul_1_r in *.
      assert (10 ^ 16 = 10 ^ p * 10 ^ (16 - p)) as ->
        by (rewrite <- Z.pow_add_r by lia; f_equal; lia).
      pose proof (pow10_pos p Hp'). nia.
    - replace (Z.max 0 (- (p - 16))) with (16 + - p) in * by lia.
      replace (Z.max 0 (p - 16)) with 0 in * by lia.
      replace (Z.max 0 p) with 0 in Hlog by lia.
      replace (Z.max 0 (- p)) with (- p) in Hlog by lia.
      rewrite Z.pow_add_r by lia. rewrite Z.pow_0_r, Z.mul_1_r in *.
      nia. }
  destruct (nearest_digits_near num den ltac:(lia) Hden) as [Hnear Hlo].
  set (c := nearest_digits num den) in *.
  assert (10 ^ 16 ≤ num / den) as Hq by (apply Z.div_le_lower_bound; lia).
  assert (0 < c) as Hc by (change (10 ^ 16) with 10000000000000000 in Hq; lia).
  apply float_of_decimal_near; [done|done|].
  rewrite <- Hn.
  replace (c * 10 ^ Z.max 0 k * 2 ^ Z.max 0 (- e)) with (c * den)
    by (unfold den; rewrite Hd; ring).
  fold num. change (10 ^ 16) with 10000000000000000 in *. lia.
Qed.

(** ** The digits that [repr] chooses *)

Lemma float_eq_finite y m e :
  float_eq y (S754_finite false m e) = true → y = S754_finite false m e.
Proof.
  unfold float_eq, SFeqb.
  destruct y as [s|s| |s m' e']; simpl; try done;
    try (by destruct s).
  destruct s; [done|].
  destruct (Z.compare_spec e' e) as [->| |]; try done.
  destruct (Pos.compare_cont Eq m' m) eqn:Hm; try done.
  intros _. by apply Pos.compare_eq in Hm as ->.
Qed.

Lemma pick_digits_reads x num den k c :
  pick_digits x num den k = Some c →
  float_eq (float_of_decimal false c k) x = true.
Proof.
  unfold pick_digits.
  destruct (float_eq (float_of_decimal false (num / den) k) x) eqn:Hlo,
    (float_eq (float_of_decimal false (num / den + 1) k) x) eqn:Hhi;
    intros [= <-]; try done.
  destruct (2 * (num mod den) ?= den); [destruct (Z.even (num / den))|..]; done.
Qed.

Lemma shortest_digits_reads m e n d p ndig fuel :
  (let k := p - 16 in
   float_of_decimal false (nearest_digits (scale10 n d k).1 (scale10 n d k).2) k
   = S754_finite false m e) →
  float_of_decimal false
    (shortest_digits (S754_finite false m e) n d p ndig fuel).1
    (shortest_digits (S754_finite false m e) n d p ndig fuel).2
  = S754_finite false m e.
Proof.
  intros Hfall. revert ndig. induction fuel as [|fuel IH]; intros ndig; simpl.
  - cbv zeta in Hfall. by destruct (scale10 n d (p - 16)) as [num den].
  - destruct (scale10 n d (p - ndig + 1)) as [num den].
    destruct (pick_digits (S754_finite false m e) num den (p - ndig + 1))
      as [c|] eqn:Hpick; [|apply IH].
    simpl. by apply float_eq_finite, (pick_digits_reads _ num den).
Qed.

Lemma strip_zeros_value fuel c k :
  0 < c →
  ∃ j, 0 ≤ j ∧ 0 < (strip_zeros fuel c k).1
       ∧ c = (strip_zeros fuel c k).1 * 10 ^ j
       ∧ (strip_zeros fuel c k).2 = k + j.
Proof.
  revert c k. induction fuel as [|fuel IH]; intros c k Hc; simpl.
  { exists 0. rewrite Z.pow_0_r. lia. }
  destruct (Z.ltb_spec 0 c) as [_|]; [|lia].
  destruct (Z.eqb_spec (c mod 10) 0) as [Hmod|_]; simpl.
  - pose proof (Z.div_mod c 10 ltac:(lia)) as Hdiv.
    destruct (IH (c / 10) (k + 1) ltac:(lia)) as (j & Hj & Hpos & Hval & Hk).
    exists (j + 1). rewrite Z.pow_add_r, Z.pow_1_r by lia.
    split; [lia|]. split; [done|]. split; [|lia].
    rewrite Z.mul_assoc, <- Hval. lia.
  - exists 0. rewrite Z.pow_0_r. lia.
Qed.

(** The digits and the exponent with which [repr] writes a finite value
    read back as its absolute value. *)
Lemma repr_digits_read (neg : bool) m e :
  bounded prec emax m e = true →
  let n := (m * Z.to_pos (2 ^ e))%positive in
  let d := Z.to_pos (2 ^ (- e)) in
  let ck := shortest_digits (S754_finite false m e) n d (floor_log10 n d) 1 17 in
  let ck' := strip_zeros 20 ck.1 ck.2 in
  0 < ck'.1 ∧ float_of_decimal neg ck'.1 ck'.2 = S754_finite neg m e.
Proof.
  intros Hb n d ck ck'.
  pose proof (shortest_digits_reads m e n d (floor_log10 n d) 1 17
                (seventeen_digits m e Hb)) as Hread.
  fold n d in Hread. fold ck in Hread.
  assert (0 < ck.1) as Hc.
  { destruct (Z.lt_ge_cases 0 ck.1) as [|Hle]; [done|exfalso].
    unfold float_of_decimal in Hread. by destruct ck.1. }
  destruct (strip_zeros_value 20 ck.1 ck.2 Hc) as (j & Hj & Hpos & Hval & Hk).
  fold ck' in Hpos, Hval, Hk. split; [done|].
  assert (float_of_decimal false ck'.1 ck'.2 = S754_finite false m e) as Hfalse.
  { rewrite <- Hread.
    rewrite <- (float_of_decimal_scale false ck'.1 j ck'.2) by done.
    f_equal; [by rewrite <- Hval|lia]. }
  destruct neg; [|done]. by rewrite float_of_decimal_opp, Hfalse.
Qed.

(** ** The number that digits write *)

Lemma string_length_app (s t : string) :
  String.length (s +:+ t) = (String.length s + String.length t)%nat.
Proof. induction s as [|c s IH]; [done|]. rewrite string_app_cons. simpl. by rewrite IH. Qed.

Lemma read_digits_digits_app a b acc n :
  digits a = true →
  read_digits (a +:+ b) acc n
  = read_digits b (acc * 10 ^ Z.of_nat (String.length a) + digits_value a)
      (n + Z.of_nat (String.length a)).
Proof.
  revert b acc n. induction a as [|c a IH]; intros b acc n Ha.
  { rewrite string_app_nil_l. simpl. f_equal; unfold digits_value; simpl; lia. }
  simpl in Ha. apply andb_prop in Ha as [Hc Ha].
  rewrite string_app_cons. simpl read_digits. rewrite Hc.
  rewrite IH by done.
  assert (digits_value (String c a)
          = digit_value c * 10 ^ Z.of_nat (String.length a) + digits_value a) as ->.
  { unfold digits_value at 1. simpl read_digits. rewrite Hc.
    rewrite <- (string_app_nil_r a) at 1. rewrite IH by done. simpl. lia. }
  simpl String.length. rewrite Nat2Z.inj_succ, Z.pow_succ_r by lia.
  f_equal; lia.
Qed.

Lemma read_digits_stop rest acc n :
  not_digit_head rest → read_digits rest acc n = (acc, n, rest).
Proof. destruct rest as [|c rest]; [done|]. simpl. by intros ->. Qed.

Lemma read_digits_value d rest acc n :
  digits d = true → not_digit_head rest →
  read_digits (d +:+ rest) acc n
  = (acc * 10 ^ Z.of_nat (String.length d) + digits_value d,
     n + Z.of_nat (String.length d), rest).
Proof.
  intros Hd Hrest. rewrite read_digits_digits_app by done.
  by apply read_digits_stop.
Qed.

Lemma digits_value_app a b :
  digits a = true → digits b = true →
  digits_value (a +:+ b)
  = digits_value a * 10 ^ Z.of_nat (String.length b) + digits_value b.
Proof.
  intros Ha Hb. unfold digits_value at 1.
  rewrite read_digits_digits_app by done.
  rewrite <- (string_app_nil_r b) at 1.
  rewrite read_digits_value by done. simpl. lia.
Qed.

Lemma digits_value_zeros n : digits_value (zeros n) = 0.
Proof.
  induction n as [|n IH]; [done|].
  change (zeros (S n)) with ("0" +:+ zeros n).
  rewrite digits_value_app, IH; [done|done|apply digits_zeros].
Qed.

Lemma string_length_zeros n : String.length (zeros n) = n.
Proof. induction n as [|n IH]; [done|]. simpl. by rewrite IH. Qed.

Lemma read_digits_of_uint_acc u a n :
  (read_digits (NilEmpty.string_of_uint u) (Zpos a) n).1.1
  = Zpos (Pos.of_uint_acc u a).
Proof.
  revert a n.
  induction u as [|u IH|u IH|u IH|u IH|u IH|u IH|u IH|u IH|u IH|u IH];
    intros a n; [done|..];
    simpl NilEmpty.string_of_uint; simpl Pos.of_uint_acc;
    unfold read_digits; fold read_digits;
    match goal with |- context [isdigit ?c] => change (isdigit c) with true end;
    cbv iota;
    match goal with |- context [read_digits _ ?acc ?m] =>
      match goal with |- context [Pos.of_uint_acc u ?b] =>
        replace acc with (Zpos b) by (unfold digit_value, code; simpl; lia)
      end
    end; apply IH.
Qed.

Lemma read_digits_of_uint u n :
  (read_digits (NilEmpty.string_of_uint u) 0 n).1.1 = Z.of_N (Pos.of_uint u).
Proof.
  revert n.
  induction u as [|u IH|u IH|u IH|u IH|u IH|u IH|u IH|u IH|u IH|u IH];
    intros n; [done|..];
    simpl NilEmpty.string_of_uint; simpl Pos.of_uint;
    unfold read_digits; fold read_digits;
    match goal with |- context [isdigit ?c] => change (isdigit c) with true end;
    cbv iota; [apply IH|..]; apply read_digits_of_uint_acc.
Qed.

Lemma digits_value_digits_string c : 0 ≤ c → digits_value (digits_string c) = c.
Proof.
  intros Hc. unfold digits_string, digits_value.
  destruct (Z.to_N c) as [|p] eqn:E.
  { assert (c = 0) as -> by lia. done. }
  simpl N.to_uint.
  assert (NilZero.string_of_uint (Pos.to_uint p)
          = NilEmpty.string_of_uint (Pos.to_uint p)) as ->.
  { pose proof (DecimalPos.Unsigned.to_uint_nonnil p).
    by destruct (Pos.to_uint p). }
  rewrite read_digits_of_uint, DecimalPos.Unsigned.of_to. lia.
Qed.

(** ** The number that a literal writes *)

Lemma parse_exp_value (neg : bool) (m nf : Z) t :
  exp_part t →
  match t with
  | EmptyString => Some (float_of_decimal neg m (- nf))
  | String c s4 =>
      if is_e c then
        let '(eneg, s5) := read_sign s4 in
        let '(ev, ne, s6) := read_digits s5 0 0 in
        if (ne =? 0) || negb (is_empty s6) then None
        else Some (float_of_decimal neg m ((if eneg then - ev else ev) - nf))
      else None
  end = Some (float_of_decimal neg m (exp_value t - nf)).
Proof.
  intros [|eneg d Hd Hne]; [done|].
  change (is_e "e") with true. cbv iota. unfold exp_value.
  assert (read_sign (String (if eneg then "-" else "+")%char d) = (eneg, d))
    as -> by by destruct eneg.
  pose proof (read_digits_value d "" 0 0 Hd I) as Hev.
  rewrite string_app_nil_r in Hev. rewrite Hev. cbv beta iota zeta.
  destruct d as [|c d]; [done|]. simpl String.length.
  replace (0 + Z.of_nat (S (String.length d)) =? 0) with false
    by (symmetry; apply Z.eqb_neq; lia).
  simpl orb. cbv iota.
  by replace (0 * 10 ^ Z.of_nat (S (String.length d)) + digits_value (String c d))
    with (digits_value (String c d)) by lia.
Qed.

Lemma parse_decimal_value neg d f t :
  digits d = true → d ≠ "" → frac_part f → exp_part t →
  parse_decimal ((if neg : bool then "-" else "") +:+ d +:+ f +:+ t)
  = Some (float_of_decimal neg
            (digits_value d * 10 ^ Z.of_nat (String.length (frac_digits f))
             + digits_value (frac_digits f))
            (exp_value t - Z.of_nat (String.length (frac_digits f)))).
Proof.
  intros Hd Hne Hf Ht.
  destruct (exp_part_head t Ht) as [Hthead Htdot].
  unfold parse_decimal.
  assert (read_sign ((if neg then "-" else "") +:+ d +:+ f +:+ t)
          = (neg, d +:+ f +:+ t)) as ->.
  { destruct neg; [done|]. rewrite string_app_nil_l.
    destruct d as [|c d]; [done|]. simpl in Hd. apply andb_prop in Hd as [Hc _].
    rewrite string_app_cons. by apply read_sign_digit. }
  cbv beta iota zeta.
  assert (not_digit_head (f +:+ t)) as Hhead.
  { destruct Hf as [|d2 Hd2]; [by rewrite string_app_nil_l|done]. }
  rewrite (read_digits_value d (f +:+ t) 0 0 Hd Hhead).
  cbv beta iota zeta.
  assert (0 < 0 + Z.of_nat (String.length d)) as Hni.
  { destruct d; [done|]. simpl String.length. lia. }
  destruct Hf as [|d2 Hd2].
  - rewrite string_app_nil_l.
    assert (match t with
            | String "." s2' =>
                read_digits s2' (0 * 10 ^ Z.of_nat (String.length d) + digits_value d) 0
            | _ => (0 * 10 ^ Z.of_nat (String.length d) + digits_value d, 0, t)
            end = (0 * 10 ^ Z.of_nat (String.length d) + digits_value d, 0, t)) as ->.
    { destruct Ht; done. }
    cbv beta iota zeta.
    replace (0 + Z.of_nat (String.length d) + 0 =? 0) with false
      by (symmetry; apply Z.eqb_neq; lia).
    rewrite parse_exp_value by done. simpl frac_digits. simpl String.length.
    change (digits_value "") with 0. rewrite Z.pow_0_r.
    replace (0 * 10 ^ Z.of_nat (String.length d) + digits_value d)
      with (digits_value d * 1 + 0) by lia.
    by replace (exp_value t - 0) with (exp_value t - Z.of_nat 0) by lia.
  - rewrite string_app_cons. cbv beta iota zeta.
    rewrite (read_digits_value d2 t _ 0 Hd2 Hthead).
    cbv beta iota zeta.
    replace (0 + Z.of_nat (String.length d) + (0 + Z.of_nat (String.length d2)) =? 0)
      with false by (symmetry; apply Z.eqb_neq; lia).
    rewrite parse_exp_value by done. simpl frac_digits.
    replace ((0 * 10 ^ Z.of_nat (String.length d) + digits_value d)
             * 10 ^ Z.of_nat (String.length d2) + digits_value d2)
      with (digits_value d * 10 ^ Z.of_nat (String.length d2) + digits_value d2)
      by lia.
    by replace (0 + Z.of_nat (String.length d2)) with (Z.of_nat (String.length d2))
      by lia.
Qed.

(** [float] reads a decimal literal as [parse_decimal] does. *)
Lemma float_of_str_parse s x :
  decimal_literal s → parse_decimal s = Some x → float_of_str s = Ok x.
Proof.
  intros Hs Hx. pose proof (decimal_literal_chars s Hs) as Hchars.
  assert (∀ P : ascii → bool, (∀ c, literal_char c = true → P c = true) →
            all_chars P s = true) as Hall.
  { intros P HP. by apply (all_chars_impl literal_char). }
  unfold float_of_str, space_to_ascii.
  rewrite (replace_id (ascii_of_N 160)), (replace_id (ascii_of_N 133)),
    remove_underscores_id, lstrip_with_id, rstrip_with_id, ?Hx; try done;
    apply Hall; intros c Hc;
    try (by rewrite (literal_char_not_c_space c Hc));
    destruct (literal_char_plain c Hc) as (H1 & _ & H3 & H4);
    by rewrite ?H1, ?H3, ?H4.
Qed.

(** ** [float] reads what [format_digits] writes *)

Lemma substring_all s : substring 0 (String.length s) s = s.
Proof. induction s as [|c s IH]; [done|]. simpl. by rewrite IH. Qed.

Lemma substring_split k s :
  (k ≤ String.length s)%nat →
  substring 0 k s +:+ substring k (String.length s - k) s = s.
Proof.
  revert k. induction s as [|c s IH]; intros k Hk.
  { by destruct k. }
  destruct k as [|k].
  { rewrite Nat.sub_0_r, substring_all. by destruct s. }
  simpl in Hk. simpl. rewrite string_app_cons. f_equal. apply IH. lia.
Qed.

Lemma substring_0_length k s :
  (k ≤ String.length s)%nat → String.length (substring 0 k s) = k.
Proof.
  revert k. induction s as [|c s IH]; intros k Hk.
  { simpl in Hk. by destruct k; [|lia]. }
  destruct k as [|k]; [done|]. simpl in *. rewrite IH; lia.
Qed.

Lemma exp_value_tail e :
  let es := digits_string (Z.abs e) in
  exp_value ("e" +:+ (if e <? 0 then "-" else "+")
             +:+ (if Z.abs e <? 10 then "0" +:+ es else es)) = e.
Proof.
  intros es. destruct (digits_string_digits (Z.abs e)) as [Hes _]. fold es in Hes.
  assert (digits_value (if Z.abs e <? 10 then "0" +:+ es else es) = Z.abs e) as Hv.
  { destruct (Z.abs e <? 10).
    - rewrite (digits_value_app "0" es) by done.
      unfold es. rewrite digits_value_digits_string by lia.
      change (digits_value "0") with 0. lia.
    - unfold es. apply digits_value_digits_string. lia. }
  set (X := if Z.abs e <? 10 then "0" +:+ es else es) in *.
  destruct (Z.ltb_spec e 0).
  - change (exp_value ("e" +:+ "-" +:+ X)) with (- digits_value X). lia.
  - change (exp_value ("e" +:+ "+" +:+ X)) with (digits_value X). lia.
Qed.

Lemma format_digits_reads (neg : bool) ds decpt c :
  digits ds = true → ds ≠ "" → digits_value ds = c → 0 < c →
  float_of_str ((if neg then "-" else "") +:+ format_digits ds decpt)
  = Ok (float_of_decimal neg c (decpt - Z.of_nat (String.length ds))).
Proof.
  intros Hds Hne Hval Hc.
  assert (∀ d f t x,
            format_digits ds decpt = d +:+ f +:+ t →
            digits d = true → d ≠ "" → frac_part f → exp_part t →
            float_of_decimal neg
              (digits_value d * 10 ^ Z.of_nat (String.length (frac_digits f))
               + digits_value (frac_digits f))
              (exp_value t - Z.of_nat (String.length (frac_digits f))) = x →
            float_of_str ((if neg then "-" else "") +:+ format_digits ds decpt)
            = Ok x) as Hparts.
  { intros d f t x -> Hd Hdne Hf Ht <-. apply float_of_str_parse.
    - by exists neg, d, f, t.
    - by apply parse_decimal_value. }
  unfold format_digits in *.
  destruct ((decpt <=? -4) || (16 <? decpt)).
  { destruct (digits_string_digits (Z.abs (decpt - 1))) as [Hes Hesne].
    pose proof (exp_value_tail (decpt - 1)) as Hexp. cbv zeta in Hexp.
    set (es := digits_string (Z.abs (decpt - 1))) in *.
    set (tail := "e" +:+ (if decpt - 1 <? 0 then "-" else "+")
                 +:+ (if Z.abs (decpt - 1) <? 10 then "0" +:+ es else es)) in *.
    assert (exp_part tail) as Htail.
    { unfold tail. assert (∀ neg : bool, (if neg then "-" else "+")
                = String (if neg then "-" else "+")%char "") as ->
        by by intros [].
      apply (exp_some (decpt - 1 <? 0)); by destruct (_ <? 10). }
    destruct ds as [|c1 [|c2 r]]; [done|..].
    - apply (Hparts (String c1 "") "" tail); [by rewrite string_app_nil_l|done|done|constructor|done|].
      simpl frac_digits. simpl String.length. rewrite Hexp.
      change (digits_value "") with 0. rewrite Z.pow_0_r.
      f_equal; lia.
    - simpl in Hds. apply andb_prop in Hds as [Hc1 Hr].
      apply (Hparts (String c1 "") (String "." (String c2 r)) tail);
        [done|by unfold digits; simpl; rewrite Hc1|done|by constructor|done|].
      simpl frac_digits. rewrite Hexp.
      rewrite <- (digits_value_app (String c1 "") (String c2 r));
        [|by unfold digits; simpl; rewrite Hc1|done].
      change (String c1 "" +:+ String c2 r) with (String c1 (String c2 r)).
      rewrite Hval. f_equal. simpl String.length. lia. }
  destruct (decpt <=? 0) eqn:Hpos.
  { apply Z.leb_le in Hpos.
    assert (digits (zeros (Z.to_nat (- decpt)) +:+ ds) = true) as Hzd.
    { unfold digits. rewrite all_chars_app. fold (digits ds).
      by rewrite Hds, (digits_zeros _ : all_chars _ _ = _). }
    apply (Hparts "0" (String "." (zeros (Z.to_nat (- decpt)) +:+ ds)) "");
      [by rewrite string_app_nil_r|done|done|by constructor|constructor|].
    simpl frac_digits.
    rewrite digits_value_app, digits_value_zeros, Hval by (done || apply digits_zeros).
    rewrite string_length_app, string_length_zeros.
    change (digits_value "0") with 0. change (exp_value "") with 0.
    f_equal; lia. }
  destruct (Z.of_nat (String.length ds) <=? decpt) eqn:Hlen.
  { apply Z.leb_le in Hlen. apply Z.leb_gt in Hpos.
    set (z := Z.to_nat (decpt - Z.of_nat (String.length ds))).
    assert (digits (ds +:+ zeros z) = true) as Hdz.
    { unfold digits. rewrite all_chars_app. fold (digits ds).
      by rewrite Hds, (digits_zeros _ : all_chars _ _ = _). }
    apply (Hparts (ds +:+ zeros z) ".0" "");
      [by rewrite string_app_nil_r, string_app_assoc|done|by destruct ds
      |by constructor|constructor|].
    simpl frac_digits. simpl String.length.
    rewrite digits_value_app, digits_value_zeros, Hval by (done || apply digits_zeros).
    rewrite string_length_zeros.
    change (digits_value "0") with 0. change (exp_value "") with 0.
    rewrite <- (float_of_decimal_scale neg c (Z.of_nat z + 1)
                  (decpt - Z.of_nat (String.length ds))) by lia.
    f_equal; [|lia]. rewrite Z.pow_add_r, Z.pow_1_r by lia.
    change (10 ^ Z.of_nat 1) with 10. lia. }
  apply Z.leb_gt in Hpos. apply Z.leb_gt in Hlen.
  set (k := Z.to_nat decpt).
  set (sub1 := substring 0 k ds).
  set (sub2 := substring k (Z.to_nat (Z.of_nat (String.length ds) - decpt)) ds).
  assert (sub1 +:+ sub2 = ds) as Hsplit.
  { unfold sub1, sub2.
    replace (Z.to_nat (Z.of_nat (String.length ds) - decpt))
      with (String.length ds - k)%nat by lia.
    apply substring_split. lia. }
  assert (String.length sub1 = k) as Hl1 by (apply substring_0_length; lia).
  assert (String.length ds = (k + String.length sub2)%nat) as Hl2
    by (by rewrite <- Hsplit at 1; rewrite string_length_app, Hl1).
  assert (digits sub1 = true) as Hd1 by (by apply digits_substring).
  assert (digits sub2 = true) as Hd2 by (by apply digits_substring).
  apply (Hparts sub1 (String "." sub2) "");
    [by rewrite string_app_nil_r|done| |by constructor|constructor|].
  { intros Hn. rewrite Hn in Hl1. simpl in Hl1. lia. }
  simpl frac_digits. rewrite <- digits_value_app, Hsplit, Hval by done.
  change (exp_value "") with 0. f_equal. lia.
Qed.

(** ** What [float] reads is a binary64 value *)

Lemma parse_decimal_valid u x :
  parse_decimal u = Some x → valid_binary prec emax x = true.
Proof.
  unfold parse_decimal. intros H.
  repeat case_match; simplify_eq; apply float_of_decimal_valid.
Qed.

Lemma float_of_str_valid s x :
  float_of_str s = Ok x → valid_binary prec emax x = true.
Proof.
  unfold float_of_str. intros H.
  destruct (remove_underscores (space_to_ascii s) "000") as [t|]; [|done].
  cbv zeta in H.
  destruct (parse_decimal _) as [y|] eqn:Hy.
  { injection H as <-. by apply (parse_decimal_valid _ _ Hy). }
  unfold parse_inf_or_nan in H.
  repeat case_match; by simplify_eq.
Qed.

(** ** [float] reads back what [repr] wrote *)

Lemma float_repr_round_trip x :
  valid_binary prec emax x = true → float_of_str (float_repr x) = Ok x.
Proof.
  destruct x as [s|s| |s m e]; intros Hvalid.
  - by destruct s.
  - by destruct s.
  - done.
  - simpl in Hvalid.
    destruct (repr_digits_read s m e Hvalid) as [Hpos Hread].
    unfold float_repr.
    set (n := (m * Z.to_pos (2 ^ e))%positive) in *.
    set (d := Z.to_pos (2 ^ (- e))) in *.
    destruct (shortest_digits (S754_finite false m e) n d (floor_log10 n d) 1 17)
      as [c k].
    cbn [fst snd] in Hpos, Hread.
    destruct (strip_zeros 20 c k) as [c' k'].
    cbn [fst snd] in Hpos, Hread.
    destruct (digits_string_digits c') as [Hds Hne].
    rewrite (format_digits_reads s (digits_string c') _ c' Hds Hne);
      [|by apply digits_value_digits_string; lia|done].
    rewrite <- Hread. do 2 f_equal. lia.
Qed.

(** ** Formatting and parsing prices *)

Lemma split_format_price x c :
  token c → split (PM._format_price (x, c)) = [float_repr x; c].
Proof.
  intros Hc. apply (split_join [float_repr x; c]).
  constructor; [apply float_repr_token|]. constructor; [exact Hc|]. constructor.
Qed.

(** X9.  Formatting a price and parsing the string again.  When the
    currency is one token, the formatted string splits into what [repr]
    writes for the magnitude and the currency; [float] reads what [repr]
    wrote, and the parser returns that number with the same currency: it
    never takes a formatted price for a malformed one. *)
Theorem parse_formatted_price x c :
  token c →
  split (PM._format_price (x, c)) = [float_repr x; c]
  ∧ ∃ y, float_of_str (float_repr x) = Ok y
         ∧ OS._parse_price_string (PM._format_price (x, c)) = Ok (y, c).
Proof.
  intros Hc. pose proof (split_format_price x c Hc) as Hsplit.
  split; [done|]. destruct (float_repr_readable x) as [y Hy].
  exists y. split; [done|].
  unfold OS._parse_price_string, try_except.
  destruct (String.eqb_spec (PM._format_price (x, c)) "N/A") as [Heq|_].
  { by rewrite Heq in Hsplit. }
  rewrite Hsplit. simpl. unfold mbind, result_bind.
  by rewrite float_repr_no_comma, Hy.
Qed.

Lemma parse_formatted_price_witness :
  split (PM._format_price (S754_finite false 7926335344172073 (-54), "ETH"))
    = ["0.44"; "ETH"]
  ∧ ∃ y, float_of_str "0.44" = Ok y
         ∧ OS._parse_price_string "0.44 ETH" = Ok (y, "ETH").
Proof.
  apply (parse_formatted_price (S754_finite false 7926335344172073 (-54)) "ETH").
  split; [reflexivity|done].
Defined.

(** C9.  Parsing a display string of two tokens whose first is a number
    and formatting the price again: the formatted string has the two
    tokens that [repr] writes for the magnitude and the currency as it was;
    [float] reads the magnitude that [repr] wrote as the very number that
    was formatted, so that parsing the formatted string gives the price
    again, with no error at all.  (For [nan] this is the same value; its
    [==] is false.) *)
Theorem parse_format_round_trip price_string n c x :
  split price_string = [n; c] →
  float_of_str (replace "," "." n) = Ok x →
  OS._parse_price_string price_string = Ok (x, c)
  ∧ split (PM._format_price (x, c)) = [float_repr x; c]
  ∧ float_of_str (replace "," "." (float_repr x)) = Ok x
  ∧ OS._parse_price_string (PM._format_price (x, c)) = Ok (x, c).
Proof.
  intros Hsplit Hfloat.
  pose proof (float_repr_round_trip x (float_of_str_valid _ _ Hfloat)) as Hback.
  assert (token c) as Hc.
  { pose proof (split_tokens price_string) as Ht. rewrite Hsplit in Ht.
    by apply Forall_cons in Ht as [_ [Ht _]%Forall_cons]. }
  pose proof (split_format_price x c Hc) as Hsplit'.
  split; [by apply (parse_price_string_well_formed price_string n c x)|].
  split; [done|]. rewrite float_repr_no_comma. split; [done|].
  apply (parse_price_string_well_formed _ (float_repr x) c x); [done|].
  by rewrite float_repr_no_comma.
Qed.

Lemma parse_format_round_trip_witness :
  split "0,44 ETH" = ["0,44"; "ETH"]
  ∧ float_of_str (replace "," "." "0,44")
    = Ok (S754_finite false 7926335344172073 (-54))
  ∧ OS._parse_price_string "0,44 ETH"
    = Ok (S754_finite false 7926335344172073 (-54), "ETH")
  ∧ split (PM._format_price (S754_finite false 7926335344172073 (-54), "ETH"))
    = [float_repr (S754_finite false 7926335344172073 (-54)); "ETH"]
  ∧ float_of_str
      (replace "," "." (float_repr (S754_finite false 7926335344172073 (-54))))
    = Ok (S754_finite false 7926335344172073 (-54))
  ∧ OS._parse_price_string
      (PM._format_price (S754_finite false 7926335344172073 (-54), "ETH"))
    = Ok (S754_finite false 7926335344172073 (-54), "ETH").
Proof.
  assert (H1 : split "0,44 ETH" = ["0,44"; "ETH"]) by by_conversion.
  assert (H2 : float_of_str (replace "," "." "0,44")
               = Ok (S754_finite false 7926335344172073 (-54))) by by_conversion.
  split; [exact H1|]. split; [exact H2|].
  exact (parse_format_round_trip "0,44 ETH" "0,44" "ETH"
           (S754_finite false 7926335344172073 (-54)) H1 H2).
Defined.

(** ** The snapshot of [check_prices] *)

Lemma price_of_sound s :
  (price_of s).2 ≠ "UNKNOWN" → float_eq (price_of s).1 zero = false →
  sound_price (price_of s).
Proof.
  intros Hc Hz. split; [|done].
  revert Hc. unfold price_of, OS._parse_price_string, try_except.
  destruct (String.eqb_spec s "N/A") as [_|_]; [done|].
  pose proof (split_tokens s) as Htok.
  destruct (split s) as [|n [|c [|? ?]]]; simpl; try done.
  unfold mbind, result_bind. simpl.
  destruct (float_of_str (replace "," "." n)) as [x|e] eqn:Hfloat; simpl.
  - intros _. by inversion Htok as [|? ? _ [|? ? Hc' _]]; subst.
  - by rewrite (float_of_str_raises _ _ Hfloat).
Qed.

Lemma try_get_prices_parsed slug w ps :
  (OS._try_get_prices slug w).1 = Ok (Some ps) →
  ∃ s s', ps = OS.Prices (price_of s) (price_of s').
Proof.
  unfold OS._try_get_prices, next_session. unfold mbind at 1, st_bind. simpl.
  destruct (browser w 0%nat) as [e|p]; simpl; [done|].
  unfold st_try_finally, mbind, st_bind, lift. simpl.
  match goal with |- context [OS._scrape_price_data_with_timeout p slug ?w1] =>
    destruct (OS._scrape_price_data_with_timeout p slug w1) as [[[raw|]|e] w2]
  end; simpl; [|done..].
  rewrite !parse_price_string_price_of. simpl. intros [= <-]. by eexists _, _.
Qed.

Lemma attempts_parsed slug todo w ps :
  (OS.attempts slug todo w).1 = Ok (Some ps) →
  sound_price (OS.floor_price ps) ∧ sound_price (OS.best_offer ps).
Proof.
  revert w. induction todo as [|attempt rest IH]; intros w; simpl; [done|].
  unfold mbind, st_bind.
  destruct (attempt_body_spec slug attempt w) as (f & Hf & Hspec).
  destruct (OS.attempt_body slug attempt w) as [r1 w1]; simpl in *; subst r1.
  destruct f as [| |ps']; [apply IH..|].
  simpl. intros [= ->]. destruct Hspec as (Hout & Hfl & Hbe).
  destruct (try_get_prices_parsed _ _ _ Hout) as (s & s' & ->). simpl in *.
  unfold degenerate in *.
  split; apply price_of_sound; try tauto;
    by apply not_true_iff_false; intros ?; tauto.
Qed.

(** What [check_prices] returns. *)
Lemma check_prices_sound self w :
  ∃ x w0, PM.check_prices (self, w) = (Ok x, (self, w0)) ∧ fetch_frame w w0
    ∧ match x with
      | None => True
      | Some cur =>
          ∃ floor best,
            cur = snapshot (PM._format_price floor) (PM._format_price best)
            ∧ sound_price floor ∧ sound_price best
      end.
Proof.
  unfold PM.check_prices, st_try_except, mbind, st_bind, mret, st_ret,
    PM.get_self, PM.on_world.
  pose proof (fetch_get_collection_prices (PM.collection_slug self) w) as Hf.
  pose proof (attempts_parsed (PM.collection_slug self) (seq 0 OS.max_retries) w)
    as Hsound.
  fold (OS.get_collection_prices (PM.collection_slug self)) in Hsound.
  destruct (OS.get_collection_prices (PM.collection_slug self) w)
    as [[[ps|]|e] w0]; simpl in *;
    [|by exists None, w0..].
  destruct (Hsound ps eq_refl) as [Hfl Hbe].
  destruct ps as [[fx fc] [bx bc]]; simpl in *.
  eexists _, w0. split; [reflexivity|]. split; [done|].
  by exists (fx, fc), (bx, bc).
Qed.

(** X10.  [check_prices] never raises and leaves the monitor as it is;
    the world moves by a fetch.  A snapshot that it returns holds two
    formatted prices, each with a currency of one token other than
    [UNKNOWN] and a magnitude other than zero, so that each string splits
    into exactly its magnitude and its currency. *)
Theorem check_prices_snapshot self w :
  ∃ x w0, PM.check_prices (self, w) = (Ok x, (self, w0)) ∧ fetch_frame w w0
    ∧ match x with
      | None => True
      | Some cur =>
          ∃ floor best,
            cur = snapshot (PM._format_price floor) (PM._format_price best)
            ∧ sound_price floor ∧ sound_price best
            ∧ split (PM._format_price floor) = [float_repr floor.1; floor.2]
            ∧ split (PM._format_price best) = [float_repr best.1; best.2]
      end.
Proof.
  destruct (check_prices_sound self w) as (x & w0 & Hcheck & Hframe & Hx).
  exists x, w0. split; [done|]. split; [done|]. destruct x as [cur|]; [|done].
  destruct Hx as ([fx fc] & [bx bc] & -> & Hfl & Hbe).
  exists (fx, fc), (bx, bc). split; [done|]. split; [done|]. split; [done|].
  split; apply split_format_price; [apply Hfl|apply Hbe].
Qed.

(** ** The passes of the loop, case by case *)

Lemma iteration_finish self w (r1 : result (flow unit)) self1 w1 :
  PM.iteration_body (self, w) = (r1, (self1, w1)) →
  r1 ≠ Ok Continue →
  PM.check_interval self1 = PM.check_interval self →
  PM.iteration (self, w) = finish self self1 w1.
Proof.
  intros Hbody Hr Hint. unfold PM.iteration, st_try_except, finish.
  unfold mbind at 1, st_bind. rewrite Hbody.
  destruct r1 as [[| |[]]|e]; simpl; try done;
    unfold mbind, st_bind, PM.get_self, PM.on_world; rewrite Hint;
    by destruct (time_sleep (PM.check_interval self) w1).
Qed.

Lemma iteration_cases self w :
  ∃ x w0, PM.check_prices (self, w) = (Ok x, (self, w0)) ∧ fetch_frame w w0 ∧
    match x with
    | None =>
        PM.iteration (self, w)
        = finish self self
            match (time_sleep (PM.check_interval self) w0).1 with
            | Ok _ => w0
            | Raise _ => (time_sleep (PM.check_interval self) w0).2
            end
    | Some cur =>
        ∃ floor best f b,
          sound_price floor ∧ sound_price best
          ∧ f = PM._format_price floor ∧ b = PM._format_price best
          ∧ cur = snapshot f b ∧
          match (PM._prices_changed cur (self, w0)).1 with
          | Ok true =>
              let s := telegram.send_price_update (PM.collection_slug self) f b
                         (Some (PM.last_prices self)) w0 in
              match s.1 with
              | Ok true =>
                  PM.iteration (self, w)
                  = finish self
                      match disk s.2 0%nat with
                      | Written => remembering cur self
                      | _ => self
                      end
                      (PM._save_memory cur s.2).2
              | _ => PM.iteration (self, w) = finish self self s.2
              end
          | _ => PM.iteration (self, w) = finish self self w0
          end
    end.
Proof.
  destruct (check_prices_sound self w) as (x & w0 & Hcheck & Hfetch & Hshape).
  exists x, w0. split; [done|]. split; [done|]. clear Hfetch.
  destruct x as [cur|].
  - destruct Hshape as (floor & best & -> & Hfl & Hbe).
    remember (PM._format_price floor) as f eqn:Ef.
    remember (PM._format_price best) as b eqn:Eb.
    exists floor, best, f, b. do 5 (split; [done|]). clear Ef Eb.
    assert (snapshot f b !! "floor_price" = Some f) as Hf by done.
    assert (snapshot f b !! "best_offer" = Some b) as Hb by done.
    fold (snapshot f b) in *.
    pose proof (iteration_body_fetched _ _ _ _ _ _ Hcheck Hf) as Hbody.
    destruct (PM._prices_changed (snapshot f b) (self, w0)).1 as [[|]|e];
      [|by apply (iteration_finish _ _ _ _ _ Hbody)..].
    unfold mbind, st_bind, lift, subscript, PM.on_world in Hbody.
    rewrite Hf, Hb in Hbody. cbv zeta.
    destruct (telegram.send_price_update (PM.collection_slug self) f b
                (Some (PM.last_prices self)) w0) as [[[|]|e] w1] eqn:Hsend;
      simpl in Hbody |- *;
      [|by apply (iteration_finish _ _ _ _ _ Hbody)..].
    unfold PM._save_memory, mbind, st_bind, next_write in Hbody |- *.
    simpl in Hbody |- *.
    destruct (disk w1 0%nat) as [|e|e]; simpl in Hbody |- *;
      by apply (iteration_finish _ _ _ _ _ Hbody).
  - unfold PM.iteration, PM.iteration_body, st_try_except, finish.
    unfold mbind at 1, st_bind at 1. unfold mbind at 1, st_bind at 1.
    rewrite Hcheck. simpl.
    unfold mbind, st_bind, PM.get_self, PM.on_world, mret, st_ret.
    destruct (time_sleep (PM.check_interval self) w0) as [[[]|e] w1] eqn:Hs;
      simpl; rewrite ?Hs; simpl; [done|].
    by destruct (time_sleep (PM.check_interval self) w1).
Qed.

(** ** Where the notifier is total *)

Lemma format_change_returns_iff new_price old_price :
  (∃ s, TS.format_change new_price old_price = Ok s)
  ↔ comparable new_price old_price.
Proof.
  unfold TS.format_change, comparable, readable.
  destruct old_price as [|c old']; simpl is_empty.
  { split; intros _; [by left|by eexists]. }
  destruct (String.eqb_spec new_price (String c old')) as [Heq|Hne]; simpl.
  { split; intros _; [by right; left|by eexists]. }
  unfold mbind, result_bind, getitem.
  destruct (split new_price) as [|n restn] eqn:Hn; simpl.
  { split; [by intros [? ?]|].
    intros [?|[?|[(? & ? & ? & ? & _) _]]]; done. }
  destruct (float_of_str n) as [x|e] eqn:Hx; simpl.
  2: { split; [by intros [? ?]|].
       intros [?|[?|[(? & ? & ? & ? & ?) _]]]; try done. congruence. }
  destruct (split (String c old')) as [|o resto] eqn:Ho; simpl.
  { split; [by intros [? ?]|].
    intros [?|[?|[_ (? & ? & ? & ? & _)]]]; done. }
  destruct (float_of_str o) as [y|e] eqn:Hy; simpl.
  2: { split; [by intros [? ?]|].
       intros [?|[?|[_ (? & ? & ? & ? & ?)]]]; try done. congruence. }
  split.
  - intros _. right. right. split; by eexists _, _, _.
  - intros _. destruct (float_gt x y); by eexists.
Qed.

Lemma display_returns_iff new_price old_prices key :
  (∃ s, TS.display new_price old_prices key = Ok s)
  ↔ displayable new_price old_prices key.
Proof.
  unfold TS.display, displayable.
  destruct (telegram.truthy_dict old_prices).
  2: { split; intros _; [by left|by eexists]. }
  unfold subscript. destruct (default ∅ old_prices !! key) as [old|]; simpl.
  - rewrite format_change_returns_iff. split.
    + intros H. right. by exists old.
    + intros [?|(old' & [= <-] & H)]; done.
  - split; [by intros [? ?]|]. by intros [?|(? & ? & _)].
Qed.

(** X11.  [send_price_update] returns a boolean exactly when both
    credentials are set, the bot can be built, and each display can be
    built: there is no previous snapshot, or it has the field and the old
    string is empty, equal to the new one, or both strings start with a
    token that [float] reads.  In every other case it raises. *)
Theorem send_price_update_returns_iff collection floor_price best_offer
    old_prices w :
  (∃ sent, (telegram.send_price_update collection floor_price best_offer
              old_prices w).1 = Ok sent)
  ↔ has_credentials (environ w) = true
    ∧ chat w 0%nat = None
    ∧ displayable floor_price old_prices "floor_price"
    ∧ displayable best_offer old_prices "best_offer".
Proof.
  rewrite send_price_update_eq, <- !display_returns_iff.
  destruct (has_credentials (environ w)); [|split; [by intros [? ?]|by intros [? _]]].
  destruct (chat w 0%nat) as [e0|];
    [split; [by intros [? ?]|by intros (_ & ? & _)]|].
  destruct (TS.display floor_price old_prices "floor_price") as [fd|e];
    [|split; [by intros [? ?]|by intros (_ & _ & [? ?] & _)]].
  destruct (TS.display best_offer old_prices "best_offer") as [bd|e];
    [|split; [by intros [? ?]|by intros (_ & _ & _ & [? ?])]].
  split; intros _; [|by eexists]. repeat split; by eexists.
Qed.

Lemma send_price_update_returns_iff_witness :
  ∃ sent, (telegram.send_price_update "hypio" "0.44 ETH" "0.41 WETH"
             (Some (snapshot "0 ETH" "")) odd_world).1 = Ok sent.
Proof.
  apply (send_price_update_returns_iff "hypio" "0.44 ETH" "0.41 WETH"
           (Some (snapshot "0 ETH" "")) odd_world).
  split; [reflexivity|]. split; [reflexivity|]. split.
  - right. exists "0 ETH". split; [reflexivity|]. right. right.
    split;
      [exists "0.44", ["ETH"], (S754_finite false 7926335344172073 (-54))
      |exists "0", ["ETH"], (S754_zero false)];
      (split; [reflexivity|by_conversion]).
  - right. exists "". split; [reflexivity|]. by left.
Defined.

Lemma time_sleep_effect secs w :
  sleep_outcome secs (time_sleep secs w).1
  ∧ environ (time_sleep secs w).2 = environ w
  ∧ memory_json (time_sleep secs w).2 = memory_json w
  ∧ disk (time_sleep secs w).2 = disk w
  ∧ ∃ after, trace (time_sleep secs w).2 = after ++ trace w
             ∧ forallb fetch_event after = true.
Proof.
  unfold time_sleep, mbind, st_bind, lift, emit, next_clock, sleep_outcome.
  cbv beta iota.
  set (now := Z.max 0 (Z.min (monotonic w 0%nat) uptime_max)).
  assert (0 ≤ now ≤ uptime_max) as Hnow by (unfold now, uptime_max; lia).
  destruct (sleep now secs) as [[]|e] eqn:Hs; simpl;
    (split; [exists now; by rewrite Hs|]); repeat split;
    first [by exists []|by exists [EvSleep secs]].
Qed.





Lemma send_price_update_world collection floor_price best_offer old_prices w :
  ∃ k mid,
    (telegram.send_price_update collection floor_price best_offer old_prices w).2
    = after_chat k mid w
    ∧ match (telegram.send_price_update collection floor_price best_offer
               old_prices w).1 with
      | Ok _ => ∃ text, mid = [sent (channel_of w) text]
      | Raise _ => mid = []
      end.
Proof.
  rewrite send_price_update_eq.
  destruct (has_credentials (environ w));
    [|exists 0%nat, []; by rewrite after_chat_0].
  destruct (chat w 0%nat) as [e0|]; [by exists 1%nat, []|].
  destruct (TS.display floor_price old_prices "floor_price") as [fd|e];
    [|by exists 2%nat, []].
  destruct (TS.display best_offer old_prices "best_offer") as [bd|e];
    [|by exists 2%nat, []].
  eexists 4%nat, _. split; [reflexivity|]. by eexists.
Qed.

(** One pass: what it returns, and what it does. *)
Lemma iteration_effect self w :
  ∃ r self' w',
    PM.iteration (self, w) = (r, (self', w'))
    ∧ sleep_outcome (PM.check_interval self) r
    ∧ pass_effect self w self' w'.
Proof.
  destruct (iteration_cases self w) as (x & w0 & _ & Hfetch & Hx).
  destruct Hfetch as ((E0 & M0 & before & T0 & Hbefore) & _ & D0).
  assert (Hnotice : ∀ w1 mid,
            environ w1 = environ w → memory_json w1 = memory_json w →
            disk w1 = disk w → trace w1 = mid ++ before ++ trace w →
            (mid = [] ∨ ∃ text, mid = [sent (channel_of w) text]) →
            PM.iteration (self, w) = finish self self w1 →
            ∃ r self' w',
              PM.iteration (self, w) = (r, (self', w'))
              ∧ sleep_outcome (PM.check_interval self) r
              ∧ pass_effect self w self' w').
  { intros w1 mid E1 M1 D1 T1 Hm ->. unfold finish.
    destruct (time_sleep_effect (PM.check_interval self) w1)
      as (Hr & E2 & M2 & D2 & after & T2 & Hafter).
    eexists _, self, _. split; [reflexivity|]. split; [done|].
    exists before, mid, after, None.
    split; [by rewrite E2|]. split; [by rewrite T2, T1|].
    do 2 (split; [done|]).
    split; [destruct Hm as [->|[text ->]]; constructor|].
    split; [exists 0%nat; intros n; by rewrite D2, D1|].
    split; [done|by rewrite M2]. }
  assert (Hquiet : ∀ w1,
            environ w1 = environ w0 → memory_json w1 = memory_json w0 →
            disk w1 = disk w0 → trace w1 = trace w0 →
            PM.iteration (self, w) = finish self self w1 →
            ∃ r self' w',
              PM.iteration (self, w) = (r, (self', w'))
              ∧ sleep_outcome (PM.check_interval self) r
              ∧ pass_effect self w self' w').
  { intros w1 E1 M1 D1 T1 H.
    apply (Hnotice w1 []); [congruence..|by simpl; congruence|by left|done]. }
  destruct x as [cur|].
  2: { destruct (time_sleep (PM.check_interval self) w0) as [[[]|e] w1] eqn:Hs;
         simpl in Hx; [by apply (Hquiet w0)|].
       apply (Hquiet w1); [..|done]; revert Hs;
         unfold time_sleep, mbind, st_bind, next_clock, lift, emit;
         cbv beta iota; destruct (sleep _ _) as [[]|e']; simpl; intros H;
         first [discriminate H|injection H as <- <-; done]. }
  destruct Hx as (floor & best & f & b & _ & _ & _ & _ & -> & Hx).
  destruct (PM._prices_changed (snapshot f b) (self, w0)).1 as [[|]|e];
    [|by apply (Hquiet w0)..].
  cbv zeta in Hx.
  destruct (send_price_update_world (PM.collection_slug self) f b
              (Some (PM.last_prices self)) w0) as (k & mid & Hw1 & Hmid).
  assert (channel_of w0 = channel_of w) as Hch by (unfold channel_of; by rewrite E0).
  rewrite Hch in Hmid.
  destruct (telegram.send_price_update (PM.collection_slug self) f b
              (Some (PM.last_prices self)) w0) as [rs w1]; simpl in *. subst w1.
  destruct rs as [[|]|e];
    [|apply (Hnotice (after_chat k mid w0) mid);
        [done|done|done|by simpl; rewrite T0|by right|done]
     |apply (Hnotice (after_chat k mid w0) mid);
        [done|done|done|by simpl; rewrite T0|by left|done]].
  destruct Hmid as [text ->]. rewrite Hx. unfold finish.
  match goal with |- context [time_sleep ?i ?w1] =>
    destruct (time_sleep_effect i w1) as (Hr & E2 & M2 & D2 & after & T2 & Hafter)
  end.
  unfold PM._save_memory, mbind, st_bind, next_write, emit, set_memory_json,
    raise in *. simpl in *. rewrite D0 in *.
  destruct (disk w 0%nat) as [|e|e] eqn:Hd; simpl in *.
  - eexists _, _, _. split; [reflexivity|]. split; [done|].
    exists before, [EvWrite (snapshot f b); sent (channel_of w) text],
      after, (Some (snapshot f b)).
    split; [by rewrite E2|].
    split; [by rewrite T2, T0|]. do 2 (split; [done|]). split; [constructor|].
    split; [exists 1%nat; intros n; by rewrite D2|]. left. by rewrite M2.
  - eexists _, _, _. split; [reflexivity|]. split; [done|].
    exists before, [sent (channel_of w) text], after, None.
    split; [by rewrite E2|].
    split; [by rewrite T2, T0|]. do 2 (split; [done|]). split; [constructor|].
    split; [exists 1%nat; intros n; by rewrite D2|]. split; [done|by rewrite M2].
  - eexists _, _, _. split; [reflexivity|]. split; [done|].
    exists before, [EvWrite (snapshot f b); sent (channel_of w) text],
      after, (Some (snapshot f b)).
    split; [by rewrite E2|].
    split; [by rewrite T2, T0|]. do 2 (split; [done|]). split; [constructor|].
    split; [exists 1%nat; intros n; by rewrite D2|]. right.
    split; [done|]. split; [by rewrite M2|by exists e].
Qed.

(** ** Any number of passes *)

Lemma count_fetch_events evs :
  forallb fetch_event evs = true →
  count is_send evs = 0%nat ∧ count is_write evs = 0%nat.
Proof.
  unfold count. induction evs as [|ev evs IH]; [done|]. simpl.
  intros [Hev Hevs]%andb_prop. destruct (IH Hevs) as [IH1 IH2].
  by destruct ev.
Qed.

Lemma pass_effect_fields self w self' w' :
  pass_effect self w self' w' →
  PM.collection_slug self' = PM.collection_slug self
  ∧ PM.check_interval self' = PM.check_interval self.
Proof.
  intros (before & mid & after & written & _ & _ & _ & _ & _ & _ & H).
  destruct written as [cur|]; [destruct H as [(-> & _)|(-> & _)]|destruct H as [-> _]];
    done.
Qed.

Lemma pass_effect_counts self w self' w' :
  pass_effect self w self' w' →
  ∃ evs, trace w' = evs ++ trace w
    ∧ (count is_write evs ≤ count is_send evs ≤ 1)%nat
    ∧ (PM.last_prices self' = PM.last_prices self
       ∨ In (EvWrite (PM.last_prices self')) evs).
Proof.
  intros (before & mid & after & written & _ & T & Hb & Ha & Hmid & _ & H).
  exists (after ++ mid ++ before). split; [by rewrite T, <- !app_assoc|].
  destruct (count_fetch_events _ Hb) as [Sb Wb].
  destruct (count_fetch_events _ Ha) as [Sa Wa].
  rewrite !count_app, Sb, Wb, Sa, Wa.
  destruct Hmid as [|[text|]|[text|] cur]; simpl.
  1-3: destruct H as [-> _]; (split; [unfold count; simpl; lia|by left]).
  all: split; [unfold count; simpl; lia|].
  all: destruct H as [(-> & _)|(-> & _)]; [right|by left].
  all: apply in_or_app; right; by left.
Qed.

Lemma run_step n self w :
  PM.run (S n) (self, w)
  = match PM.iteration (self, w) with
    | (Ok _, s) => PM.run n s
    | (Raise e, s) => (Raise e, s)
    end.
Proof. simpl. unfold mbind, st_bind. by destruct (PM.iteration (self, w)) as [[[]|e] s]. Qed.

(** X12.  Over any number of passes the monitor keeps its collection and
    its interval and leaves the environment alone; it hands at most one
    message to the transport per pass and writes the memory file at most
    once per message; and the snapshot that it knows at the end is the one
    it knew at the start or one that it has written to the file. *)
Theorem run_learns_what_it_wrote n self w :
  PM.collection_slug (PM.run n (self, w)).2.1 = PM.collection_slug self
  ∧ PM.check_interval (PM.run n (self, w)).2.1 = PM.check_interval self
  ∧ environ (PM.run n (self, w)).2.2 = environ w
  ∧ ∃ evs, trace (PM.run n (self, w)).2.2 = evs ++ trace w
      ∧ (count is_write evs ≤ count is_send evs ≤ n)%nat
      ∧ (PM.last_prices (PM.run n (self, w)).2.1 = PM.last_prices self
         ∨ In (EvWrite (PM.last_prices (PM.run n (self, w)).2.1)) evs).
Proof.
  revert self w. induction n as [|n IH]; intros self w.
  { simpl. repeat split; try done. exists []. repeat split; try done. by left. }
  rewrite run_step.
  destruct (iteration_effect self w) as (r & self1 & w1 & -> & _ & Hpass).
  destruct (pass_effect_fields _ _ _ _ Hpass) as [Hslug Hint].
  destruct (pass_effect_counts _ _ _ _ Hpass) as (evs1 & T1 & Hc1 & Hl1).
  assert (environ w1 = environ w) as Henv by (by destruct Hpass as (?&?&?&?&?&_)).
  destruct r as [[]|e]; simpl.
  2: { repeat split; try done. exists evs1. split; [done|]. split; [lia|done]. }
  destruct (IH self1 w1) as (Hs & Hi & He & evs2 & T2 & Hc2 & Hl2).
  split; [congruence|]. split; [congruence|]. split; [congruence|].
  exists (evs2 ++ evs1). split; [by rewrite T2, T1, app_assoc|].
  rewrite !count_app. split; [lia|].
  destruct Hl2 as [Hl2|Hl2]; [|right; apply in_or_app; by left].
  rewrite Hl2. destruct Hl1 as [Hl1|Hl1]; [by left|].
  right. apply in_or_app. by right.
Qed.

(** ** A restart finds what the monitor knows *)

Lemma load_memory_of_file w w' :
  memory_json w' = memory_json w → (PM._load_memory w').1 = (PM._load_memory w).1.
Proof.
  intros H. unfold PM._load_memory, st_try_except. rewrite H.
  destruct (memory_json w) as [|e| |d]; try done. by destruct (caught_by _ _).
Qed.

Lemma load_memory_holds w d :
  memory_json w = Holds d → (PM._load_memory w).1 = Ok d.
Proof. intros H. unfold PM._load_memory, st_try_except. by rewrite H. Qed.

Lemma load_memory_world w : (PM._load_memory w).2 = w.
Proof.
  unfold PM._load_memory, st_try_except.
  destruct (memory_json w) as [|e| |d]; try done. by destruct (caught_by _ _).
Qed.

Lemma init_in_sync w m w' : PM.__init__ w = (Ok m, w') → w' = w ∧ in_sync m w.
Proof.
  unfold PM.__init__, in_sync, PM._setup_logging, PM._load_config.
  unfold mbind at 1, st_bind.
  destruct (price_monitor_log w) as [e|]; simpl; [done|].
  unfold mbind at 1, st_bind.
  destruct (match environ w !! "CHECK_INTERVAL" with
            | Some s => int_of_str s
            | None => Ok 300
            end) as [i|e]; simpl; [|done].
  unfold mbind, st_bind. pose proof (load_memory_world w) as Hw.
  destruct (PM._load_memory w) as [[d|e] w1]; simpl in *; [|done].
  intros [= <- <-]. by subst.
Qed.

Lemma pass_in_sync self w self' w' :
  pass_effect self w self' w' → in_sync self w → disk_sound w →
  in_sync self' w' ∧ disk_sound w'.
Proof.
  intros (before & mid & after & written & _ & _ & _ & _ & _ & [k Hd] & H)
    Hsync Hdisk.
  split; [|intros n e; rewrite Hd; apply Hdisk].
  unfold in_sync in *. destruct written as [cur|].
  - destruct H as [(-> & M & _)|(_ & _ & e & He)]; [by apply load_memory_holds|].
    by destruct (Hdisk 0%nat e).
  - destruct H as [-> M]. by rewrite (load_memory_of_file _ _ M).
Qed.

Lemma run_in_sync n self w :
  in_sync self w → disk_sound w →
  in_sync (PM.run n (self, w)).2.1 (PM.run n (self, w)).2.2.
Proof.
  revert self w. induction n as [|n IH]; intros self w Hsync Hdisk; [done|].
  rewrite run_step.
  destruct (iteration_effect self w) as (r & self1 & w1 & -> & _ & Hpass).
  destruct (pass_in_sync _ _ _ _ Hpass Hsync Hdisk) as [Hsync1 Hdisk1].
  destruct r as [[]|e]; simpl; [|done]. by apply IH.
Qed.

(** X13.  What the monitor knows is what a restart would load.  When no
    write of the memory file breaks off after the file was opened, then
    however many passes [main] has made, loading the memory file at that
    point gives the snapshot that the monitor knows. *)
Theorem main_in_sync n w monitor :
  disk_sound w →
  (main.main n w).1.2 = Some monitor →
  in_sync monitor (main.main n w).2.
Proof.
  intros Hdisk. unfold main.main.
  destruct (PM.__init__ w) as [[m|e] w0] eqn:Hinit; [|done].
  destruct (init_in_sync _ _ _ Hinit) as [-> Hsync].
  pose proof (run_in_sync n m w Hsync Hdisk) as Hrun.
  destruct (PM.run n (m, w)) as [r' [m' w'']]. by intros [= <-].
Qed.

Lemma main_in_sync_witness :
  in_sync (monitor_knowing (snapshot "0.44 ETH" "0.41 WETH"))
    (main.main 2 fresh_world).2.
Proof.
  apply (main_in_sync 2 fresh_world
           (monitor_knowing (snapshot "0.44 ETH" "0.41 WETH"))).
  - intros n e. discriminate.
  - by_conversion.
Defined.

(** ** A memory that silences the monitor *)

Lemma format_price_readable p : sound_price p → readable (PM._format_price p).
Proof.
  destruct p as [x c]. intros (Hc & _). destruct (float_repr_readable x) as [y Hy].
  exists (float_repr x), [c], y. split; [by apply split_format_price|done].
Qed.

Lemma unreadable_not_comparable new_price old_price :
  unreadable old_price → readable new_price → ¬ comparable new_price old_price.
Proof.
  intros [Hne Hold] Hnew [->|[->|[_ H]]]; [done|by apply Hold..].
Qed.

Lemma prices_changed_floor cur s (changed : bool) :
  (PM._prices_changed cur s).1 = Ok changed →
  ∃ old_price, PM.last_prices s.1 !! "floor_price" = Some old_price.
Proof.
  destruct s as [self w].
  unfold PM._prices_changed, mbind, st_bind, mret, st_ret, PM.get_self, lift,
    subscript. simpl.
  destruct (cur !! "floor_price"); simpl; [|done].
  destruct (PM.last_prices self !! "floor_price") as [old|]; simpl; [|done].
  by exists old.
Qed.

Lemma send_price_update_displayable collection floor_price best_offer old_prices
    w sent :
  (telegram.send_price_update collection floor_price best_offer old_prices w).1
    = Ok sent →
  displayable floor_price old_prices "floor_price"
  ∧ displayable best_offer old_prices "best_offer".
Proof.
  rewrite send_price_update_eq, <- !display_returns_iff.
  destruct (has_credentials (environ w)); [|done].
  destruct (chat w 0%nat) as [e0|]; [done|].
  destruct (TS.display floor_price old_prices "floor_price") as [fd|e]; [|done].
  destruct (TS.display best_offer old_prices "best_offer") as [bd|e]; [|done].
  intros _. split; by eexists.
Qed.

Lemma lost_field_pass self w :
  field_lost (PM.last_prices self) "floor_price"
  ∨ field_lost (PM.last_prices self) "best_offer" →
  (PM.iteration (self, w)).2.1 = self
  ∧ extends fetch_event w (PM.iteration (self, w)).2.2.
Proof.
  intros Hlost.
  destruct (iteration_cases self w) as (x & w0 & _ & Hfetch & Hx).
  destruct Hfetch as (Hext & _ & _).
  assert (Hfinish : ∀ w1, extends fetch_event w w1 →
            PM.iteration (self, w) = finish self self w1 →
            (PM.iteration (self, w)).2.1 = self
            ∧ extends fetch_event w (PM.iteration (self, w)).2.2).
  { intros w1 Hw1 ->. unfold finish. simpl. split; [done|].
    etrans; [exact Hw1|].
    destruct (time_sleep_effect (PM.check_interval self) w1)
      as (_ & E & M & _ & after & T & Hafter).
    repeat split; [done..|by exists after]. }
  destruct x as [cur|].
  2: { eapply Hfinish; [|exact Hx].
       destruct (time_sleep (PM.check_interval self) w0).1; [done|].
       etrans; [exact Hext|].
       apply (fetch_time_sleep (PM.check_interval self) w0). }
  destruct Hx as (floor & best & f & b & Hfl & Hbe & -> & -> & -> & Hx).
  destruct (PM._prices_changed _ (self, w0)).1 as [[|]|e] eqn:Hchanged;
    [|by apply (Hfinish w0)..].
  cbv zeta in Hx.
  destruct (send_price_update_world (PM.collection_slug self)
              (PM._format_price floor) (PM._format_price best)
              (Some (PM.last_prices self)) w0) as (k & mid & Hw1 & Hmid).
  pose proof (send_price_update_displayable (PM.collection_slug self)
                (PM._format_price floor) (PM._format_price best)
                (Some (PM.last_prices self)) w0) as Hdisp.
  destruct (telegram.send_price_update _ _ _ _ w0) as [[sent|e] w1];
    simpl in *.
  - exfalso. destruct (Hdisp sent eq_refl) as [Hdf Hdb].
    destruct (prices_changed_floor _ _ _ Hchanged) as [old Hold]. simpl in Hold.
    assert (telegram.truthy_dict (Some (PM.last_prices self)) = true) as Htruthy
      by by apply (truthy_dict_lookup _ _ _ Hold).
    destruct Hdf as [Hdf|(old_f & Hf & Hcf)]; [congruence|].
    destruct Hdb as [Hdb|(old_b & Hb & Hcb)]; [congruence|].
    simpl in Hf, Hb. unfold field_lost in Hlost. rewrite Hf, Hb in Hlost.
    destruct Hlost as [Hlost|Hlost].
    + by apply (unreadable_not_comparable _ _ Hlost (format_price_readable _ Hfl)).
    + by apply (unreadable_not_comparable _ _ Hlost (format_price_readable _ Hbe)).
  - subst mid w1. apply (Hfinish (after_chat k [] w0)); [|done].
    etrans; [exact Hext|]. repeat split; by exists [].
Qed.

(** X14.  A memory that silences the monitor.  When the snapshot that the
    monitor knows lacks one of the two fields, or holds there a string
    that is not empty and does not start with a number, then over any
    number of passes the monitor stays as it is, the memory file stays as
    it is, and the trace grows by browser and sleep events alone: no
    message is ever handed to the transport and nothing is written,
    whatever prices the pages show. *)
Theorem lost_field_silences_monitor n self w :
  field_lost (PM.last_prices self) "floor_price"
  ∨ field_lost (PM.last_prices self) "best_offer" →
  (PM.run n (self, w)).2.1 = self
  ∧ extends fetch_event w (PM.run n (self, w)).2.2.
Proof.
  intros Hlost. revert w. induction n as [|n IH]; intros w; [done|].
  rewrite run_step. destruct (lost_field_pass self w Hlost) as [Hself Hext].
  destruct (PM.iteration (self, w)) as [[[]|e] [self1 w1]]; simpl in *; [|done].
  subst self1. destruct (IH w1) as [Hself' Hext']. split; [done|]. by etrans.
Qed.

Lemma lost_field_silences_monitor_witness :
  (PM.run 2 (monitor_knowing lost_memory, lost_world)).2.1
    = monitor_knowing lost_memory
  ∧ extends fetch_event lost_world
      (PM.run 2 (monitor_knowing lost_memory, lost_world)).2.2.
Proof.
  apply (lost_field_silences_monitor 2 (monitor_knowing lost_memory) lost_world).
  left. split; [done|]. intros (number & rest & x & Hsplit & Hfloat).
  injection Hsplit as <- _. discriminate Hfloat.
Defined.

(** ** The interval *)



(** ** The construction of the monitor *)

Lemma int_of_str_raises s e : int_of_str s = Raise e → e = ValueError.
Proof. unfold int_of_str. repeat case_match; congruence. Qed.

(** X16.  The construction of the monitor leaves the world as it is.
    When it returns, the log file could be opened, the collection is the
    one of the environment, or [hypio]; the interval is the integer of
    the environment, or 300; and the snapshot is what [_load_memory]
    gives.  When it raises, it is, in this order: the error of opening
    the log file; [ValueError] for an interval of the environment that is
    not an integer; or the error of a memory file that cannot be read,
    unless that error is one that [_load_memory] catches.  (The
    environment is the one after [load_dotenv], which is taken to
    succeed.) *)
Theorem init_outcome w :
  (PM.__init__ w).2 = w
  ∧ match (PM.__init__ w).1 with
    | Ok monitor =>
        price_monitor_log w = None
        ∧ PM.collection_slug monitor
          = default "hypio" (environ w !! "OPENSEA_COLLECTION_SLUG")
        ∧ match environ w !! "CHECK_INTERVAL" with
          | Some s => int_of_str s = Ok (PM.check_interval monitor)
          | None => PM.check_interval monitor = 300
          end
        ∧ in_sync monitor w
    | Raise e =>
        price_monitor_log w = Some e
        ∨ (price_monitor_log w = None ∧ e = ValueError
           ∧ ∃ s, environ w !! "CHECK_INTERVAL" = Some s
                  ∧ int_of_str s = Raise ValueError)
        ∨ (price_monitor_log w = None
           ∧ (∀ s, environ w !! "CHECK_INTERVAL" = Some s →
                   ∃ i, int_of_str s = Ok i)
           ∧ memory_json w = Unreadable e
           ∧ caught_by e [FileNotFoundError; JSONDecodeError] = false)
    end.
Proof.
  pose proof (load_memory_world w) as Hw.
  assert (∀ e, (PM._load_memory w).1 = Raise e →
            memory_json w = Unreadable e
            ∧ caught_by e [FileNotFoundError; JSONDecodeError] = false) as Hload.
  { intros e. unfold PM._load_memory, st_try_except.
    destruct (memory_json w) as [|e'| |d] eqn:Hm; try done.
    destruct (caught_by e' [FileNotFoundError; JSONDecodeError]) eqn:Hc;
      [done|]. by intros [= <-]. }
  unfold PM.__init__, in_sync, PM._setup_logging, PM._load_config.
  unfold mbind, st_bind, mret, st_ret. cbv beta.
  destruct (price_monitor_log w) as [e0|] eqn:Hlog; simpl;
    [split; [done|by left]|].
  destruct (environ w !! "CHECK_INTERVAL") as [s|] eqn:Hs; simpl.
  - destruct (int_of_str s) as [i|e] eqn:Hi; simpl.
    2: { pose proof (int_of_str_raises _ _ Hi) as ->. split; [done|]. right. left.
         split; [done|]. split; [done|]. by exists s. }
    destruct (PM._load_memory w) as [[d|e] w1]; simpl in *; subst w1;
      (split; [done|]); [done|]. right. right. split; [done|].
    split; [|by apply Hload]. intros s' [= <-]. by exists i.
  - destruct (PM._load_memory w) as [[d|e] w1]; simpl in *; subst w1;
      (split; [done|]); [done|]. right. right. split; [done|].
    split; [by intros s' [=]|by apply Hload].
Qed.

(** ** C1: the loop without credentials *)





